(** * Smart Expense Tracker: categorisation and analytics pipeline

    A shallow embedding of the decision logic of the expense tracker
    ([advanced_categorization.py], [utils.py], [ml.py]) together with the
    properties its specification states about it.

    Conventions of the embedding.
    - Python [str] values are [string]s (byte strings); [str.lower] is the
      ASCII lower-casing, which is the range every registered keyword lives in.
    - Python [float] amounts are rationals [Q]; [None] of [option Q] stands
      for NaN. Sums, differences and regression are exact; the mean and the
      standard deviation behind the anomaly flag, whose answer can turn on
      the last bit, are computed in double precision.
    - A pandas [Timestamp] is the number of days since 1970-01-01 ([Z]); the
      time of day plays no part in week, month and year bucketing.
    - A [raise] is the [Raise] outcome of the [result] type. *)

From Stdlib Require Import ZArith QArith Qround Qpower Lqa List String Ascii Lia Bool Sorted.
From stdpp Require Import gmap strings.
Import ListNotations.

Local Open Scope string_scope.
Local Open Scope Z_scope.

(** ** Strings as Python uses them *)

Module Py.

(** [c.lower()] on one ASCII character. *)
Definition lower_char (c : ascii) : ascii :=
  let n := nat_of_ascii c in
  if (Nat.leb 65 n && Nat.leb n 90)%bool then ascii_of_nat (n + 32) else c.

(** [s.lower()]. *)
Fixpoint lower (s : string) : string :=
  match s with
  | EmptyString => EmptyString
  | String c s' => String (lower_char c) (lower s')
  end.

(** [k in s] on strings: [k] occurs as a contiguous substring of [s]. *)
Fixpoint contains (k s : string) : bool :=
  String.prefix k s
  || match s with
     | EmptyString => false
     | String _ s' => contains k s'
     end.

(** The characters [str.strip] removes (ASCII white space). *)
Definition is_space (c : ascii) : bool :=
  let n := nat_of_ascii c in
  (Nat.leb 9 n && Nat.leb n 13)%bool || Nat.eqb n 32
  || (Nat.leb 28 n && Nat.leb n 31)%bool.

(** [s.strip() == ""]. *)
Fixpoint blank (s : string) : bool :=
  match s with
  | EmptyString => true
  | String c s' => is_space c && blank s'
  end.

(** [any(p(x) for x in l)]. *)
Definition any {A} (p : A -> bool) (l : list A) : bool := existsb p l.

End Py.

(** ** Keyword categoriser ([advanced_categorization.py]) *)

(** The dictionary literal, in insertion order: iteration over
    [CATEGORY_KEYWORDS.items()] follows it. *)
Definition CATEGORY_KEYWORDS : list (string * list string) :=
  [ ("Food", ["restaurant"; "dinner"; "lunch"; "cafe"; "meal"; "snack"; "food"; "breakfast"]);
    ("Transport", ["uber"; "taxi"; "bus"; "train"; "ride"; "metro"; "travel"; "commute"]);
    ("Housing", ["rent"; "apartment"; "housing"; "mortgage"; "lease"; "property"]);
    ("Utilities", ["electricity"; "water"; "utility"; "bill"; "internet"; "gas"]);
    ("Entertainment", ["movie"; "theater"; "concert"; "event"; "show"; "entertainment"]);
    ("Healthcare", ["health"; "clinic"; "doctor"; "hospital"; "pharmacy"; "medicine"]);
    ("Education", ["education"; "tuition"; "school"; "books"; "courses"]);
    ("Shopping", ["shopping"; "clothes"; "electronics"; "store"; "mall"; "purchase"]);
    ("Insurance", ["insurance"; "life insurance"; "health insurance"; "car insurance"]) ].

(** The [for category, keywords in ...items()] loop with its early
    [return category] and the fallback after the loop. *)
Fixpoint categorize_loop (items : list (string * list string)) (lower_desc : string)
  : string :=
  match items with
  | [] => "Other"
  | (category, keywords) :: rest =>
      if Py.any (fun keyword => Py.contains keyword lower_desc) keywords
      then category
      else categorize_loop rest lower_desc
  end.

Definition advanced_categorize_expense (description : string) : string :=
  match description with
  | EmptyString => "Other"
  | _ =>
      let lower_desc := Py.lower description in
      categorize_loop CATEGORY_KEYWORDS lower_desc
  end.

(** The closed category set of the data model, and the enumeration order
    of the nine keyword categories. *)
Definition ENUMERATION : list string :=
  ["Food"; "Transport"; "Housing"; "Utilities"; "Entertainment";
   "Healthcare"; "Education"; "Shopping"; "Insurance"].

Definition CATEGORIES : list string := (ENUMERATION ++ ["Other"])%list.

(** [k] occurs in [s]. *)
Definition occurs (k s : string) : Prop :=
  exists pre post, s = pre +:+ k +:+ post.

(** Some registered keyword of category [c] occurs in [s]. *)
Definition triggers (c s : string) : Prop :=
  exists keywords k,
    In (c, keywords) CATEGORY_KEYWORDS /\ In k keywords /\ occurs k s.

(** A decision procedure for [triggers], used to run the examples. *)
Definition triggersb (c s : string) : bool :=
  existsb (fun item : string * list string =>
             String.eqb (fst item) c
             && Py.any (fun keyword => Py.contains keyword s) (snd item))
          CATEGORY_KEYWORDS.


(** ** Calendar

    Dates are day numbers, 0 being 1970-01-01, in the proleptic Gregorian
    calendar, which is how a pandas [Timestamp] orders and buckets them. *)

Module Calendar.

Definition is_leap (y : Z) : bool :=
  (y mod 4 =? 0) && (negb (y mod 100 =? 0) || (y mod 400 =? 0)).

Definition days_in_month (y m : Z) : Z :=
  if m =? 2 then (if is_leap y then 29 else 28)
  else if (m =? 4) || (m =? 6) || (m =? 9) || (m =? 11) then 30
  else 31.

(** A calendar date that exists. *)
Definition valid_date (y m d : Z) : bool :=
  (1 <=? m) && (m <=? 12) && (1 <=? d) && (d <=? days_in_month y m).

(** Days from 0000-03-01 to the first of March of year [y]. *)
Definition days_before_year (y : Z) : Z :=
  let era := y / 400 in
  let yoe := y - era * 400 in
  era * 146097 + (yoe * 365 + yoe / 4 - yoe / 100).

(** Days from the first of March to the first of month [m], in a year
    that runs from March to February. *)
Definition days_before_month (m : Z) : Z :=
  let mp := (m + 9) mod 12 in
  (153 * mp + 2) / 5.

(** Day number of the civil date [y]-[m]-[d]: January and February
    count with the March-based year before. *)
Definition days_from_civil (y m d : Z) : Z :=
  let y := if m <=? 2 then y - 1 else y in
  days_before_year y + days_before_month m + (d - 1) - 719468.

(** Civil date of day [doe] of the 400-year era that starts on
    0000-03-01 ([0 <= doe < 146097]). *)
Definition civil_of_doe (doe : Z) : Z * Z * Z :=
  let yoe := (doe - doe / 1460 + doe / 36524 - doe / 146096) / 365 in
  let doy := doe - (365 * yoe + yoe / 4 - yoe / 100) in
  let mp := (5 * doy + 2) / 153 in
  let d := doy - (153 * mp + 2) / 5 + 1 in
  let m := if mp <? 10 then mp + 3 else mp - 9 in
  (if m <=? 2 then yoe + 1 else yoe, m, d).

(** Civil date of a day number. *)
Definition civil_from_days (z : Z) : Z * Z * Z :=
  let z := z + 719468 in
  let era := z / 146097 in
  let doe := z mod 146097 in
  let '(y, m, d) := civil_of_doe doe in
  (y + 400 * era, m, d).

(** [all_from check z n]: [check] holds of [z], [z + 1], ..., [z + n - 1]. *)
Fixpoint all_from (check : Z -> bool) (z : Z) (n : nat) : bool :=
  match n with
  | O => true
  | S n' => if check z then all_from check (z + 1) n' else false
  end.

(** The check run over one whole era to validate [civil_of_doe]. *)
Definition civil_of_doe_ok (doe : Z) : bool :=
  let '(y, m, d) := civil_of_doe doe in
  valid_date y m d && (days_from_civil y m d + 719468 =? doe).

(** Months are numbered through the years: month [12 * y + (m - 1)]. *)
Definition month_ordinal (t : Z) : Z :=
  let '(y, m, _) := civil_from_days t in 12 * y + (m - 1).

Definition year_of (t : Z) : Z :=
  let '(y, _, _) := civil_from_days t in y.

(** First day of month number [k]. *)
Definition month_start (k : Z) : Z :=
  days_from_civil (k / 12) (k mod 12 + 1) 1.

(** Last day of month number [k]. *)
Definition month_end (k : Z) : Z := month_start (k + 1) - 1.

End Calendar.

(** ** Outcomes of fallible code *)

Inductive exn : Type :=
| ValueError (msg : string).

(** A call either returns a value or raises. *)
Inductive result (A : Type) : Type :=
| Return (a : A)
| Raise (e : exn).

Arguments Return {A} a.
Arguments Raise {A} e.

(** ** Library functions the code calls

    The behaviour of Python's [int] on a string, of [pandas.to_datetime]
    and of scikit-learn's isolation forest is not part of this repository:
    the code is embedded over any implementation of them. *)

Class Library : Type := {
  (** [int(s)]; [None] when it raises [ValueError]. *)
  int : string -> option Z;
  (** [pd.to_datetime(s, format=fmt, errors="coerce")] as a day number;
      [fmt = None] is the call without a format (the general parser);
      the result [None] is [NaT]. *)
  to_datetime : string -> option string -> option Z;
  (** [IsolationForest(contamination=0.05, random_state=0).fit(X)
      .predict([[x]])[0]]: the label, [1] or [-1], given to [x] by a forest
      fitted on [X]. *)
  isolation_forest_predict : list Q -> Q -> Z
}.

(** ** Expense records ([database.py], the rows of [get_expenses]) *)

(** A cell of the [date] column: SQL NULL, the text stored by the
    application, or a timestamp once the column has been parsed. *)
Inductive cell : Type :=
| Null
| Text (s : string)
| Stamp (t : Z).

(** One row [(id, date, amount, category, description)]; [D] is the type
    of the date column. *)
Record expense (D : Type) : Type := Expense {
  id : Z;
  date : D;
  amount : Q;
  category : string;
  description : string
}.

Arguments Expense {D} _ _ _ _ _.
Arguments id {D} _.
Arguments date {D} _.
Arguments amount {D} _.
Arguments category {D} _.
Arguments description {D} _.

(** ** Date parsing ([utils.py]) *)

(** [s.split(sep)] for a one-character separator. *)
Fixpoint split (sep : ascii) (s : string) : list string :=
  match s with
  | EmptyString => [EmptyString]
  | String c s' =>
      if Ascii.eqb c sep then EmptyString :: split sep s'
      else match split sep s' with
           | [] => [String c EmptyString]
           | part :: parts => String c part :: parts
           end
  end.

Section Parsing.
Context `{Library}.

(** The inner function of [parse_dates]. A null or blank value is [NaT];
    for a string of ten characters the [try] block converts the first
    segment with [int], and its [except ValueError] branch, like every
    other string, calls the general parser; a value that is a timestamp
    already is no string, and [pd.to_datetime] gives it back. *)
Definition try_parse (date_str : cell) : option Z :=
  match date_str with
  | Null => None
  | Stamp t => Some t
  | Text s =>
      if Py.blank s then None
      else if (String.length s =? 10)%nat then
        let parts := split "-" s in
        match int (hd EmptyString parts) with
        | Some n =>
            if 31 <? n then to_datetime s (Some "%Y-%m-%d")
            else to_datetime s (Some "%d-%m-%Y")
        | None => to_datetime s None
        end
      else to_datetime s None
  end.

(** The date of a row survives parsing. *)
Definition parseable (date_str : cell) : bool :=
  match try_parse date_str with
  | Some _ => true
  | None => false
  end.

(** [df[column] = df[column].apply(try_parse)] followed by
    [df.dropna(subset=[column])]. *)
Fixpoint parse_dates (df : list (expense cell)) : list (expense Z) :=
  match df with
  | [] => []
  | row :: rest =>
      match try_parse (date row) with
      | Some t =>
          Expense (id row) t (amount row) (category row) (description row)
          :: parse_dates rest
      | None => parse_dates rest
      end
  end.

End Parsing.

(** ** Periods and resampling

    [df.set_index("date").resample(freq).sum()] of pandas, for the three
    frequencies the application uses. The bins are the calendar periods
    from the one of the earliest row to the one of the latest row, each
    labelled with its last day; a bin no row falls in sums to 0. *)

(** ["W-Mon"], ["M"] and ["Y"]. *)
Inductive granularity : Type := Week | Month | Year.

(** The number of the period a day lies in: weeks end on a Monday
    (1970-01-05, day 4, is one), months and years are calendar ones. *)
Definition period_of (g : granularity) (t : Z) : Z :=
  match g with
  | Week => (t + 2) / 7
  | Month => Calendar.month_ordinal t
  | Year => Calendar.year_of t
  end.

(** First and last day of period number [k]. *)
Definition period_start (g : granularity) (k : Z) : Z :=
  match g with
  | Week => 7 * k - 2
  | Month => Calendar.month_start k
  | Year => Calendar.month_start (12 * k)
  end.

Definition period_end (g : granularity) (k : Z) : Z :=
  match g with
  | Week => 7 * k + 4
  | Month => Calendar.month_end k
  | Year => Calendar.month_end (12 * k + 11)
  end.

(** [x < y] on rationals. *)
Definition Qlt_bool (x y : Q) : bool := negb (Qle_bool y x).

(** [sum] of a column. *)
Definition Qsum (l : list Q) : Q := fold_right Qplus 0%Q l.

(** The rows of [df] whose date lies in period [k]. *)
Definition rows_in (g : granularity) (k : Z) (df : list (expense Z))
  : list (expense Z) :=
  List.filter (fun row => period_of g (date row) =? k) df.

Definition resample_sum (g : granularity) (df : list (expense Z)) : list (Z * Q) :=
  match map (fun row => period_of g (date row)) df with
  | [] => []
  | k :: ks =>
      let first := fold_right Z.min k ks in
      let last := fold_right Z.max k ks in
      map (fun k => (period_end g k, Qsum (map amount (rows_in g k df))))
          (seqZ first (last - first + 1))
  end.

(** [mean] of a non-empty column. *)
Definition Qmean (l : list Q) : Q := (Qsum l / inject_Z (Z.of_nat (length l)))%Q.

(** [np.arange(start, start + n)] as a column of numbers. *)
Definition arange (start : Z) (n : nat) : list Q :=
  map inject_Z (seqZ start (Z.of_nat n)).

(** ** Ordinary least squares ([sklearn.linear_model.LinearRegression])

    The fit on one feature, for [X] and [y] of one length as the forecast
    builds them: the slope is the centred cross product over the centred
    sum of squares, and 0 when every [x] is the same (the minimum-norm
    solution); the line passes through the means. No sample at all is a
    [ValueError]. *)
Record LinearRegression : Type := {
  coef_ : Q;
  intercept_ : Q
}.

Definition fit (X y : list Q) : result LinearRegression :=
  match X with
  | [] => Raise (ValueError "Found array with 0 sample(s) (shape=(0, 1)) while a minimum of 1 is required by LinearRegression.")
  | _ =>
      let x_mean := Qmean X in
      let y_mean := Qmean y in
      let sxx := Qsum (map (fun x => (x - x_mean) * (x - x_mean)) X) in
      let sxy := Qsum (map (fun xy => (fst xy - x_mean) * (snd xy - y_mean))
                           (combine X y)) in
      let a := if Qeq_bool sxx 0 then 0 else sxy / sxx in
      Return {| coef_ := a; intercept_ := y_mean - a * x_mean |}
  end%Q.

(** [model.predict(X)]: the line at every [x]; like the fit, it refuses a
    frame without a row. *)
Definition predict (model : LinearRegression) (X : list Q) : result (list Q) :=
  match X with
  | [] => Raise (ValueError "Found array with 0 sample(s) (shape=(0, 1)) while a minimum of 1 is required by LinearRegression.")
  | _ => Return (map (fun x => intercept_ model + coef_ model * x)%Q X)
  end.

(** The sum of the squared residuals of a line on the sample. *)
Definition squared_error (model : LinearRegression) (X y : list Q) : Q :=
  Qsum (map (fun xy =>
               let residual := snd xy - (intercept_ model + coef_ model * fst xy) in
               residual * residual)%Q
            (combine X y)).

(** ** Double precision ([numpy.float64])

    pandas computes [mean] and [std] in IEEE 754 double precision: every
    operation returns the double nearest to the exact result, a tie going
    to the double whose last bit is 0. A double is modelled as the
    rational it is. The exponent is not bounded: amounts of money and
    their statistics stay far from overflow and from the subnormal
    range. *)

(** The integer nearest to [x], a tie going to the even one. *)
Definition round_half_even (x : Q) : Z :=
  let f := Qfloor x in
  match (x - inject_Z f ?= 1 # 2)%Q with
  | Lt => f
  | Gt => f + 1
  | Eq => if Z.even f then f else f + 1
  end.

Definition pow2 (e : Z) : Q := (2 ^ e)%Q.

(** The binary exponent of a positive [x]: the [e] with
    [2 ^ e <= x < 2 ^ (e + 1)]. *)
Definition ilog2 (x : Q) : Z :=
  let e := Z.log2 (Qnum x) - Z.log2 (Zpos (Qden x)) in
  if Qle_bool (pow2 e) x then e else e - 1.

(** The double nearest to a positive [x]: 53 significant bits. *)
Definition nearest (x : Q) : Q :=
  let ulp := pow2 (ilog2 x - 52) in
  (inject_Z (round_half_even (x / ulp)) * ulp)%Q.

Definition float64 (x : Q) : Q :=
  match (x ?= 0)%Q with
  | Eq => 0
  | Gt => nearest x
  | Lt => - nearest (- x)
  end%Q.

Definition fadd (x y : Q) : Q := float64 (x + y).
Definition fsub (x y : Q) : Q := float64 (x - y).
Definition fmul (x y : Q) : Q := float64 (x * y).
Definition fdiv (x y : Q) : Q := float64 (x / y).

(** [np.sqrt(x)]: the double nearest to the square root, NaN for a
    negative [x]. The root of [x / ulp ^ 2] lies between [k] and [k + 1],
    and on the side of [k + 1/2] on which [x / ulp ^ 2] lies of its
    square. *)
Definition fsqrt (x : Q) : option Q :=
  match (x ?= 0)%Q with
  | Lt => None
  | Eq => Some 0%Q
  | Gt =>
      let ulp := pow2 (ilog2 x / 2 - 52) in
      let t := (x / (ulp * ulp))%Q in
      let k := Z.sqrt (Qfloor t) in
      let half := (inject_Z k + (1 # 2))%Q in
      let k' := match (t ?= half * half)%Q with
                | Lt => k
                | Gt => k + 1
                | Eq => if Z.even k then k else k + 1
                end in
      Some (inject_Z k' * ulp)%Q
  end.

(** [ndarray.sum()] on doubles. numpy adds fewer than 8 numbers one after
    the other; up to 128 numbers go to 8 running sums, by blocks of 8,
    that are then added in pairs, and what is left of the array after the
    last full block is added one after the other; a longer array is cut
    in two near its middle, at a multiple of 8. *)
Definition sum8 (r : list Q) : Q :=
  match r with
  | [r0; r1; r2; r3; r4; r5; r6; r7] =>
      fadd (fadd (fadd r0 r1) (fadd r2 r3)) (fadd (fadd r4 r5) (fadd r6 r7))
  | _ => 0%Q
  end.

Fixpoint add_blocks (blocks : nat) (r a : list Q) : list Q * list Q :=
  match blocks with
  | O => (r, a)
  | S blocks' =>
      if (8 <=? length a)%nat
      then add_blocks blocks' (zip_with fadd r (firstn 8 a)) (skipn 8 a)
      else (r, a)
  end.

Fixpoint pairwise_sum (fuel : nat) (a : list Q) : Q :=
  let n := length a in
  if (n <? 8)%nat then fold_left fadd a 0%Q
  else if (n <=? 128)%nat then
    let '(r, rest) := add_blocks n (firstn 8 a) (skipn 8 a) in
    fold_left fadd rest (sum8 r)
  else
    match fuel with
    | O => 0%Q
    | S fuel' =>
        let n2 := (n / 2 - (n / 2) mod 8)%nat in
        fadd (pairwise_sum fuel' (firstn n2 a)) (pairwise_sum fuel' (skipn n2 a))
    end.

Definition np_sum (a : list Q) : Q := fadd 0 (pairwise_sum (length a) a).

(** ** Statistics of a pandas [Series]

    [None] stands for NaN. *)

(** [hist.mean()]: the sum over the count, NaN on an empty series. *)
Definition series_mean (hist : list Q) : option Q :=
  match hist with
  | [] => None
  | _ => Some (fdiv (np_sum hist) (inject_Z (Z.of_nat (length hist))))
  end.

(** [hist.std()]: the sample standard deviation (one delta degree of
    freedom), NaN with fewer than two observations. pandas takes the
    average, the squares of the differences from it, their sum over the
    count less one, and the root of that. *)
Definition series_std (hist : list Q) : option Q :=
  if (length hist <=? 1)%nat then None
  else
    let count := inject_Z (Z.of_nat (length hist)) in
    let avg := fdiv (np_sum hist) count in
    let sqr := map (fun x => let d := fsub avg x in fmul d d) hist in
    fsqrt (fdiv (np_sum sqr) (count - 1)).

(** Truth value of a float: NaN is true, zero is false. *)
Definition truthy (std : option Q) : bool :=
  match std with
  | None => true
  | Some s => negb (Qeq_bool s 0)
  end.

(** [x > mean + 2 * std]: false as soon as a NaN is involved. *)
Definition gt_mean_plus_2std (x : Q) (mean std : option Q) : bool :=
  match mean, std with
  | Some m, Some s => Qlt_bool (fadd m (fmul 2 s)) x
  | _, _ => false
  end.

(** ** Analytics ([ml.py]) *)

(** The sentences [compare_expenses] answers with, and its final report:
    the f-string built from [current], [previous], [change] and the
    suggestion. *)
Inductive comparison : Type :=
| Message (text : string)
| Report (current previous change : Q) (suggestion : string).

Section Analytics.
Context `{Library}.

(** A parsed frame handed on as rows again, its dates being timestamps. *)
Definition as_cells (df : list (expense Z)) : list (expense cell) :=
  map (fun row => Expense (id row) (Stamp (date row)) (amount row)
                          (category row) (description row)) df.

(** The aggregation every chart, report and forecast starts from:
    [parse_dates] and then [set_index("date").resample(freq).sum()]. *)
Definition aggregate (records : list (expense cell)) (g : granularity)
  : list (Z * Q) :=
  resample_sum g (parse_dates records).

(** [last_date + pd.offsets.MonthBegin(1)]: the first day of the month
    after the one of [t]. *)
Definition MonthBegin (t : Z) : Z :=
  Calendar.month_start (Calendar.month_ordinal t + 1).

(** [pd.date_range(start, periods=n, freq="M")]: the [n] month ends
    from [start] on. *)
Definition date_range (start : Z) (periods : nat) : list Z :=
  map (fun i => Calendar.month_end (Calendar.month_ordinal start + i))
      (seqZ 0 (Z.of_nat periods)).

(** [series.max()] of a non-empty column of dates. *)
Definition Zmax_list (l : list Z) : Z :=
  match l with
  | [] => 0
  | t :: ts => fold_right Z.max t ts
  end.

Definition forecast_expenses (data : list (expense cell)) (periods : nat)
  : result (list (Z * Q)) :=
  match data with
  | [] => Raise (ValueError "No data available for forecasting.")
  | _ =>
      let data := parse_dates data in
      let monthly := resample_sum Month data in
      let month_num := arange 0 (length monthly) in
      let X := month_num in
      let y := map snd monthly in
      match fit X y with
      | Raise e => Raise e
      | Return model =>
          let future := arange (Z.of_nat (length monthly)) periods in
          match predict model future with
          | Raise e => Raise e
          | Return pred =>
              let last_date := Zmax_list (map fst monthly) in
              let future_dates := date_range (MonthBegin last_date) periods in
              Return (combine future_dates pred)
          end
      end
  end.

Definition fraud_detection (new_amount : Q) (hist : list Q) : bool :=
  if (length hist <? 10)%nat then
    let mean := series_mean hist in
    let std := series_std hist in
    if truthy std then gt_mean_plus_2std new_amount mean std else false
  else
    isolation_forest_predict hist new_amount =? -1.

(** [data.groupby("category")]: the categories present, each once. *)
Definition groups (data : list (expense Z)) : list string :=
  remove_dups (map category data).

Definition personalized_budget_recommendation (data : list (expense cell))
  : gmap string Q :=
  match data with
  | [] => ∅
  | _ =>
      let data := parse_dates data in
      let monthly := fun cat =>
        resample_sum Month
          (List.filter (fun row => String.eqb (category row) cat) data) in
      let avg_by_cat := map (fun cat => (cat, Qmean (map snd (monthly cat))))
                            (groups data) in
      list_to_map (map (fun cv => (fst cv, snd cv * (9 # 10))%Q) avg_by_cat)
  end.

Definition compare_expenses (data : list (expense cell)) : comparison :=
  match data with
  | [] => Message "No data available for comparison."
  | _ =>
      let data := parse_dates data in
      let monthly := resample_sum Month data in
      match rev (map snd monthly) with
      | current :: previous :: _ =>
          if Qeq_bool previous 0 then
            Message "No expenses in the previous month to compare."
          else
            let change := ((current - previous) / previous * 100)%Q in
            let suggestion :=
              if Qlt_bool change 0 then "Great job! Your expenses decreased."
              else "Your expenses increased. Consider reviewing your spending habits." in
            Report current previous change suggestion
      | _ => Message "Not enough data for comparison."
      end
  end.

End Analytics.

(** ** The forecast button ([analytics_section.py]) *)

(** What the user gets to see. *)
Inductive ui_event : Type :=
| showinfo (title message : string)
| plot (points : list (Z * Q)).

Section AnalyticsSection.
Context `{Library}.

Definition _get_data (rows : list (expense cell))
  : list ui_event * list (expense Z) :=
  match rows with
  | [] => ([showinfo "No Data" "No expense data available."], [])
  | _ => ([], parse_dates rows)
  end.

Definition show_forecast (rows : list (expense cell)) : result (list ui_event) :=
  let '(shown, data) := _get_data rows in
  match data with
  | [] => Return shown
  | _ =>
      match forecast_expenses (as_cells data) 1 with
      | Raise e => Raise e
      | Return [] => Return (shown ++ [showinfo "Forecast" "Unable to forecast."])%list
      | Return forecast_df => Return (shown ++ [plot forecast_df])%list
      end
  end.

End AnalyticsSection.

(** The two suggestions of [compare_expenses]. *)
Definition favourable : string := "Great job! Your expenses decreased.".
Definition review : string :=
  "Your expenses increased. Consider reviewing your spending habits.".

(** ** Error kinds

    The specification names the failures of the analytics
    [InsufficientData] and [DivisionUndefined]; the code tells them by the
    exception it raises or the sentence it answers with. *)

Inductive error_kind : Type := InsufficientData | DivisionUndefined.

Definition exn_kind (e : exn) : option error_kind :=
  match e with
  | ValueError msg =>
      if String.eqb msg "No data available for forecasting."
      then Some InsufficientData else None
  end.


(** ** A reference library for the examples

    ISO-like dates only: [int] reads an optionally signed run of decimal
    digits, the two explicit formats read zero-padded fields, and the
    general parser reads [YYYY-MM-DD] and [YYYY/MM/DD]. This is the part of
    the real functions the examples below exercise. *)

Module Reference.

Definition digit (c : ascii) : option Z :=
  let n := nat_of_ascii c in
  if (Nat.leb 48 n && Nat.leb n 57)%bool then Some (Z.of_nat n - 48) else None.

Fixpoint number (s : string) (acc : Z) : option Z :=
  match s with
  | EmptyString => Some acc
  | String c s' =>
      match digit c with
      | Some d => number s' (10 * acc + d)
      | None => None
      end
  end.

Definition unsigned (s : string) : option Z :=
  match s with
  | EmptyString => None
  | _ => number s 0
  end.

Definition int (s : string) : option Z :=
  match s with
  | String "-" s' => option_map Z.opp (unsigned s')
  | String "+" s' => unsigned s'
  | _ => unsigned s
  end.

(** The number written in the [len] characters from position [start]. *)
Definition field (s : string) (start len : nat) : option Z :=
  unsigned (String.substring start len s).

Definition ymd (y m d : option Z) : option Z :=
  match y, m, d with
  | Some y, Some m, Some d =>
      if Calendar.valid_date y m d then Some (Calendar.days_from_civil y m d)
      else None
  | _, _, _ => None
  end.

Definition separators (s : string) (i j : nat) (sep : string) : bool :=
  String.eqb (String.substring i 1 s) sep
  && String.eqb (String.substring j 1 s) sep.

Definition to_datetime (s : string) (fmt : option string) : option Z :=
  if negb (String.length s =? 10)%nat then None
  else
    match fmt with
    | Some fmt =>
        if String.eqb fmt "%Y-%m-%d" then
          if separators s 4 7 "-"
          then ymd (field s 0 4) (field s 5 2) (field s 8 2) else None
        else if String.eqb fmt "%d-%m-%Y" then
          if separators s 2 5 "-"
          then ymd (field s 6 4) (field s 3 2) (field s 0 2) else None
        else None
    | None =>
        if separators s 4 7 "-" || separators s 4 7 "/"
        then ymd (field s 0 4) (field s 5 2) (field s 8 2) else None
    end.

#[export] Instance library : Library :=
  Build_Library int to_datetime (fun _ _ => 1).

End Reference.

(** ** Spending tiers ([ml.py], [spending_categories]) *)

(** The [mapping] dictionary, read at its three keys. *)
Definition mapping (key : string) : list string :=
  if String.eqb key "Must" then ["Housing"; "Utilities"; "Food"; "Transport"]
  else if String.eqb key "Need" then ["Healthcare"; "Insurance"; "Education"]
  else if String.eqb key "Want" then ["Entertainment"; "Shopping"; "Other"]
  else [].

(** [cat in cats] on a list of strings. *)
Definition str_in (cat : string) (cats : list string) : bool :=
  existsb (String.eqb cat) cats.

(** The body of the loop over [data.iterrows()]: [cat_dict[key] += amt]
    alters the entry of the tier of the row's category. *)
Definition add_to_tier {D : Type} (cat_dict : gmap string Q) (row : expense D)
  : gmap string Q :=
  let cat := category row in
  let amt := amount row in
  if str_in cat (mapping "Must") then alter (fun v => v + amt)%Q "Must" cat_dict
  else if str_in cat (mapping "Need") then alter (fun v => v + amt)%Q "Need" cat_dict
  else alter (fun v => v + amt)%Q "Want" cat_dict.

Definition spending_categories {D : Type} (data : list (expense D)) : gmap string Q :=
  let cat_dict := <["Must" := 0%Q]> (<["Need" := 0%Q]> (<["Want" := 0%Q]> ∅)) in
  fold_left add_to_tier data cat_dict.

(** ** First number of a text ([utils.py], [extract_numeric_value]) *)

(** [\d] on an ASCII character. *)
Definition is_digit (c : ascii) : bool :=
  let n := nat_of_ascii c in (Nat.leb 48 n && Nat.leb n 57)%bool.

(** The longest run of digits a string starts with, and what follows. *)
Fixpoint digits_prefix (s : string) : string * string :=
  match s with
  | EmptyString => (EmptyString, EmptyString)
  | String c s' =>
      if is_digit c then
        let '(ds, rest) := digits_prefix s' in (String c ds, rest)
      else (EmptyString, s)
  end.

(** [re.search(r"\d+[\.,]?\d*", text)]: the leftmost match, cut into the
    digits before the separator, the separator (a dot, a comma or
    nothing) and the digits after it. Every part of the pattern is greedy
    and nothing follows it, so the first digit of the text starts the
    match and each part takes all it can. *)
Fixpoint search_number (text : string) : option (string * string * string) :=
  match text with
  | EmptyString => None
  | String c rest =>
      if is_digit c then
        let '(whole, after) := digits_prefix text in
        match after with
        | String sep after' =>
            if (Ascii.eqb sep "." || Ascii.eqb sep ",")%bool then
              let '(frac, _) := digits_prefix after' in
              Some (whole, String sep EmptyString, frac)
            else Some (whole, EmptyString, EmptyString)
        | EmptyString => Some (whole, EmptyString, EmptyString)
        end
      else search_number rest
  end.

(** The number a string of digits writes, the empty string counting 0. *)
Fixpoint digits_value (acc : Z) (ds : string) : Z :=
  match ds with
  | EmptyString => acc
  | String c ds' => digits_value (10 * acc + (Z.of_nat (nat_of_ascii c) - 48)) ds'
  end.

(** [float(match.group().replace(",", ""))]: a comma is dropped, so that
    the digits on both sides of it make one integer; a dot is the decimal
    point. [None] is the [None] the function returns without a match. *)
Definition extract_numeric_value (text : string) : option Q :=
  match search_number text with
  | None => None
  | Some (whole, sep, frac) =>
      if String.eqb sep "." then
        Some (inject_Z (digits_value 0 whole)
              + inject_Z (digits_value 0 frac) / inject_Z (10 ^ Z.of_nat (String.length frac)))%Q
      else Some (inject_Z (digits_value 0 (whole +:+ frac)))
  end.

(** Every character of [s] is a digit; none is. *)
Fixpoint all_digits (s : string) : bool :=
  match s with
  | EmptyString => true
  | String c s' => is_digit c && all_digits s'
  end.

Fixpoint no_digit (s : string) : bool :=
  match s with
  | EmptyString => true
  | String c s' => negb (is_digit c) && no_digit s'
  end.

(** [s] does not start with a digit. *)
Definition stops_digits (s : string) : bool :=
  match s with
  | EmptyString => true
  | String c _ => negb (is_digit c)
  end.

(** ** Cumulative trend ([ml.py], [balance_trend]) *)

(** [series.cumsum()]: the running sums, the first being the first value
    itself. *)
Fixpoint cumsum_from (acc : Q) (l : list Q) : list Q :=
  match l with
  | [] => []
  | x :: l' => (acc + x)%Q :: cumsum_from (acc + x)%Q l'
  end.

Definition cumsum (l : list Q) : list Q :=
  match l with
  | [] => []
  | x :: l' => x :: cumsum_from x l'
  end.

Section BalanceTrend.
(** [data.sort_values("date")]: pandas sorts with an algorithm that need
    not keep rows of one date in their order, so the sort is whichever
    function the library provides. *)
Variable sort_values : list (expense Z) -> list (expense Z).

(** The frame of the columns [date] and [cumulative]. *)
Definition balance_trend (data : list (expense Z)) : list (Z * Q) :=
  let data := sort_values data in
  let cumulative := cumsum (map amount data) in
  combine (map date data) cumulative.

End BalanceTrend.

(** A sort by date to run the examples with: insertion from the right. *)
Fixpoint insert_by_date (row : expense Z) (sorted : list (expense Z))
  : list (expense Z) :=
  match sorted with
  | [] => [row]
  | r :: rest =>
      if date row <=? date r then row :: sorted
      else r :: insert_by_date row rest
  end.

Definition insertion_sort (df : list (expense Z)) : list (expense Z) :=
  fold_right insert_by_date [] df.

(** ** Insight summary ([ml.py], [smart_expense_insights]) *)

(** Sorting of index labels: pandas lists the groups of a [groupby] by
    ascending key. *)
Fixpoint insert_label (c : string) (sorted : list string) : list string :=
  match sorted with
  | [] => [c]
  | c' :: rest =>
      if String.leb c c' then c :: sorted else c' :: insert_label c rest
  end.

Definition sort_labels (labels : list string) : list string :=
  fold_right insert_label [] labels.

(** [data.groupby("category")["amount"].sum()]: one entry for each
    category present, by ascending category. *)
Definition category_sums {D : Type} (data : list (expense D)) : list (string * Q) :=
  map (fun cat =>
         (cat, Qsum (map amount
                       (List.filter (fun row => String.eqb (category row) cat) data))))
      (sort_labels (remove_dups (map category data))).

(** [series.idxmax()]: the label of the first entry that holds the
    maximum. *)
Fixpoint idxmax_from (best : string * Q) (entries : list (string * Q)) : string * Q :=
  match entries with
  | [] => best
  | entry :: rest =>
      if Qlt_bool (snd best) (snd entry) then idxmax_from entry rest
      else idxmax_from best rest
  end.

Definition idxmax (entries : list (string * Q)) : option string :=
  match entries with
  | [] => None
  | entry :: rest => Some (fst (idxmax_from entry rest))
  end.

(** The sentence for an empty frame, or the three figures the f-string
    of the summary is built from. *)
Inductive insights : Type :=
| NoInsights (text : string)
| Summary (total : Q) (top_cat : string) (avg_monthly : Q).

Section Insights.
Context `{Library}.

Definition smart_expense_insights (data : list (expense cell)) : insights :=
  match data with
  | [] => NoInsights "No data available."
  | _ =>
      let total := Qsum (map amount data) in
      let cat_sums := category_sums data in
      let top_cat := match idxmax cat_sums with
                     | Some cat => cat
                     | None => "N/A"
                     end in
      let data := parse_dates data in
      let monthly := resample_sum Month data in
      let avg_monthly := match monthly with
                         | [] => 0%Q
                         | _ => Qmean (map snd monthly)
                         end in
      Summary total top_cat avg_monthly
  end.

End Insights.

(** ** Monthly totals by category *)

(** The total a resampled frame lists under the label [label], 0 when it
    does not list the label. *)
Definition total_at (label : Z) (rows : list (Z * Q)) : Q :=
  Qsum (map snd (List.filter (fun row => fst row =? label) rows)).

(** ** The record store ([database.py])

    The [expenses] table of a connection that works: its rows by
    ascending [id], as a full scan lists them, and the counter SQLite
    keeps in [sqlite_sequence] for an [AUTOINCREMENT] key, the largest
    [id] ever given. A [date] is stored as the text it came as. *)

(** [round(x, ndigits)]: to the nearest multiple of [10 ^ -ndigits], a
    tie to the even one. *)
Definition round_digits (x : Q) (ndigits : nat) : Q :=
  (inject_Z (round_half_even (x * inject_Z (10 ^ Z.of_nat ndigits)))
   / inject_Z (10 ^ Z.of_nat ndigits))%Q.

Definition convert_to_inr (amount : Q) : Q :=
  let conversion_rate := 1%Q in
  round_digits (amount * conversion_rate) 2.

Record stored : Type := Stored {
  columns : expense cell;
  receipt_path : string;
  tags : string
}.

Record Database : Type := Connection {
  expenses : list stored;
  sqlite_sequence : Z
}.

(** A database file that did not exist before [sqlite3.connect]. *)
Definition created : Database := Connection [] 0.

(** The key of the next row of an [INTEGER PRIMARY KEY AUTOINCREMENT]
    column: one more than the largest key in the table and the largest
    ever given. *)
Definition next_rowid (db : Database) : Z :=
  Z.max (fold_right Z.max 0 (map (fun row => id (columns row)) (expenses db)))
        (sqlite_sequence db) + 1.

Definition insert_expense (date : string) (amount : Q)
    (category description receipt_path tags : string) (db : Database)
  : bool * Database :=
  let amount_in_inr := convert_to_inr amount in
  let rowid := next_rowid db in
  (true,
   Connection
     (expenses db
      ++ [Stored (Expense rowid (Text date) amount_in_inr category description)
                 receipt_path tags])%list
     rowid).

Definition get_expenses (db : Database) : list (expense cell) :=
  map (fun row =>
         let expense := columns row in
         Expense (id expense) (date expense) (convert_to_inr (amount expense))
                 (category expense) (description expense))
      (expenses db).

Definition delete_expense (expense_id : Z) (db : Database) : bool * Database :=
  (true,
   Connection
     (List.filter (fun row => negb (id (columns row) =? expense_id)) (expenses db))
     (sqlite_sequence db)).

Definition update_expense (expense_id : Z) (date : string) (amount : Q)
    (category description : string) (db : Database) : bool * Database :=
  let amount_in_inr := convert_to_inr amount in
  (true,
   Connection
     (map (fun row =>
             if id (columns row) =? expense_id
             then Stored (Expense expense_id (Text date) amount_in_inr
                                  category description)
                         (receipt_path row) (tags row)
             else row)
          (expenses db))
     (sqlite_sequence db)).

(** The calls that change the table, and a sequence of them on one
    connection. *)
Inductive call : Type :=
| InsertExpense (date : string) (amount : Q)
                (category description receipt_path tags : string)
| DeleteExpense (expense_id : Z)
| UpdateExpense (expense_id : Z) (date : string) (amount : Q)
                (category description : string).

Definition run (db : Database) (c : call) : Database :=
  match c with
  | InsertExpense date amount category description receipt_path tags =>
      snd (insert_expense date amount category description receipt_path tags db)
  | DeleteExpense expense_id => snd (delete_expense expense_id db)
  | UpdateExpense expense_id date amount category description =>
      snd (update_expense expense_id date amount category description db)
  end.

Definition run_all (calls : list call) (db : Database) : Database :=
  fold_left run calls db.

(** What every table the calls produce satisfies: the keys ascend, and
    none is larger than the counter. *)
Definition consistent (db : Database) : Prop :=
  StronglySorted Z.lt (map (fun row => id (columns row)) (expenses db))
  /\ Forall (fun i => 1 <= i <= sqlite_sequence db)
            (map (fun row => id (columns row)) (expenses db)).

(** ** Receipt details ([receipt_capture.py], [process_receipt])

    What the function reads off the text the OCR returned for the
    entries "date" and "category" of its result; [None] is a key the
    result does not have. *)

(** The two atoms of the date patterns: [\d] and the hyphen. *)
Inductive atom : Type := Digit | Hyphen.

Definition accepts (a : atom) (c : ascii) : bool :=
  match a with
  | Digit => is_digit c
  | Hyphen => Ascii.eqb c "-"
  end.

(** A match of a sequence of atoms at the start of the text. *)
Fixpoint match_here (pattern : list atom) (text : string) : option string :=
  match pattern with
  | [] => Some EmptyString
  | a :: pattern' =>
      match text with
      | EmptyString => None
      | String c text' =>
          if accepts a c
          then option_map (String c) (match_here pattern' text')
          else None
      end
  end.

(** [re.search(pattern, text)]: the match at the leftmost position that
    has one. *)
Fixpoint re_search (pattern : list atom) (text : string) : option string :=
  match match_here pattern text with
  | Some m => Some m
  | None =>
      match text with
      | EmptyString => None
      | String _ text' => re_search pattern text'
      end
  end.

(** [\d{4}-\d{2}-\d{2}] and [\d{2}-\d{2}-\d{4}]. *)
Definition date_pattern : list atom :=
  [Digit; Digit; Digit; Digit; Hyphen; Digit; Digit; Hyphen; Digit; Digit].

Definition date_pattern_alt : list atom :=
  [Digit; Digit; Hyphen; Digit; Digit; Hyphen; Digit; Digit; Digit; Digit].

Definition receipt_date (text : string) : option string :=
  match re_search date_pattern text with
  | Some m => Some m
  | None => re_search date_pattern_alt text
  end.

(** [lines] is empty exactly when the text holds white space only. *)
Definition receipt_category (text : string) : option string :=
  if Py.blank text then None
  else
    let lower_text := Py.lower text in
    if Py.any (fun keyword => Py.contains keyword lower_text)
              ["restaurant"; "cafe"; "lunch"; "dinner"; "meal"]
    then Some "Food"
    else if Py.any (fun keyword => Py.contains keyword lower_text)
                   ["grocery"; "supermarket"; "mart"]
    then Some "Shopping"
    else if Py.any (fun keyword => Py.contains keyword lower_text)
                   ["uber"; "taxi"; "bus"; "train"; "transport"]
    then Some "Transport"
    else Some "Other".
(** * Properties *)

(** ** Substring test *)

Lemma prefix_iff (k s : string) :
  String.prefix k s = true <-> exists post, s = k +:+ post.
Proof.
  revert s. induction k as [|a k IH]; intros s; simpl.
  - split; [intros _; now exists s | now destruct s].
  - destruct s as [|b s].
    + split; [discriminate | intros [post H]; discriminate].
    + simpl. destruct (Ascii.ascii_dec a b) as [->|Hne].
      * rewrite IH. split; intros [post H]; exists post.
        -- now rewrite H.
        -- now injection H.
      * split; [discriminate | intros [post H]; injection H; congruence].
Qed.

Lemma contains_iff (k s : string) :
  Py.contains k s = true <-> occurs k s.
Proof.
  induction s as [|b s IH]; cbn [Py.contains].
  - rewrite orb_false_r, prefix_iff. split.
    + intros [post H]. now exists "", post.
    + intros [[|c pre] [post H]]; [now exists post | discriminate].
  - rewrite orb_true_iff, prefix_iff, IH. split.
    + intros [[post H] | [pre [post H]]].
      * now exists "", post.
      * exists (String b pre), post. simpl. now rewrite H.
    + intros [[|c pre] [post H]].
      * left. now exists post.
      * right. injection H as _ H. now exists pre, post.
Qed.

Lemma any_contains_iff (keywords : list string) (s : string) :
  Py.any (fun keyword => Py.contains keyword s) keywords = true
  <-> exists k, In k keywords /\ occurs k s.
Proof.
  unfold Py.any. rewrite existsb_exists.
  split; intros [k [Hin H]]; exists k; split; auto; now apply contains_iff.
Qed.

(** ** The categorisation loop *)

Lemma categorize_loop_first items s :
  forall (i : nat) c kws,
    nth_error items i = Some (c, kws) ->
    (exists k, In k kws /\ occurs k s) ->
    (forall (j : nat) c' kws', (j < i)%nat -> nth_error items j = Some (c', kws') ->
       ~ exists k, In k kws' /\ occurs k s) ->
    categorize_loop items s = c.
Proof.
  induction items as [|[c0 kws0] rest IH]; intros i c kws Hi Hhit Hbefore.
  - destruct i; discriminate.
  - cbn [categorize_loop].
    destruct (Py.any _ kws0) eqn:E.
    + destruct i as [|i]; [now injection Hi|].
      apply any_contains_iff in E.
      exfalso. apply (Hbefore 0%nat c0 kws0); [lia | reflexivity | exact E].
    + destruct i as [|i].
      * injection Hi as -> ->. apply any_contains_iff in Hhit. congruence.
      * apply (IH i c kws Hi Hhit).
        intros j c' kws' Hj. apply (Hbefore (S j)). lia.
Qed.

Lemma categorize_loop_none items s :
  (forall c kws, In (c, kws) items -> ~ exists k, In k kws /\ occurs k s) ->
  categorize_loop items s = "Other".
Proof.
  induction items as [|[c0 kws0] rest IH]; intros Hno; [reflexivity|].
  cbn [categorize_loop].
  destruct (Py.any _ kws0) eqn:E.
  - apply any_contains_iff in E. exfalso. apply (Hno c0 kws0); [now left | exact E].
  - apply IH. intros c kws Hin. apply (Hno c kws). now right.
Qed.

Lemma categorize_loop_member items s :
  In (categorize_loop items s) (map fst items ++ ["Other"]).
Proof.
  induction items as [|[c0 kws0] rest IH]; cbn [categorize_loop map fst app].
  - now left.
  - destruct (Py.any _ kws0); [now left | now right].
Qed.

Lemma assoc_functional {A B} (l : list (A * B)) a b1 b2 :
  List.NoDup (map fst l) -> In (a, b1) l -> In (a, b2) l -> b1 = b2.
Proof.
  induction l as [|[a0 b0] l IH]; intros Hnd H1 H2; [contradiction|].
  cbn [map fst] in Hnd. apply List.NoDup_cons_iff in Hnd as [Hnotin Hnd].
  destruct H1 as [H1|H1], H2 as [H2|H2].
  - congruence.
  - injection H1 as -> ->. exfalso. apply Hnotin.
    change a with (fst (a, b2)). now apply in_map.
  - injection H2 as -> ->. exfalso. apply Hnotin.
    change a with (fst (a, b1)). now apply in_map.
  - now apply IH.
Qed.

Lemma CATEGORY_KEYWORDS_keys : map fst CATEGORY_KEYWORDS = ENUMERATION.
Proof. reflexivity. Qed.

Lemma CATEGORY_KEYWORDS_NoDup : List.NoDup (map fst CATEGORY_KEYWORDS).
Proof.
  rewrite CATEGORY_KEYWORDS_keys. unfold ENUMERATION.
  repeat (apply List.NoDup_cons; [cbn [In]; intuition discriminate|]).
  apply List.NoDup_nil.
Qed.

(** ** Blank descriptions hold no keyword *)

Lemma is_space_lower_char (c : ascii) :
  Py.is_space (Py.lower_char c) = Py.is_space c.
Proof. destruct c as [[] [] [] [] [] [] [] []]; reflexivity. Qed.

Lemma blank_lower (s : string) : Py.blank (Py.lower s) = Py.blank s.
Proof.
  induction s as [|c s IH]; [reflexivity|].
  cbn [Py.lower Py.blank]. now rewrite is_space_lower_char, IH.
Qed.

Lemma blank_append (a b : string) :
  Py.blank (a +:+ b) = (Py.blank a && Py.blank b)%bool.
Proof.
  induction a as [|c a IH]; [reflexivity|].
  simpl. now rewrite IH, andb_assoc.
Qed.

Lemma blank_occurs (k s : string) :
  occurs k s -> Py.blank s = true -> Py.blank k = true.
Proof.
  intros [pre [post ->]]. rewrite !blank_append, !andb_true_iff. tauto.
Qed.

Lemma keywords_not_blank :
  forallb (fun item : string * list string =>
             forallb (fun k => negb (Py.blank k)) (snd item))
          CATEGORY_KEYWORDS = true.
Proof. reflexivity. Qed.

Lemma blank_triggers_nothing (s c : string) :
  Py.blank s = true -> ~ triggers c s.
Proof.
  intros Hb [kws [k [Hin [Hk Hsub]]]].
  pose proof keywords_not_blank as H.
  rewrite forallb_forall in H. specialize (H _ Hin). cbn [snd] in H.
  rewrite forallb_forall in H. specialize (H _ Hk).
  rewrite (blank_occurs k s Hsub Hb) in H. discriminate.
Qed.

(** C1. The keyword categoriser lower-cases the description and answers
    with the first category, in the order Food, Transport, Housing,
    Utilities, Entertainment, Healthcare, Education, Shopping, Insurance,
    one of whose keywords occurs in the lower-cased text; an empty or blank
    description, and one with no keyword at all, gives Other; the answer
    always lies in the closed category set. *)
Theorem keyword_categorizer_first_match (description : string) :
  let lower_desc := Py.lower description in
  let answer := advanced_categorize_expense description in
  In answer CATEGORIES
  /\ (Py.blank description = true -> answer = "Other")
  /\ (forall (i : nat) c,
        nth_error ENUMERATION i = Some c ->
        triggers c lower_desc ->
        (forall (j : nat) c', (j < i)%nat -> nth_error ENUMERATION j = Some c' ->
           ~ triggers c' lower_desc) ->
        answer = c)
  /\ ((forall c, ~ triggers c lower_desc) -> answer = "Other").
Proof.
  intros lower_desc answer.
  assert (Hloop : description <> "" ->
                  answer = categorize_loop CATEGORY_KEYWORDS lower_desc).
  { subst answer lower_desc. destruct description; [congruence | reflexivity]. }
  assert (Hnone : (forall c, ~ triggers c lower_desc) -> answer = "Other").
  { intros Hno. destruct description as [|a d] eqn:Ed; [reflexivity|].
    rewrite Hloop by discriminate.
    apply categorize_loop_none. intros c kws Hin [k [Hk Hsub]].
    apply (Hno c). now exists kws, k. }
  repeat split.
  - destruct description as [|a d] eqn:Ed.
    + subst answer. cbn. tauto.
    + rewrite Hloop by discriminate. unfold CATEGORIES.
      rewrite <- CATEGORY_KEYWORDS_keys. apply categorize_loop_member.
  - intros Hb. apply Hnone. intros c.
    apply blank_triggers_nothing. subst lower_desc. now rewrite blank_lower.
  - intros i c Hi [kws [k [Hin [Hk Hsub]]]] Hbefore.
    destruct description as [|a d] eqn:Ed.
    + exfalso. apply (blank_triggers_nothing lower_desc c); [reflexivity|].
      now exists kws, k.
    + rewrite Hloop by discriminate.
      rewrite <- CATEGORY_KEYWORDS_keys in Hi.
      rewrite nth_error_map in Hi.
      destruct (nth_error CATEGORY_KEYWORDS i) as [[c0 kws0]|] eqn:Ei; [|discriminate].
      injection Hi as ->.
      assert (kws0 = kws) as ->.
      { apply (assoc_functional CATEGORY_KEYWORDS c);
          [apply CATEGORY_KEYWORDS_NoDup | now apply (nth_error_In _ i) | exact Hin]. }
      apply (categorize_loop_first _ _ i c kws Ei); [now exists k|].
      intros j c' kws' Hj Ej [k' [Hk' Hsub']].
      apply (Hbefore j c' Hj).
      * rewrite <- CATEGORY_KEYWORDS_keys, nth_error_map, Ej. reflexivity.
      * exists kws', k'. split; [now apply (nth_error_In _ j)|]. now split.
  - exact Hnone.
Qed.

Lemma triggersb_iff (c s : string) : triggersb c s = true <-> triggers c s.
Proof.
  unfold triggersb, triggers. rewrite existsb_exists. split.
  - intros [[c0 kws] [Hin H]]. cbn [fst snd] in H.
    apply andb_true_iff in H as [Hc H]. apply String.eqb_eq in Hc as ->.
    apply any_contains_iff in H as [k [Hk Hsub]]. now exists kws, k.
  - intros [kws [k [Hin [Hk Hsub]]]]. exists (c, kws). split; [exact Hin|].
    cbn [fst snd]. rewrite String.eqb_refl. cbn [andb].
    apply any_contains_iff. now exists k.
Qed.

Lemma keyword_categorizer_first_match_witness :
  advanced_categorize_expense "Uber ride to the airport" = "Transport".
Proof.
  refine (proj1 (proj2 (proj2
            (keyword_categorizer_first_match "Uber ride to the airport")))
            1%nat "Transport" _ _ _).
  - reflexivity.
  - apply triggersb_iff. reflexivity.
  - intros j c' Hj Hc'. destruct j as [|j]; [|lia].
    injection Hc' as <-. intros H. apply triggersb_iff in H. discriminate H.
Defined.

(** ** Calendar arithmetic *)

Module CalendarFacts.
Import Calendar.

Lemma all_from_spec (check : Z -> bool) (n : nat) :
  forall z, all_from check z n = true ->
  forall i, z <= i < z + Z.of_nat n -> check i = true.
Proof.
  induction n as [|n IH]; intros z H i Hi; [lia|].
  cbn [all_from] in H. destruct (check z) eqn:E; [|discriminate].
  destruct (Z.eq_dec i z) as [->|Hne]; [exact E|].
  apply (IH (z + 1) H). lia.
Qed.

Lemma civil_of_doe_era : all_from civil_of_doe_ok 0 (Z.to_nat 146097) = true.
Proof. vm_cast_no_check (eq_refl true). Qed.

Lemma is_leap_shift (y e : Z) : is_leap (y + 400 * e) = is_leap y.
Proof.
  unfold is_leap.
  replace ((y + 400 * e) mod 4) with (y mod 4)
    by (replace (y + 400 * e) with (y + (100 * e) * 4) by ring;
        now rewrite Z_mod_plus_full).
  replace ((y + 400 * e) mod 100) with (y mod 100)
    by (replace (y + 400 * e) with (y + (4 * e) * 100) by ring;
        now rewrite Z_mod_plus_full).
  replace ((y + 400 * e) mod 400) with (y mod 400)
    by (replace (y + 400 * e) with (y + e * 400) by ring;
        now rewrite Z_mod_plus_full).
  reflexivity.
Qed.

Lemma days_in_month_shift (y e m : Z) :
  days_in_month (y + 400 * e) m = days_in_month y m.
Proof. unfold days_in_month. now rewrite is_leap_shift. Qed.

Lemma days_before_year_shift (y e : Z) :
  days_before_year (y + 400 * e) = days_before_year y + 146097 * e.
Proof.
  unfold days_before_year. cbv zeta.
  replace (y + 400 * e) with (y + e * 400) by ring.
  rewrite Z_div_plus_full by lia.
  replace (y + e * 400 - (y / 400 + e) * 400) with (y - y / 400 * 400) by ring.
  ring.
Qed.

Lemma days_from_civil_shift (y e m d : Z) :
  days_from_civil (y + 400 * e) m d = days_from_civil y m d + 146097 * e.
Proof.
  unfold days_from_civil. cbv zeta.
  replace (if m <=? 2 then y + 400 * e - 1 else y + 400 * e)
    with ((if m <=? 2 then y - 1 else y) + 400 * e)
    by (destruct (m <=? 2); ring).
  rewrite days_before_year_shift. ring.
Qed.

Lemma days_from_civil_day (y m d : Z) :
  days_from_civil y m d = days_from_civil y m 1 + (d - 1).
Proof. unfold days_from_civil. ring. Qed.

(** The civil date computed from a day number exists and is the date of
    that day. *)
Lemma civil_from_days_spec (z : Z) :
  let '(y, m, d) := civil_from_days z in
  valid_date y m d = true /\ days_from_civil y m d = z.
Proof.
  unfold civil_from_days.
  pose proof (Z.mod_pos_bound (z + 719468) 146097 ltac:(lia)) as Hdoe.
  pose proof (Z.div_mod (z + 719468) 146097 ltac:(lia)) as Hz.
  set (doe := (z + 719468) mod 146097) in *.
  set (era := (z + 719468) / 146097) in *.
  pose proof (all_from_spec _ _ _ civil_of_doe_era doe) as Hok.
  unfold civil_of_doe_ok in Hok.
  destruct (civil_of_doe doe) as [[y m] d].
  rewrite Z2Nat.id in Hok by lia.
  specialize (Hok ltac:(lia)).
  apply andb_true_iff in Hok as [Hvalid Hday]. apply Z.eqb_eq in Hday.
  split.
  - unfold valid_date in *. now rewrite days_in_month_shift.
  - rewrite days_from_civil_shift. lia.
Qed.

Lemma year_days (y : Z) :
  days_before_year y - days_before_year (y - 1)
  = if is_leap y then 366 else 365.
Proof.
  unfold days_before_year, is_leap. cbv zeta.
  destruct (y mod 4 =? 0) eqn:E4; destruct (y mod 100 =? 0) eqn:E100;
    destruct (y mod 400 =? 0) eqn:E400; cbn [negb andb orb];
    rewrite ?Z.eqb_eq, ?Z.eqb_neq in *;
    Z.div_mod_to_equations; lia.
Qed.

(** Evaluates the month table and the January/February test at a
    literal month. *)
Ltac month_consts :=
  repeat match goal with
    | |- context [days_before_month ?m] =>
        let v := eval vm_compute in (days_before_month m) in
        change (days_before_month m) with v
    | |- context [?m <=? 2] =>
        let v := eval vm_compute in (m <=? 2) in
        change (m <=? 2) with v
    | |- context [?m =? ?c] =>
        let v := eval vm_compute in (m =? c) in
        change (m =? c) with v
    end; cbn [orb].

Lemma next_month_same_year (y m : Z) :
  1 <= m <= 11 ->
  days_from_civil y (m + 1) 1 = days_from_civil y m 1 + days_in_month y m.
Proof.
  intros Hm.
  assert (m = 1 \/ m = 2 \/ m = 3 \/ m = 4 \/ m = 5 \/ m = 6 \/ m = 7
          \/ m = 8 \/ m = 9 \/ m = 10 \/ m = 11) as Hcases by lia.
  pose proof (year_days y) as Hy.
  unfold days_from_civil, days_in_month.
  repeat (destruct Hcases as [-> | Hcases]); [..|subst m];
    month_consts; try (destruct (is_leap y)); lia.
Qed.

Lemma next_month_new_year (y : Z) :
  days_from_civil (y + 1) 1 1 = days_from_civil y 12 1 + days_in_month y 12.
Proof.
  unfold days_from_civil, days_in_month. month_consts.
  replace (y + 1 - 1) with y by ring. lia.
Qed.

Lemma days_in_month_bounds (y m : Z) : 28 <= days_in_month y m <= 31.
Proof.
  unfold days_in_month.
  destruct (m =? 2); [destruct (is_leap y); lia|].
  destruct ((m =? 4) || (m =? 6) || (m =? 9) || (m =? 11)); lia.
Qed.

Lemma month_start_succ (k : Z) :
  month_start (k + 1) = month_start k + days_in_month (k / 12) (k mod 12 + 1).
Proof.
  unfold month_start.
  pose proof (Z.mod_pos_bound k 12 ltac:(lia)) as Hr.
  pose proof (Z.div_mod k 12 ltac:(lia)) as Hk.
  destruct (Z.eq_dec (k mod 12) 11) as [E|E].
  - assert ((k + 1) / 12 = k / 12 + 1 /\ (k + 1) mod 12 = 0) as [-> ->]
      by (Z.div_mod_to_equations; lia).
    rewrite E. apply next_month_new_year.
  - assert ((k + 1) / 12 = k / 12 /\ (k + 1) mod 12 = k mod 12 + 1) as [-> ->]
      by (Z.div_mod_to_equations; lia).
    apply next_month_same_year. lia.
Qed.

Lemma month_start_step (k : Z) : month_start k < month_start (k + 1).
Proof.
  rewrite month_start_succ.
  pose proof (days_in_month_bounds (k / 12) (k mod 12 + 1)). lia.
Qed.

Lemma month_start_lt (k k' : Z) : k < k' -> month_start k < month_start k'.
Proof.
  intros H. replace k' with (k + 1 + (k' - k - 1)) by ring.
  assert (0 <= k' - k - 1) as Hn by lia.
  revert Hn. generalize (k' - k - 1). clear k' H.
  apply natlike_ind.
  - rewrite Z.add_0_r. apply month_start_step.
  - intros n Hn IH. pose proof (month_start_step (k + 1 + n)).
    replace (k + 1 + Z.succ n) with (k + 1 + n + 1) by lia. lia.
Qed.

Lemma month_start_le (k k' : Z) : k <= k' -> month_start k <= month_start k'.
Proof.
  intros H. destruct (Z.eq_dec k k') as [->|Hne]; [lia|].
  pose proof (month_start_lt k k'). lia.
Qed.

Lemma month_end_eq (k : Z) : month_end k = month_start (k + 1) - 1.
Proof. reflexivity. Qed.

Lemma month_end_lt (k k' : Z) : k < k' -> month_end k < month_end k'.
Proof.
  intros H. rewrite !month_end_eq.
  pose proof (month_start_lt (k + 1) (k' + 1)). lia.
Qed.

Lemma month_start_le_end (k : Z) : month_start k <= month_end k.
Proof. rewrite month_end_eq. pose proof (month_start_step k). lia. Qed.

(** A day lies in the month whose ordinal it has. *)
Lemma month_ordinal_bounds (t : Z) :
  month_start (month_ordinal t) <= t <= month_end (month_ordinal t).
Proof.
  rewrite month_end_eq, month_start_succ.
  unfold month_ordinal, month_start.
  pose proof (civil_from_days_spec t) as H.
  destruct (civil_from_days t) as [[y m] d]. destruct H as [Hvalid Hday].
  unfold valid_date in Hvalid. rewrite !andb_true_iff, !Z.leb_le in Hvalid.
  assert ((12 * y + (m - 1)) / 12 = y /\ (12 * y + (m - 1)) mod 12 + 1 = m)
    as [-> ->] by (Z.div_mod_to_equations; lia).
  rewrite days_from_civil_day in Hday. lia.
Qed.

(** ... and in no other month. *)
Lemma month_ordinal_unique (t k : Z) :
  month_start k <= t <= month_end k -> month_ordinal t = k.
Proof.
  intros Hk. pose proof (month_ordinal_bounds t) as HK.
  rewrite month_end_eq in Hk, HK.
  destruct (Z.lt_trichotomy (month_ordinal t) k) as [Hlt | [Heq | Hgt]];
    [exfalso | exact Heq | exfalso].
  - pose proof (month_start_le (month_ordinal t + 1) k). lia.
  - pose proof (month_start_le (k + 1) (month_ordinal t)). lia.
Qed.

Lemma month_ordinal_start (k : Z) : month_ordinal (month_start k) = k.
Proof. apply month_ordinal_unique. pose proof (month_start_le_end k). lia. Qed.

Lemma month_ordinal_end (k : Z) : month_ordinal (month_end k) = k.
Proof. apply month_ordinal_unique. pose proof (month_start_le_end k). lia. Qed.

Lemma month_ordinal_mono (t t' : Z) : t <= t' -> month_ordinal t <= month_ordinal t'.
Proof.
  intros H. pose proof (month_ordinal_bounds t) as Ht.
  pose proof (month_ordinal_bounds t') as Ht'.
  rewrite month_end_eq in Ht, Ht'.
  destruct (Z_le_gt_dec (month_ordinal t) (month_ordinal t')) as [|Hgt]; [assumption|].
  pose proof (month_start_le (month_ordinal t' + 1) (month_ordinal t)). lia.
Qed.

Lemma year_of_month_ordinal (t : Z) : year_of t = month_ordinal t / 12.
Proof.
  unfold year_of, month_ordinal.
  pose proof (civil_from_days_spec t) as H.
  destruct (civil_from_days t) as [[y m] d]. destruct H as [Hvalid _].
  unfold valid_date in Hvalid. rewrite !andb_true_iff, !Z.leb_le in Hvalid.
  Z.div_mod_to_equations; lia.
Qed.

End CalendarFacts.

(** ** Sums of rational columns *)

Lemma Qsum_cons (x : Q) (l : list Q) : (Qsum (x :: l) == x + Qsum l)%Q.
Proof. reflexivity. Qed.

Lemma Qsum_map_plus {A} (f g : A -> Q) (l : list A) :
  (Qsum (map (fun a => f a + g a) l) == Qsum (map f l) + Qsum (map g l))%Q.
Proof.
  induction l as [|a l IH]; cbn [map Qsum fold_right]; [reflexivity|].
  fold (Qsum (map (fun a => (f a + g a)%Q) l)). fold (Qsum (map f l)).
  fold (Qsum (map g l)). rewrite IH. ring.
Qed.

Lemma Qsum_map_ext {A} (f g : A -> Q) (l : list A) :
  (forall a, In a l -> (f a == g a)%Q) ->
  (Qsum (map f l) == Qsum (map g l))%Q.
Proof.
  induction l as [|a l IH]; intros Hfg; cbn [map Qsum fold_right]; [reflexivity|].
  fold (Qsum (map f l)). fold (Qsum (map g l)).
  rewrite IH by (intros; apply Hfg; now right).
  rewrite (Hfg a) by now left. reflexivity.
Qed.

Lemma Qsum_zeros {A} (l : list A) : (Qsum (map (fun _ => 0%Q) l) == 0)%Q.
Proof.
  induction l as [|a l IH]; cbn [map Qsum fold_right]; [reflexivity|].
  fold (Qsum (map (fun _ : A => 0%Q) l)). rewrite IH. ring.
Qed.

Lemma Qlt_bool_iff (x y : Q) : Qlt_bool x y = true <-> (x < y)%Q.
Proof.
  unfold Qlt_bool. rewrite negb_true_iff. split.
  - intros Hb. apply Qnot_le_lt. intros Hle.
    apply Qle_bool_iff in Hle. congruence.
  - intros Hlt. destruct (Qle_bool y x) eqn:E; [|reflexivity].
    apply Qle_bool_iff in E. exfalso. now apply (Qlt_not_le x y).
Qed.

Lemma Qeq_bool_false_iff (x y : Q) : Qeq_bool x y = false <-> ~ (x == y)%Q.
Proof.
  split.
  - intros Hb Heq. apply Qeq_bool_iff in Heq. congruence.
  - intros Hne. destruct (Qeq_bool x y) eqn:E; [|reflexivity].
    apply Qeq_bool_iff in E. contradiction.
Qed.

(** Summing [a] over the one position of a duplicate-free list that holds
    [k0] gives [a]. *)
Lemma Qsum_indicator (range : list Z) (k0 : Z) (a : Q) :
  NoDup range -> k0 ∈ range ->
  (Qsum (map (fun k => if k0 =? k then a else 0) range) == a)%Q.
Proof.
  induction range as [|k range IH]; intros Hnd Hin.
  - now apply elem_of_nil in Hin.
  - apply NoDup_cons in Hnd as [Hk Hnd]. cbn [map Qsum fold_right].
    fold (Qsum (map (fun k => if k0 =? k then a else 0%Q) range)).
    destruct (Z.eqb_spec k0 k) as [->|Hne].
    + rewrite (Qsum_map_ext _ (fun _ => 0%Q)).
      * rewrite Qsum_zeros. ring.
      * intros x Hx. destruct (Z.eqb_spec k x) as [->|]; [|reflexivity].
        exfalso. apply Hk. now apply list_elem_of_In.
    + apply elem_of_cons in Hin as [?|Hin]; [congruence|].
      rewrite (IH Hnd Hin). ring.
Qed.

(** ** Resampling keeps every row *)

Lemma rows_in_cons (g : granularity) (k : Z) (row : expense Z) (df : list (expense Z)) :
  (Qsum (map amount (rows_in g k (row :: df)))
   == (if period_of g (date row) =? k then amount row else 0)
      + Qsum (map amount (rows_in g k df)))%Q.
Proof.
  unfold rows_in, Qsum. cbn [List.filter].
  destruct (period_of g (date row) =? k); cbn [map fold_right]; ring.
Qed.

Lemma bucket_totals_sum (g : granularity) (range : list Z) (df : list (expense Z)) :
  NoDup range ->
  (forall row, In row df -> period_of g (date row) ∈ range) ->
  (Qsum (map (fun k => Qsum (map amount (rows_in g k df))) range)
   == Qsum (map amount df))%Q.
Proof.
  intros Hnd. induction df as [|row df IH]; intros Hin.
  - unfold rows_in. cbn [List.filter map]. apply Qsum_zeros.
  - rewrite (Qsum_map_ext _ (fun k =>
               (if period_of g (date row) =? k then amount row else 0)
               + Qsum (map amount (rows_in g k df)))%Q)
      by (intros; apply rows_in_cons).
    rewrite Qsum_map_plus, Qsum_indicator by (auto; apply Hin; now left).
    rewrite IH by (intros; apply Hin; now right).
    reflexivity.
Qed.

Lemma fold_min_max_bounds (k0 : Z) (ks : list Z) :
  forall k, In k (k0 :: ks) -> fold_right Z.min k0 ks <= k <= fold_right Z.max k0 ks.
Proof.
  induction ks as [|k1 ks IH]; intros k Hk; cbn [fold_right].
  - destruct Hk as [<-|[]]. lia.
  - destruct Hk as [<-|[<-|Hk]].
    + specialize (IH k0 ltac:(now left)). lia.
    + specialize (IH k0 ltac:(now left)). lia.
    + specialize (IH k ltac:(now right)). lia.
Qed.

(** The minimum and the maximum are taken by members of the list. *)
Lemma fold_min_max_attained (k0 : Z) (ks : list Z) :
  In (fold_right Z.min k0 ks) (k0 :: ks) /\ In (fold_right Z.max k0 ks) (k0 :: ks).
Proof.
  induction ks as [|k1 ks [IHmin IHmax]]; cbn [fold_right].
  - split; now left.
  - split.
    + destruct (Z.min_spec k1 (fold_right Z.min k0 ks)) as [[_ ->]|[_ ->]].
      * right. now left.
      * destruct IHmin as [<-|?]; [now left | right; now right].
    + destruct (Z.max_spec k1 (fold_right Z.max k0 ks)) as [[_ ->]|[_ ->]].
      * destruct IHmax as [<-|?]; [now left | right; now right].
      * right. now left.
Qed.

(** The shape of a resampled frame: one row for each period from the first
    to the last period a row of [df] lies in. *)
Lemma resample_sum_shape (g : granularity) (df : list (expense Z)) :
  df <> [] ->
  exists first last,
    first <= last
    /\ (exists row, In row df /\ period_of g (date row) = first)
    /\ (exists row, In row df /\ period_of g (date row) = last)
    /\ (forall row, In row df -> first <= period_of g (date row) <= last)
    /\ resample_sum g df
       = map (fun k => (period_end g k, Qsum (map amount (rows_in g k df))))
             (seqZ first (last - first + 1)).
Proof.
  intros Hne. unfold resample_sum.
  destruct df as [|row0 df]; [congruence|]. cbn [map].
  set (k0 := period_of g (date row0)).
  set (ks := map (fun row => period_of g (date row)) df).
  pose proof (fold_min_max_bounds k0 ks) as Hb.
  pose proof (fold_min_max_attained k0 ks) as [Hmin Hmax].
  assert (Hkeys : forall k, In k (k0 :: ks) <->
                    exists row, In row (row0 :: df) /\ period_of g (date row) = k).
  { intros k. change (k0 :: ks) with (map (fun row => period_of g (date row)) (row0 :: df)).
    rewrite in_map_iff. split; intros [row [? ?]]; exists row; tauto. }
  exists (fold_right Z.min k0 ks), (fold_right Z.max k0 ks).
  split; [specialize (Hb k0 ltac:(now left)); lia|].
  split; [now apply Hkeys|]. split; [now apply Hkeys|].
  split; [|reflexivity].
  intros row Hrow. apply Hb. apply Hkeys. now exists row.
Qed.

Lemma resample_sum_total (g : granularity) (df : list (expense Z)) :
  (Qsum (map snd (resample_sum g df)) == Qsum (map amount df))%Q.
Proof.
  destruct df as [|row0 df0] eqn:E; [reflexivity|]. rewrite <- E.
  destruct (resample_sum_shape g df) as (first & last & Hle & _ & _ & Hin & ->);
    [congruence|].
  rewrite map_map. cbn [snd].
  apply bucket_totals_sum; [apply NoDup_seqZ|].
  intros row Hrow. apply elem_of_seqZ. specialize (Hin row Hrow). lia.
Qed.

(** ** Periods *)

Lemma period_of_end (g : granularity) (k : Z) : period_of g (period_end g k) = k.
Proof.
  destruct g; cbn [period_of period_end].
  - Z.div_mod_to_equations; lia.
  - apply CalendarFacts.month_ordinal_end.
  - rewrite CalendarFacts.year_of_month_ordinal, CalendarFacts.month_ordinal_end.
    Z.div_mod_to_equations; lia.
Qed.

Lemma period_end_lt (g : granularity) (k k' : Z) :
  k < k' -> period_end g k < period_end g k'.
Proof.
  intros Hk. destruct g; cbn [period_end].
  - lia.
  - now apply CalendarFacts.month_end_lt.
  - apply CalendarFacts.month_end_lt. lia.
Qed.

Lemma period_start_lt (g : granularity) (k k' : Z) :
  k < k' -> period_start g k < period_start g k'.
Proof.
  intros Hk. destruct g; cbn [period_start].
  - lia.
  - now apply CalendarFacts.month_start_lt.
  - apply CalendarFacts.month_start_lt. lia.
Qed.

(** A day lies between the first and the last day of its period. *)
Lemma period_bounds (g : granularity) (t : Z) :
  period_start g (period_of g t) <= t <= period_end g (period_of g t).
Proof.
  destruct g; cbn [period_of period_start period_end].
  - Z.div_mod_to_equations; lia.
  - apply CalendarFacts.month_ordinal_bounds.
  - rewrite CalendarFacts.year_of_month_ordinal.
    pose proof (CalendarFacts.month_ordinal_bounds t) as Ht.
    set (K := Calendar.month_ordinal t) in *.
    pose proof (CalendarFacts.month_start_le (12 * (K / 12)) K
                  ltac:(Z.div_mod_to_equations; lia)).
    pose proof (CalendarFacts.month_start_le (K + 1) (12 * (K / 12) + 11 + 1)
                  ltac:(Z.div_mod_to_equations; lia)).
    rewrite CalendarFacts.month_end_eq in *. lia.
Qed.

Lemma sorted_map_seqZ (f : Z -> Z) (first len : Z) :
  (forall k k', k < k' -> f k < f k') ->
  StronglySorted Z.lt (map f (seqZ first len)).
Proof.
  intros Hf. remember (Z.to_nat len) as n eqn:En.
  revert first len En. induction n as [|n IH]; intros first len En.
  - rewrite seqZ_nil by lia. constructor.
  - rewrite seqZ_cons by lia. cbn [map]. constructor.
    + apply IH. lia.
    + apply List.Forall_forall. intros x Hx.
      apply in_map_iff in Hx as [k [<- Hk]].
      apply list_elem_of_In, elem_of_seqZ in Hk. apply Hf. lia.
Qed.

(** ** Parsing the date column *)

Section ParsingFacts.
Context `{Library}.

Lemma parse_dates_amounts (df : list (expense cell)) :
  map amount (parse_dates df)
  = map amount (List.filter (fun row => parseable (date row)) df).
Proof.
  induction df as [|row df IH]; [reflexivity|].
  cbn [parse_dates List.filter]. unfold parseable.
  destruct (try_parse (date row)); cbn [map amount]; now rewrite IH.
Qed.

Lemma parse_dates_In (df : list (expense cell)) (parsed : expense Z) :
  In parsed (parse_dates df) <->
  exists row, In row df
              /\ try_parse (date row) = Some (date parsed)
              /\ id parsed = id row /\ amount parsed = amount row
              /\ category parsed = category row
              /\ description parsed = description row.
Proof.
  induction df as [|row df IH]; cbn [parse_dates].
  - split; [intros [] | intros [row [[] _]]].
  - destruct (try_parse (date row)) as [t|] eqn:E.
    + cbn [In]. rewrite IH. split.
      * intros [<- | [row' [Hin Hrow']]].
        -- exists row. cbn. tauto.
        -- exists row'. tauto.
      * intros [row' [[-> | Hin] Hrow']].
        -- left. destruct parsed. cbn in *.
           destruct Hrow' as (Ht & -> & -> & -> & ->). congruence.
        -- right. now exists row'.
    + rewrite IH. split.
      * intros [row' [Hin Hrow']]. exists row'. cbn [In]. tauto.
      * intros [row' [[-> | Hin] Hrow']].
        -- destruct Hrow' as [Ht _]. congruence.
        -- now exists row'.
Qed.

Lemma parse_dates_filter_category (cat : string) (df : list (expense cell)) :
  parse_dates (List.filter (fun row => String.eqb (category row) cat) df)
  = List.filter (fun row => String.eqb (category row) cat) (parse_dates df).
Proof.
  induction df as [|row df IH]; [reflexivity|].
  cbn [List.filter parse_dates].
  destruct (String.eqb (category row) cat) eqn:Ec;
    cbn [parse_dates]; destruct (try_parse (date row));
    cbn [List.filter category]; rewrite ?Ec, IH; reflexivity.
Qed.

Lemma parse_dates_as_cells (df : list (expense Z)) :
  parse_dates (as_cells df) = df.
Proof.
  unfold as_cells. induction df as [|[i t a c d] df IH]; [reflexivity|].
  cbn [map parse_dates date try_parse id amount category description].
  now rewrite IH.
Qed.

End ParsingFacts.

(** ** Aggregation *)

(** C2. The totals of [aggregate records granularity] add up to the
    amounts of exactly the records whose date parses, for week, month and
    year alike: the rows [parse_dates] cannot read are the only ones left
    out. This holds of every record set, the empty one included. *)
Theorem aggregate_preserves_total `{Library}
    (records : list (expense cell)) (g : granularity) :
  (Qsum (map snd (aggregate records g))
   == Qsum (map amount (List.filter (fun row => parseable (date row)) records)))%Q.
Proof.
  unfold aggregate. rewrite resample_sum_total, parse_dates_amounts. reflexivity.
Qed.

(** A January and a March expense: the February between them has no
    record, and the monthly aggregate lists it all the same, with total 0.
    The output is therefore not made of the periods holding a record only. *)
Lemma aggregate_lists_empty_period :
  let records := [Expense 1 (Text "2023-01-15") 100%Q "Food" "lunch";
                  Expense 2 (Text "2023-03-02") 300%Q "Housing" "rent"] in
  aggregate (H := Reference.library) records Month
  = [(19388, 100%Q); (19416, 0%Q); (19447, 300%Q)]
  /\ Calendar.civil_from_days 19416 = (2023, 2, 28)
  /\ In (19416, 0%Q) (aggregate (H := Reference.library) records Month)
  /\ ~ exists row,
         In row (parse_dates (H := Reference.library) records)
         /\ period_of Month (date row) = period_of Month 19416.
Proof.
  cbv zeta. split; [vm_compute; reflexivity|]. split; [vm_compute; reflexivity|].
  split; [vm_compute; tauto|].
  intros [row [Hin Hp]].
  change (parse_dates _) with
    [Expense 1 19372 100%Q "Food" "lunch"; Expense 2 19418 300%Q "Housing" "rent"] in Hin.
  destruct Hin as [<- | [<- | []]]; vm_compute in Hp; discriminate.
Qed.

(** C3, as the code has it. The output of [aggregate] is strictly
    ascending by period (by the labels, which are the period ends, and by
    the period starts alike), so no period comes twice; it lists every
    period from the one of the earliest record to the one of the latest,
    and no other; each row carries the sum of the amounts of the records
    of its period, which is the empty sum for a period holding none. *)
Theorem aggregate_sorted_gapless `{Library}
    (records : list (expense cell)) (g : granularity) :
  let df := parse_dates records in
  let out := aggregate records g in
  let periods := map (fun row => period_of g (fst row)) out in
  StronglySorted Z.lt (map fst out)
  /\ StronglySorted Z.lt (map (period_start g) periods)
  /\ List.NoDup periods
  /\ (forall k, In k periods <->
        exists r1 r2, In r1 df /\ In r2 df
                      /\ period_of g (date r1) <= k <= period_of g (date r2))
  /\ (forall label total, In (label, total) out ->
        label = period_end g (period_of g label)
        /\ total = Qsum (map amount (rows_in g (period_of g label) df))).
Proof.
  intros df out periods. subst out periods. unfold aggregate. fold df.
  destruct df as [|row0 df0] eqn:Edf.
  { cbn. repeat split; try constructor; try contradiction.
    intros (r1 & _ & [] & _). }
  rewrite <- Edf.
  destruct (resample_sum_shape g df) as
    (first & last & Hle & (rmin & Hrmin & Hfirst) & (rmax & Hrmax & Hlast) & Hin & ->);
    [congruence|].
  assert (Hperiods :
    map (fun row : Z * Q => period_of g (fst row))
        (map (fun k => (period_end g k, Qsum (map amount (rows_in g k df))))
             (seqZ first (last - first + 1)))
    = seqZ first (last - first + 1)).
  { rewrite map_map. cbn [fst]. erewrite map_ext; [apply map_id|].
    intros k. apply period_of_end. }
  rewrite Hperiods. repeat split.
  - rewrite map_map. cbn [fst]. apply sorted_map_seqZ, period_end_lt.
  - apply sorted_map_seqZ, period_start_lt.
  - apply NoDup_ListNoDup, NoDup_seqZ.
  - intros Hk. apply list_elem_of_In, elem_of_seqZ in Hk.
    exists rmin, rmax. repeat split; auto; lia.
  - intros (r1 & r2 & H1 & H2 & Hk). apply list_elem_of_In, elem_of_seqZ.
    pose proof (Hin r1 H1). pose proof (Hin r2 H2). lia.
  - apply in_map_iff in H0 as [k [Hk _]]. injection Hk as <- _.
    now rewrite period_of_end.
  - apply in_map_iff in H0 as [k [Hk _]]. injection Hk as <- <-.
    now rewrite period_of_end.
Qed.

Lemma aggregate_sorted_gapless_witness :
  let records := [Expense 1 (Text "2023-01-15") 100%Q "Food" "lunch";
                  Expense 2 (Text "2023-03-02") 300%Q "Housing" "rent"] in
  19416 = period_end Month (period_of Month 19416)
  /\ 0%Q = Qsum (map amount (rows_in Month (period_of Month 19416)
                               (parse_dates (H := Reference.library) records))).
Proof.
  cbv zeta.
  apply (aggregate_sorted_gapless (H := Reference.library)
           [Expense 1 (Text "2023-01-15") 100%Q "Food" "lunch";
            Expense 2 (Text "2023-03-02") 300%Q "Housing" "rent"] Month).
  vm_compute. tauto.
Defined.

(** ** Forecasting on no data *)

Lemma resample_sum_nonempty (g : granularity) (df : list (expense Z)) :
  df <> [] -> resample_sum g df <> [].
Proof.
  intros Hne.
  destruct (resample_sum_shape g df Hne) as (first & last & Hle & _ & _ & _ & ->).
  rewrite seqZ_cons by lia. discriminate.
Qed.

Lemma fit_returns (X y : list Q) :
  X <> [] -> exists model, fit X y = Return model.
Proof. destruct X; [congruence|]. intros _. eexists. reflexivity. Qed.

Lemma arange_nonempty (start : Z) (n : nat) : n <> 0%nat -> arange start n <> [].
Proof.
  intros Hn. unfold arange. rewrite seqZ_cons by lia. discriminate.
Qed.

Lemma predict_returns (model : LinearRegression) (X : list Q) :
  X <> [] ->
  predict model X = Return (map (fun x => intercept_ model + coef_ model * x)%Q X).
Proof. destruct X; [congruence|]. reflexivity. Qed.

Lemma show_forecast_returns `{Library} (rows : list (expense cell)) :
  exists shown, show_forecast rows = Return shown.
Proof.
  unfold show_forecast, _get_data.
  destruct rows as [|row rows]; [eexists; reflexivity|].
  destruct (parse_dates (row :: rows)) as [|p df] eqn:Edf; [eexists; reflexivity|].
  unfold forecast_expenses.
  rewrite parse_dates_as_cells. cbn [as_cells map].
  pose proof (resample_sum_nonempty Month (p :: df) ltac:(discriminate)) as Hm.
  destruct (fit_returns (arange 0 (length (resample_sum Month (p :: df))))
              (map snd (resample_sum Month (p :: df)))) as [model ->].
  { apply arange_nonempty. destruct (resample_sum Month (p :: df)); [congruence|].
    discriminate. }
  rewrite predict_returns by (apply arange_nonempty; discriminate).
  match goal with |- context [match ?c with [] => _ | _ :: _ => _ end] =>
    destruct c end; eexists; reflexivity.
Qed.

(** Asked for one period over no record at all, the forecast ends in an
    exception handed to its caller: it returns no value, be it one that
    says "not enough data". *)
Lemma forecast_empty_raises_to_caller :
  forecast_expenses (H := Reference.library) [] 1
  = Raise (ValueError "No data available for forecasting.")
  /\ forall forecast,
       forecast_expenses (H := Reference.library) [] 1 <> Return forecast.
Proof. split; [reflexivity | discriminate]. Qed.

(** C4, as the code has it. Forecasting over no record at all fails, for
    every number of periods asked for, by raising the [ValueError] "No data
    available for forecasting." to its caller, which is the code's
    insufficient-data error; the forecast button tests for an empty frame
    before it calls the forecast, so that it never lets an exception
    through: it always returns, and on an empty store it shows the
    "No Data" notice. *)
Theorem forecast_empty_raises_value_error `{Library} (n : nat) :
  (1 <= n)%nat ->
  forecast_expenses [] n = Raise (ValueError "No data available for forecasting.")
  /\ exn_kind (ValueError "No data available for forecasting.") = Some InsufficientData
  /\ (forall rows, exists shown, show_forecast rows = Return shown)
  /\ show_forecast [] = Return [showinfo "No Data" "No expense data available."].
Proof.
  intros _. repeat split. apply show_forecast_returns.
Qed.

Lemma forecast_empty_raises_value_error_witness :
  forecast_expenses (H := Reference.library) [] 3
  = Raise (ValueError "No data available for forecasting.")
  /\ exists shown, show_forecast (H := Reference.library) [] = Return shown.
Proof.
  destruct (forecast_empty_raises_value_error (H := Reference.library) 3)
    as (Hraise & _ & Hshow & _); [lia|].
  split; [exact Hraise | apply Hshow].
Defined.

(** ** Double precision *)

Lemma pow2_pos (e : Z) : (0 < pow2 e)%Q.
Proof. apply Qpower_0_lt. reflexivity. Qed.

Lemma pow2_plus (a b : Z) : (pow2 (a + b) == pow2 a * pow2 b)%Q.
Proof. apply Qpower_plus. discriminate. Qed.

Lemma pow2_succ (e : Z) : (pow2 (e + 1) == 2 * pow2 e)%Q.
Proof. rewrite pow2_plus. change (pow2 1) with 2%Q. ring. Qed.

Lemma pow2_lt (a b : Z) : a < b -> (pow2 a < pow2 b)%Q.
Proof. intros Hab. apply Qpower_lt_compat_l; [exact Hab|reflexivity]. Qed.

Lemma pow2_le (a b : Z) : a <= b -> (pow2 a <= pow2 b)%Q.
Proof. intros Hab. apply Qpower_le_compat_l; [exact Hab|discriminate]. Qed.

Lemma pow2_Z (n : Z) : 0 <= n -> (pow2 n == inject_Z (2 ^ n))%Q.
Proof. intros Hn. symmetry. apply (Zpower_Qpower 2 n Hn). Qed.

Lemma Qdiv_lt_div (a b c d : Q) :
  (0 < b)%Q -> (0 < d)%Q -> (a * d < c * b)%Q -> (a / b < c / d)%Q.
Proof.
  intros Hb Hd H.
  apply (Qmult_lt_r _ _ (b * d)); [now apply Qmult_lt_0_compat|].
  assert (a / b * (b * d) == a * d)%Q as -> by (field; lra).
  assert (c / d * (b * d) == c * b)%Q as -> by (field; lra).
  exact H.
Qed.

Lemma exponent_unique (x : Q) (e e' : Z) :
  (pow2 e <= x < pow2 (e + 1))%Q -> (pow2 e' <= x < pow2 (e' + 1))%Q -> e = e'.
Proof.
  intros [Hlo Hhi] [Hlo' Hhi'].
  destruct (Z.lt_trichotomy e e') as [Hlt|[Heq|Hgt]]; [|exact Heq|]; exfalso.
  - pose proof (pow2_le (e + 1) e' ltac:(lia)). lra.
  - pose proof (pow2_le (e' + 1) e ltac:(lia)). lra.
Qed.

Lemma ilog2_spec (x : Q) :
  (0 < x)%Q -> (pow2 (ilog2 x) <= x < pow2 (ilog2 x + 1))%Q.
Proof.
  intros Hx. destruct x as [n d].
  assert (0 < n) as Hn by (unfold Qlt in Hx; cbn in Hx; lia).
  unfold ilog2. cbn [Qnum Qden].
  set (a := Z.log2 n). set (b := Z.log2 (Zpos d)).
  pose proof (Z.log2_spec n Hn) as [Ha1 Ha2]. fold a in Ha1, Ha2.
  pose proof (Z.log2_spec (Zpos d) ltac:(lia)) as [Hb1 Hb2]. fold b in Hb1, Hb2.
  pose proof (Z.log2_nonneg n) as Ha0. fold a in Ha0.
  pose proof (Z.log2_nonneg (Zpos d)) as Hb0. fold b in Hb0.
  assert (Hx' : (n # d == inject_Z n / inject_Z (Zpos d))%Q) by apply Qmake_Qdiv.
  assert (HA1 : (pow2 a <= inject_Z n)%Q) by (rewrite pow2_Z by lia; now rewrite <- Zle_Qle).
  assert (HA2 : (inject_Z n < 2 * pow2 a)%Q).
  { rewrite <- pow2_succ, pow2_Z by lia. now rewrite <- Zlt_Qlt. }
  assert (HB1 : (pow2 b <= inject_Z (Zpos d))%Q) by (rewrite pow2_Z by lia; now rewrite <- Zle_Qle).
  assert (HB2 : (inject_Z (Zpos d) < 2 * pow2 b)%Q).
  { rewrite <- pow2_succ, pow2_Z by lia. now rewrite <- Zlt_Qlt. }
  pose proof (pow2_pos a) as HPa. pose proof (pow2_pos b) as HPb.
  assert (HD : (0 < inject_Z (Zpos d))%Q) by lra.
  assert (HN : (0 < inject_Z n)%Q) by lra.
  assert (Hdiff : (pow2 (a - b) == pow2 a / pow2 b)%Q) by (apply Qpower_minus; discriminate).
  assert (Hupper : (n # d < pow2 (a - b + 1))%Q).
  { rewrite Hx', pow2_succ, Hdiff.
    assert (2 * (pow2 a / pow2 b) == (2 * pow2 a) / pow2 b)%Q as -> by (field; lra).
    apply Qdiv_lt_div; [exact HD|exact HPb|].
    set (N := inject_Z n) in *. set (D := inject_Z (Zpos d)) in *.
    set (PA := pow2 a) in *. set (PB := pow2 b) in *. clearbody N D PA PB.
    nra. }
  assert (Hlower : (pow2 (a - b - 1) <= n # d)%Q).
  { apply Qlt_le_weak.
    assert (pow2 (a - b - 1) == pow2 a / (2 * pow2 b))%Q as ->.
    { replace (a - b - 1) with (a - (b + 1)) by lia.
      unfold pow2 at 1. rewrite Qpower_minus by discriminate.
      fold (pow2 a). fold (pow2 (b + 1)). now rewrite pow2_succ. }
    rewrite Hx'. apply Qdiv_lt_div; [lra|exact HD|].
    set (N := inject_Z n) in *. set (D := inject_Z (Zpos d)) in *.
    set (PA := pow2 a) in *. set (PB := pow2 b) in *. clearbody N D PA PB.
    nra. }
  destruct (Qle_bool (pow2 (a - b)) (n # d)) eqn:Etest.
  - apply Qle_bool_iff in Etest. split; assumption.
  - split; [exact Hlower|].
    replace (a - b - 1 + 1) with (a - b) by lia.
    apply Qnot_le_lt. intros Hle. apply Qle_bool_iff in Hle. congruence.
Qed.

Lemma ilog2_unique (x : Q) (e : Z) :
  (pow2 e <= x < pow2 (e + 1))%Q -> ilog2 x = e.
Proof.
  intros Hx. apply (exponent_unique x); [|exact Hx].
  apply ilog2_spec. pose proof (pow2_pos e). lra.
Qed.

Lemma ilog2_comp (x y : Q) : (0 < x)%Q -> (x == y)%Q -> ilog2 x = ilog2 y.
Proof.
  intros Hx Hxy. apply ilog2_unique. rewrite Hxy. apply ilog2_spec. now rewrite <- Hxy.
Qed.

Lemma ilog2_mono (x y : Q) : (0 < x)%Q -> (x <= y)%Q -> ilog2 x <= ilog2 y.
Proof.
  intros Hx Hxy.
  pose proof (ilog2_spec x Hx) as [Hlo _].
  pose proof (ilog2_spec y ltac:(lra)) as [_ Hhi].
  destruct (Z_le_gt_dec (ilog2 x) (ilog2 y)) as [Hle|Hgt]; [exact Hle|exfalso].
  pose proof (pow2_le (ilog2 y + 1) (ilog2 x) ltac:(lia)). lra.
Qed.

(** *** Rounding to the nearest integer *)

Lemma round_half_even_comp (x y : Q) :
  (x == y)%Q -> round_half_even x = round_half_even y.
Proof.
  intros Hxy. unfold round_half_even.
  rewrite (Qfloor_comp x y Hxy).
  assert (Hc : (x - inject_Z (Qfloor y) ?= 1 # 2)%Q
               = (y - inject_Z (Qfloor y) ?= 1 # 2)%Q).
  { apply Qcompare_comp; [now rewrite Hxy|reflexivity]. }
  now rewrite Hc.
Qed.

Lemma round_half_even_Z (z : Z) : round_half_even (inject_Z z) = z.
Proof.
  unfold round_half_even. rewrite Qfloor_Z.
  assert (Hc : (inject_Z z - inject_Z z ?= 1 # 2)%Q = Lt).
  { apply (proj1 (Qlt_alt _ _)). generalize (inject_Z z). intros q. lra. }
  now rewrite Hc.
Qed.

Lemma round_half_even_near (x : Q) :
  (x - (1 # 2) <= inject_Z (round_half_even x) <= x + (1 # 2))%Q.
Proof.
  unfold round_half_even.
  pose proof (Qfloor_le x) as Hlo. pose proof (Qlt_floor x) as Hhi.
  rewrite inject_Z_plus in Hhi. change (inject_Z 1) with 1%Q in Hhi.
  destruct (x - inject_Z (Qfloor x) ?= 1 # 2)%Q eqn:Ec.
  - apply (proj2 (Qeq_alt _ _)) in Ec.
    destruct (Z.even (Qfloor x)); rewrite ?inject_Z_plus;
      change (inject_Z 1) with 1%Q;
      generalize dependent (inject_Z (Qfloor x)); intros f; lra.
  - apply (proj2 (Qlt_alt _ _)) in Ec.
    generalize dependent (inject_Z (Qfloor x)); intros f; lra.
  - apply (proj2 (Qgt_alt _ _)) in Ec. rewrite inject_Z_plus. change (inject_Z 1) with 1%Q.
    generalize dependent (inject_Z (Qfloor x)); intros f; lra.
Qed.

Lemma round_half_even_range (x : Q) :
  Qfloor x <= round_half_even x <= Qfloor x + 1.
Proof.
  unfold round_half_even.
  destruct (x - inject_Z (Qfloor x) ?= 1 # 2)%Q; [destruct (Z.even _)|..]; lia.
Qed.

Lemma round_half_even_mono (x y : Q) :
  (x <= y)%Q -> round_half_even x <= round_half_even y.
Proof.
  intros Hxy. pose proof (Qfloor_resp_le x y Hxy) as Hfloor.
  destruct (Z.eq_dec (Qfloor x) (Qfloor y)) as [Heq|Hne].
  - unfold round_half_even. rewrite <- Heq.
    destruct (x - inject_Z (Qfloor x) ?= 1 # 2)%Q eqn:Ex;
      destruct (y - inject_Z (Qfloor x) ?= 1 # 2)%Q eqn:Ey;
      try (destruct (Z.even (Qfloor x)); lia); try lia; exfalso.
    + apply (proj2 (Qeq_alt _ _)) in Ex. apply (proj2 (Qlt_alt _ _)) in Ey.
      generalize dependent (inject_Z (Qfloor x)); intros f; intros; lra.
    + apply (proj2 (Qgt_alt _ _)) in Ex. apply (proj2 (Qeq_alt _ _)) in Ey.
      generalize dependent (inject_Z (Qfloor x)); intros f; intros; lra.
    + apply (proj2 (Qgt_alt _ _)) in Ex. apply (proj2 (Qlt_alt _ _)) in Ey.
      generalize dependent (inject_Z (Qfloor x)); intros f; intros; lra.
  - pose proof (round_half_even_range x). pose proof (round_half_even_range y). lia.
Qed.

(** *** The nearest double *)

Lemma scaled_range (x : Q) :
  (0 < x)%Q ->
  (inject_Z (2 ^ 52) <= x / pow2 (ilog2 x - 52) < inject_Z (2 ^ 53))%Q.
Proof.
  intros Hx. pose proof (ilog2_spec x Hx) as [Hlo Hhi].
  pose proof (pow2_pos (ilog2 x - 52)) as Hulp.
  assert (He : (pow2 (ilog2 x) == pow2 52 * pow2 (ilog2 x - 52))%Q).
  { rewrite <- pow2_plus. now replace (52 + (ilog2 x - 52)) with (ilog2 x) by lia. }
  assert (He1 : (pow2 (ilog2 x + 1) == pow2 53 * pow2 (ilog2 x - 52))%Q).
  { rewrite <- pow2_plus. now replace (53 + (ilog2 x - 52)) with (ilog2 x + 1) by lia. }
  rewrite <- !pow2_Z by lia. split.
  - apply Qle_shift_div_l; [exact Hulp|]. now rewrite <- He.
  - apply Qlt_shift_div_r; [exact Hulp|]. now rewrite <- He1.
Qed.

Lemma nearest_bounds (x : Q) :
  (0 < x)%Q -> (pow2 (ilog2 x) <= nearest x <= pow2 (ilog2 x + 1))%Q.
Proof.
  intros Hx. pose proof (scaled_range x Hx) as [Hlo Hhi].
  pose proof (pow2_pos (ilog2 x - 52)) as Hulp.
  unfold nearest.
  pose proof (round_half_even_mono _ _ Hlo) as Hk1.
  pose proof (round_half_even_mono _ _ (Qlt_le_weak _ _ Hhi)) as Hk2.
  rewrite round_half_even_Z in Hk1, Hk2.
  assert (He : (pow2 (ilog2 x) == inject_Z (2 ^ 52) * pow2 (ilog2 x - 52))%Q).
  { rewrite <- pow2_Z, <- pow2_plus by lia.
    now replace (52 + (ilog2 x - 52)) with (ilog2 x) by lia. }
  assert (He1 : (pow2 (ilog2 x + 1) == inject_Z (2 ^ 53) * pow2 (ilog2 x - 52))%Q).
  { rewrite <- pow2_Z, <- pow2_plus by lia.
    now replace (53 + (ilog2 x - 52)) with (ilog2 x + 1) by lia. }
  rewrite He, He1. split; apply Qmult_le_compat_r; try lra; now rewrite <- Zle_Qle.
Qed.

Lemma nearest_pos (x : Q) : (0 < x)%Q -> (0 < nearest x)%Q.
Proof.
  intros Hx. pose proof (nearest_bounds x Hx) as [Hlo _].
  pose proof (pow2_pos (ilog2 x)). lra.
Qed.

Lemma nearest_comp (x y : Q) : (0 < x)%Q -> (x == y)%Q -> (nearest x == nearest y)%Q.
Proof.
  intros Hx Hxy. unfold nearest. rewrite (ilog2_comp x y Hx Hxy).
  rewrite (round_half_even_comp (x / pow2 (ilog2 y - 52)) (y / pow2 (ilog2 y - 52)));
    [reflexivity|now rewrite Hxy].
Qed.

Lemma nearest_mono (x y : Q) : (0 < x)%Q -> (x <= y)%Q -> (nearest x <= nearest y)%Q.
Proof.
  intros Hx Hxy. assert (Hy : (0 < y)%Q) by lra.
  pose proof (ilog2_mono x y Hx Hxy) as He.
  destruct (Z.eq_dec (ilog2 x) (ilog2 y)) as [Heq|Hne].
  - unfold nearest. rewrite Heq.
    pose proof (pow2_pos (ilog2 y - 52)) as Hulp.
    apply Qmult_le_compat_r; [|lra]. rewrite <- Zle_Qle.
    apply round_half_even_mono. unfold Qdiv.
    apply Qmult_le_compat_r; [exact Hxy|]. apply Qlt_le_weak. now apply Qinv_lt_0_compat.
  - pose proof (nearest_bounds x Hx) as [_ Hhi].
    pose proof (nearest_bounds y Hy) as [Hlo _].
    pose proof (pow2_le (ilog2 x + 1) (ilog2 y) ltac:(lia)). lra.
Qed.

Lemma nearest_idem (x : Q) : (0 < x)%Q -> (nearest (nearest x) == nearest x)%Q.
Proof.
  intros Hx. pose proof (scaled_range x Hx) as [Hlo Hhi].
  pose proof (pow2_pos (ilog2 x - 52)) as Hulp.
  pose proof (round_half_even_mono _ _ Hlo) as Hk1.
  pose proof (round_half_even_mono _ _ (Qlt_le_weak _ _ Hhi)) as Hk2.
  rewrite round_half_even_Z in Hk1, Hk2.
  set (k := round_half_even (x / pow2 (ilog2 x - 52))) in *.
  assert (Hn : (nearest x == inject_Z k * pow2 (ilog2 x - 52))%Q) by reflexivity.
  assert (He : (pow2 (ilog2 x) == inject_Z (2 ^ 52) * pow2 (ilog2 x - 52))%Q).
  { rewrite <- pow2_Z, <- pow2_plus by lia.
    now replace (52 + (ilog2 x - 52)) with (ilog2 x) by lia. }
  assert (He1 : (pow2 (ilog2 x + 1) == inject_Z (2 ^ 53) * pow2 (ilog2 x - 52))%Q).
  { rewrite <- pow2_Z, <- pow2_plus by lia.
    now replace (53 + (ilog2 x - 52)) with (ilog2 x + 1) by lia. }
  destruct (Z.eq_dec k (2 ^ 53)) as [Hk|Hk].
  - (* the next binade *)
    assert (Hval : (nearest x == pow2 (ilog2 x + 1))%Q) by (rewrite Hn, Hk, He1; reflexivity).
    assert (Hexp : ilog2 (nearest x) = ilog2 x + 1).
    { apply ilog2_unique. rewrite Hval. split; [lra|].
      apply pow2_lt. lia. }
    unfold nearest at 1. rewrite Hexp.
    rewrite (round_half_even_comp _ (inject_Z (2 ^ 52))).
    + rewrite round_half_even_Z, Hval.
      rewrite <- pow2_Z, <- pow2_plus by lia.
      now replace (52 + (ilog2 x + 1 - 52)) with (ilog2 x + 1) by lia.
    + rewrite Hval. rewrite <- pow2_Z by lia.
      pose proof (pow2_pos (ilog2 x + 1 - 52)) as Hulp'.
      assert (pow2 (ilog2 x + 1) == pow2 52 * pow2 (ilog2 x + 1 - 52))%Q as ->.
      { rewrite <- pow2_plus. now replace (52 + (ilog2 x + 1 - 52)) with (ilog2 x + 1) by lia. }
      field. lra.
  - assert (Hexp : ilog2 (nearest x) = ilog2 x).
    { apply ilog2_unique. rewrite Hn, He, He1. split.
      - apply Qmult_le_compat_r; [|lra]. now rewrite <- Zle_Qle.
      - apply Qmult_lt_compat_r; [exact Hulp|]. rewrite <- Zlt_Qlt. lia. }
    unfold nearest at 1. rewrite Hexp.
    rewrite (round_half_even_comp _ (inject_Z k)).
    + now rewrite round_half_even_Z.
    + rewrite Hn. field. lra.
Qed.

Lemma float64_comp (x y : Q) : (x == y)%Q -> (float64 x == float64 y)%Q.
Proof.
  intros Hxy. unfold float64.
  rewrite <- (Qcompare_comp x y Hxy 0%Q 0%Q (Qeq_refl 0%Q)).
  destruct (x ?= 0)%Q eqn:Ec; [reflexivity|..].
  - apply (proj2 (Qlt_alt _ _)) in Ec.
    rewrite (nearest_comp (- x) (- y)); [reflexivity|lra|now rewrite Hxy].
  - apply (proj2 (Qgt_alt _ _)) in Ec. now apply nearest_comp.
Qed.

#[export] Instance float64_proper : Proper (Qeq ==> Qeq) float64.
Proof. intros x y Hxy. now apply float64_comp. Qed.

Lemma float64_0 (x : Q) : (x == 0)%Q -> float64 x = 0%Q.
Proof.
  intros Hx. unfold float64. apply (proj1 (Qeq_alt _ _)) in Hx. now rewrite Hx.
Qed.

Lemma float64_sign (x : Q) :
  ((0 < x)%Q -> (0 < float64 x)%Q) /\ ((x < 0)%Q -> (float64 x < 0)%Q).
Proof.
  unfold float64. split; intros Hx.
  - assert ((x ?= 0)%Q = Gt) as -> by (apply (proj1 (Qgt_alt _ _)); exact Hx).
    now apply nearest_pos.
  - assert ((x ?= 0)%Q = Lt) as -> by (apply (proj1 (Qlt_alt _ _)); exact Hx).
    pose proof (nearest_pos (- x) ltac:(lra)). lra.
Qed.

Lemma float64_nonneg (x : Q) : (0 <= x)%Q -> (0 <= float64 x)%Q.
Proof.
  intros Hx. destruct (Qlt_le_dec 0 x) as [Hpos|Hle].
  - apply Qlt_le_weak. now apply float64_sign.
  - rewrite (float64_0 x); [apply Qle_refl|lra].
Qed.

Lemma float64_mono (x y : Q) : (x <= y)%Q -> (float64 x <= float64 y)%Q.
Proof.
  intros Hxy.
  destruct (Qlt_le_dec 0 x) as [Hx|Hx].
  - unfold float64.
    assert ((x ?= 0)%Q = Gt) as -> by (apply (proj1 (Qgt_alt _ _)); exact Hx).
    assert ((y ?= 0)%Q = Gt) as -> by (apply (proj1 (Qgt_alt _ _)); lra).
    now apply nearest_mono.
  - destruct (Qlt_le_dec y 0) as [Hy|Hy].
    + unfold float64.
      assert ((x ?= 0)%Q = Lt) as -> by (apply (proj1 (Qlt_alt _ _)); lra).
      assert ((y ?= 0)%Q = Lt) as -> by (apply (proj1 (Qlt_alt _ _)); exact Hy).
      pose proof (nearest_mono (- y) (- x) ltac:(lra) ltac:(lra)). lra.
    + apply Qle_trans with 0%Q; [|now apply float64_nonneg].
      destruct (Qlt_le_dec x 0) as [Hneg|Hzero].
      * apply Qlt_le_weak. now apply float64_sign.
      * rewrite (float64_0 x); [apply Qle_refl|lra].
Qed.

Lemma float64_idem (x : Q) : (float64 (float64 x) == float64 x)%Q.
Proof.
  destruct (Qcompare_spec x 0) as [Hz|Hneg|Hpos].
  - rewrite (float64_0 x Hz). reflexivity.
  - pose proof (proj2 (float64_sign x) Hneg) as Hf.
    assert (Hv : (float64 x == - nearest (- x))%Q).
    { unfold float64.
      now assert ((x ?= 0)%Q = Lt) as -> by (apply (proj1 (Qlt_alt _ _)); exact Hneg). }
    unfold float64 at 1.
    assert ((float64 x ?= 0)%Q = Lt) as -> by (apply (proj1 (Qlt_alt _ _)); exact Hf).
    rewrite (nearest_comp (- float64 x) (nearest (- x))); [|lra|rewrite Hv; ring].
    rewrite nearest_idem by lra. now rewrite Hv.
  - pose proof (proj1 (float64_sign x) Hpos) as Hf.
    assert (Hv : (float64 x == nearest x)%Q).
    { unfold float64.
      now assert ((x ?= 0)%Q = Gt) as -> by (apply (proj1 (Qgt_alt _ _)); exact Hpos). }
    unfold float64 at 1.
    assert ((float64 x ?= 0)%Q = Gt) as -> by (apply (proj1 (Qgt_alt _ _)); exact Hf).
    rewrite (nearest_comp (float64 x) (nearest x)); [|exact Hf|exact Hv].
    rewrite nearest_idem by exact Hpos. symmetry. exact Hv.
Qed.

Lemma fsqrt_nonneg (x s : Q) : fsqrt x = Some s -> (0 <= s)%Q.
Proof.
  unfold fsqrt. destruct (x ?= 0)%Q; [intros [= <-]; apply Qle_refl| discriminate |].
  cbv zeta.
  set (ulp := pow2 (ilog2 x / 2 - 52)).
  set (t := (x / (ulp * ulp))%Q).
  set (k := Z.sqrt (Qfloor t)).
  pose proof (Z.sqrt_nonneg (Qfloor t)) as Hk. fold k in Hk.
  pose proof (pow2_pos (ilog2 x / 2 - 52)) as Hulp. fold ulp in Hulp.
  set (k' := match (t ?= _)%Q with Eq => _ | Lt => _ | Gt => _ end).
  assert (Hk' : 0 <= k').
  { subst k'. destruct (t ?= _)%Q; [destruct (Z.even k)|..]; lia. }
  clearbody k' ulp. intros [= <-].
  apply Qmult_le_0_compat; [|apply Qlt_le_weak; exact Hulp].
  change 0%Q with (inject_Z 0). now rewrite <- Zle_Qle.
Qed.

(** ** Anomaly flag on short histories *)








(** C10. With no prior observation, or a single one, nothing is flagged,
    however large the new amount: the standard deviation is undefined and
    the comparison with it is false. *)
Theorem fraud_detection_short_history `{Library} (new_amount : Q) (hist : list Q) :
  (length hist < 2)%nat -> fraud_detection new_amount hist = false.
Proof.
  intros Hlen. destruct hist as [|x [|y hist]]; [reflexivity | reflexivity |].
  cbn [length] in Hlen. lia.
Qed.

Lemma fraud_detection_short_history_witness :
  fraud_detection (H := Reference.library) 1000000 [50]%Q = false
  /\ fraud_detection (H := Reference.library) 1000000 [] = false.
Proof.
  split; apply (fraud_detection_short_history (H := Reference.library)); cbn; lia.
Defined.


(** ** Month-over-month comparison *)


(** The outcome of the comparison by the shape of the monthly totals. *)
Lemma compare_expenses_cases `{Library} (records : list (expense cell)) :
  let totals := map snd (aggregate records Month) in
  ((length totals < 2)%nat
   /\ (compare_expenses records = Message "No data available for comparison."
       \/ compare_expenses records = Message "Not enough data for comparison."))
  \/ exists older previous current,
       totals = (older ++ [previous; current])%list
       /\ (((previous == 0)%Q
            /\ compare_expenses records
               = Message "No expenses in the previous month to compare.")
           \/ (~ (previous == 0)%Q
               /\ compare_expenses records
                  = Report current previous
                      ((current - previous) / previous * 100)%Q
                      (if Qlt_bool ((current - previous) / previous * 100) 0
                       then favourable else review))).
Proof.
  intros totals. subst totals. unfold aggregate, compare_expenses.
  destruct records as [|row records].
  { left. cbn. split; [lia | now left]. }
  set (totals := map snd (resample_sum Month (parse_dates (row :: records)))).
  destruct (rev totals) as [|current [|previous older]] eqn:Erev.
  - left. apply (f_equal (@rev Q)) in Erev. rewrite rev_involutive in Erev.
    rewrite Erev. cbn. split; [lia | now right].
  - left. apply (f_equal (@rev Q)) in Erev. rewrite rev_involutive in Erev.
    rewrite Erev. cbn. split; [lia | now right].
  - right. exists (rev older), previous, current. split.
    + apply (f_equal (@rev Q)) in Erev. rewrite rev_involutive in Erev.
      rewrite Erev. cbn [rev]. now rewrite <- app_assoc.
    + destruct (Qeq_bool previous 0) eqn:Ep.
      * left. apply Qeq_bool_iff in Ep. now split.
      * right. apply Qeq_bool_false_iff in Ep. now split.
Qed.

Lemma last_two_inj {A} (l l' : list A) (p c p' c' : A) :
  (l ++ [p; c] = l' ++ [p'; c'])%list -> l = l' /\ p = p' /\ c = c'.
Proof.
  intros Heq.
  change (l ++ [p; c])%list with (l ++ [p] ++ [c])%list in Heq.
  change (l' ++ [p'; c'])%list with (l' ++ [p'] ++ [c'])%list in Heq.
  rewrite !app_assoc in Heq.
  apply app_inj_tail in Heq as [Heq ->].
  apply app_inj_tail in Heq as [-> ->]. auto.
Qed.



(** ** Budget recommendation *)

Lemma list_to_map_tabulate {V} (f : string -> V) (keys : list string) (k : string) :
  NoDup keys ->
  (list_to_map (map (fun c => (c, f c)) keys) : gmap string V) !! k
  = if decide (k ∈ keys) then Some (f k) else None.
Proof.
  intros Hnd. destruct (decide (k ∈ keys)) as [Hin | Hnotin].
  - apply elem_of_list_to_map.
    + rewrite <- list_fmap_compose. cbn. now rewrite list_fmap_id.
    + apply list_elem_of_fmap. now exists k.
  - apply not_elem_of_list_to_map.
    rewrite <- list_fmap_compose. cbn. now rewrite list_fmap_id.
Qed.

Lemma filter_category_nil (cat : string) (df : list (expense Z)) :
  List.filter (fun row => String.eqb (category row) cat) df = []
  <-> ~ exists row, In row df /\ category row = cat.
Proof.
  split.
  - intros Hnil [row [Hin Hc]].
    assert (In row (List.filter (fun row => String.eqb (category row) cat) df)) as Hf.
    { apply filter_In. split; [exact Hin | now apply String.eqb_eq]. }
    rewrite Hnil in Hf. contradiction.
  - intros Hno.
    destruct (List.filter _ df) as [|row rest] eqn:E; [reflexivity|].
    exfalso. apply Hno. exists row.
    assert (In row (List.filter (fun row => String.eqb (category row) cat) df)) as Hf
      by (rewrite E; now left).
    apply filter_In in Hf as [Hin Hc]. split; [exact Hin | now apply String.eqb_eq].
Qed.

Lemma groups_spec (df : list (expense Z)) (cat : string) :
  cat ∈ groups df <-> exists row, In row df /\ category row = cat.
Proof.
  unfold groups. rewrite elem_of_remove_dups, list_elem_of_In, in_map_iff.
  split; intros [row [? ?]]; exists row; tauto.
Qed.

Lemma resample_sum_nil (g : granularity) (df : list (expense Z)) :
  resample_sum g df = [] <-> df = [].
Proof.
  split; [|now intros ->].
  intros Hnil. destruct df as [|row df]; [reflexivity|].
  exfalso. now apply (resample_sum_nonempty g (row :: df)).
Qed.

Lemma budget_recommendation_table `{Library} (records : list (expense cell)) :
  personalized_budget_recommendation records
  = list_to_map
      (map (fun c =>
              (c, (Qmean (map snd (resample_sum Month
                     (List.filter (fun row => String.eqb (category row) c)
                                  (parse_dates records)))) * (9 # 10))%Q))
           (groups (parse_dates records))).
Proof.
  unfold personalized_budget_recommendation.
  destruct records as [|row rest]; [reflexivity|].
  rewrite map_map. reflexivity.
Qed.

(** C8. The budget recommendation gives every category that has monthly
    aggregates nine tenths of the mean of its monthly totals, and holds no
    entry for a category without monthly data, that is, without a record
    whose date parses; monthly totals 100 and 200 give 135. *)
Theorem budget_recommendation_entries `{Library}
    (records : list (expense cell)) (cat : string) :
  let of_category := List.filter (fun row => String.eqb (category row) cat) records in
  let monthly := map snd (aggregate of_category Month) in
  personalized_budget_recommendation records !! cat
  = match monthly with
    | [] => None
    | _ => Some (Qmean monthly * (9 # 10))%Q
    end
  /\ (monthly = [] <->
        ~ exists row, In row (parse_dates records) /\ category row = cat)
  /\ (Forall2 Qeq monthly [100; 200]%Q ->
        exists budget,
          personalized_budget_recommendation records !! cat = Some budget
          /\ (budget == 135)%Q).
Proof.
  intros of_category monthly.
  assert (Hmonthly : monthly = map snd (resample_sum Month
            (List.filter (fun row => String.eqb (category row) cat)
                         (parse_dates records)))).
  { subst monthly of_category. unfold aggregate.
    now rewrite parse_dates_filter_category. }
  assert (Hnil : monthly = [] <->
            ~ exists row, In row (parse_dates records) /\ category row = cat).
  { rewrite Hmonthly, <- filter_category_nil, <- (resample_sum_nil Month).
    split; [apply map_eq_nil | now intros ->]. }
  assert (Hlookup : personalized_budget_recommendation records !! cat
                    = match monthly with
                      | [] => None
                      | _ => Some (Qmean monthly * (9 # 10))%Q
                      end).
  { rewrite budget_recommendation_table.
    rewrite (list_to_map_tabulate
               (fun c => (Qmean (map snd (resample_sum Month
                  (List.filter (fun row => String.eqb (category row) c)
                               (parse_dates records)))) * (9 # 10))%Q))
      by apply NoDup_remove_dups.
    rewrite <- Hmonthly.
    destruct (decide (cat ∈ groups (parse_dates records))) as [Hin | Hnotin].
    - apply groups_spec in Hin.
      destruct monthly; [|reflexivity]. exfalso. now apply Hnil.
    - rewrite groups_spec in Hnotin. apply Hnil in Hnotin. now rewrite Hnotin. }
  split; [exact Hlookup|]. split; [exact Hnil|].
  intros Hex. rewrite Hlookup. clear Hlookup Hnil Hmonthly. clearbody monthly.
  destruct monthly as [|m1 [|m2 [|? ?]]];
    inversion Hex as [|? ? ? ? H1 Hrest]; subst;
    inversion Hrest as [|? ? ? ? H2 Hnil]; subst; inversion Hnil; subst.
  eexists. split; [reflexivity|].
  unfold Qmean. cbn [Qsum fold_right length]. rewrite H1, H2. reflexivity.
Qed.

Lemma budget_recommendation_entries_witness :
  let records := [Expense 1 (Text "2023-01-15") 100%Q "Food" "dinner";
                  Expense 2 (Text "2023-02-20") 200%Q "Food" "lunch";
                  Expense 3 (Text "2023-02-21") 900%Q "Housing" "rent"] in
  exists budget,
    personalized_budget_recommendation (H := Reference.library) records !! "Food"
    = Some budget
    /\ (budget == 135)%Q.
Proof.
  cbv zeta.
  apply (budget_recommendation_entries (H := Reference.library)).
  vm_compute. repeat constructor.
Defined.

(** ** The fitted line is the least-squares line *)

Lemma Qsquare_nonneg (r : Q) : (0 <= r * r)%Q.
Proof. destruct r as [n d]. unfold Qle. cbn. nia. Qed.

Lemma Qsum_scale {A} (c : Q) (f : A -> Q) (l : list A) :
  (Qsum (map (fun a => c * f a) l) == c * Qsum (map f l))%Q.
Proof.
  induction l as [|a l IH]; cbn [map Qsum fold_right]; [ring|].
  fold (Qsum (map (fun a => (c * f a)%Q) l)). fold (Qsum (map f l)).
  rewrite IH. ring.
Qed.

Lemma Qsum_const {A} (c : Q) (l : list A) :
  (Qsum (map (fun _ => c) l) == inject_Z (Z.of_nat (length l)) * c)%Q.
Proof.
  induction l as [|a l IH]; cbn [map Qsum fold_right length]; [ring|].
  fold (Qsum (map (fun _ : A => c) l)). rewrite IH.
  rewrite Nat2Z.inj_succ. unfold Z.succ. rewrite inject_Z_plus. ring.
Qed.

Lemma Qsum_squares_nonneg {A} (f : A -> Q) (l : list A) :
  (0 <= Qsum (map (fun a => f a * f a) l))%Q.
Proof.
  induction l as [|a l IH]; cbn [map Qsum fold_right]; [discriminate|].
  fold (Qsum (map (fun a => (f a * f a)%Q) l)).
  pose proof (Qsquare_nonneg (f a)). lra.
Qed.

Lemma Qsum_squares_zero {A} (f : A -> Q) (l : list A) :
  (Qsum (map (fun a => f a * f a) l) == 0)%Q ->
  forall a, In a l -> (f a == 0)%Q.
Proof.
  induction l as [|a0 l IH]; intros Hz a Hin; [contradiction|].
  cbn [map Qsum fold_right] in Hz.
  fold (Qsum (map (fun a => (f a * f a)%Q) l)) in Hz.
  pose proof (Qsquare_nonneg (f a0)) as H0.
  pose proof (Qsum_squares_nonneg f l) as Hl.
  destruct Hin as [<- | Hin].
  - assert (f a0 * f a0 == 0)%Q as Hsq by lra. nra.
  - apply IH; [lra | exact Hin].
Qed.

Lemma combine_fst {A B} (X : list A) (y : list B) :
  length X = length y -> map fst (combine X y) = X.
Proof.
  revert y. induction X as [|x X IH]; intros [|b y] Hlen; try discriminate;
    [reflexivity|]. cbn. f_equal. apply IH. now injection Hlen.
Qed.

Lemma combine_snd {A B} (X : list A) (y : list B) :
  length X = length y -> map snd (combine X y) = y.
Proof.
  revert y. induction X as [|x X IH]; intros [|b y] Hlen; try discriminate;
    [reflexivity|]. cbn. f_equal. apply IH. now injection Hlen.
Qed.

Section LeastSquares.
Variable sample : list (Q * Q).
Hypothesis sample_nonempty : sample <> [].

Local Abbreviation size := (inject_Z (Z.of_nat (length sample))).
Local Abbreviation mean_x := (Qmean (map fst sample)).
Local Abbreviation mean_y := (Qmean (map snd sample)).
Local Abbreviation Sxx :=
  (Qsum (map (fun p => (fst p - mean_x) * (fst p - mean_x))%Q sample)).
Local Abbreviation Sxy :=
  (Qsum (map (fun p => (fst p - mean_x) * (snd p - mean_y))%Q sample)).
Local Abbreviation slope := (if Qeq_bool Sxx 0 then 0%Q else (Sxy / Sxx)%Q).
Local Abbreviation offset := (mean_y - slope * mean_x)%Q.

Lemma sample_size_positive : (0 < size)%Q.
Proof.
  destruct sample; [congruence|].
  cbn [length]. rewrite Nat2Z.inj_succ. unfold Qlt. cbn. lia.
Qed.

Lemma sum_x : (Qsum (map fst sample) == size * mean_x)%Q.
Proof.
  pose proof sample_size_positive. unfold Qmean.
  rewrite length_map. field. lra.
Qed.

Lemma sum_y : (Qsum (map snd sample) == size * mean_y)%Q.
Proof.
  pose proof sample_size_positive. unfold Qmean.
  rewrite length_map. field. lra.
Qed.

(** The residuals of the fitted line add up to zero ... *)
Lemma residuals_sum_zero :
  (Qsum (map (fun p => snd p - (offset + slope * fst p)) sample) == 0)%Q.
Proof.
  generalize slope. intros a.
  rewrite (Qsum_map_ext _ (fun p => (snd p + (-1) * ((mean_y - a * mean_x) + a * fst p))%Q))
    by (intros; ring).
  rewrite Qsum_map_plus, Qsum_scale.
  rewrite (Qsum_map_ext (fun p => ((mean_y - a * mean_x) + a * fst p)%Q)
                        (fun p => ((fun _ => (mean_y - a * mean_x)%Q) p + a * fst p)%Q))
    by (intros; ring).
  rewrite Qsum_map_plus, Qsum_scale, Qsum_const.
  rewrite sum_x, sum_y. ring.
Qed.

(** ... and are orthogonal to the feature. *)
Lemma residuals_orthogonal :
  (Qsum (map (fun p => (snd p - (offset + slope * fst p)) * fst p) sample) == 0)%Q.
Proof.
  pose proof residuals_sum_zero as Hsum.
  destruct (Qeq_bool Sxx 0) eqn:E.
  - apply Qeq_bool_iff in E.
    rewrite (Qsum_map_ext _
               (fun p => ((fst p - mean_x) * (snd p - mean_y)
                          + mean_x * (snd p - ((mean_y - 0 * mean_x) + 0 * fst p)))%Q))
      by (intros; ring).
    rewrite Qsum_map_plus, Qsum_scale, Hsum.
    rewrite (Qsum_map_ext _ (fun _ => 0%Q)); [rewrite Qsum_zeros; ring|].
    intros p Hp.
    rewrite (Qsum_squares_zero (fun p => (fst p - mean_x)%Q) sample E p Hp). ring.
  - apply Qeq_bool_false_iff in E.
    rewrite (Qsum_map_ext _
               (fun p => ((fst p - mean_x) * (snd p - mean_y)
                          + ((- (Sxy / Sxx)) * ((fst p - mean_x) * (fst p - mean_x))
                             + mean_x * (snd p - ((mean_y - Sxy / Sxx * mean_x)
                                                  + Sxy / Sxx * fst p))))%Q))
      by (intros; ring).
    rewrite !Qsum_map_plus, !Qsum_scale, Hsum. field. exact E.
Qed.

(** No line has a smaller squared error than the fitted one. *)
Lemma fitted_line_minimal (other : LinearRegression) :
  (squared_error {| coef_ := slope; intercept_ := offset |}
                 (map fst sample) (map snd sample)
   <= squared_error other (map fst sample) (map snd sample))%Q.
Proof.
  assert (Hzip : combine (map fst sample) (map snd sample) = sample).
  { clear. induction sample as [|[x y] l IH]; [reflexivity|]. cbn. now rewrite IH. }
  pose proof residuals_sum_zero as Hsum.
  pose proof residuals_orthogonal as Horth.
  unfold squared_error. rewrite Hzip. cbn [coef_ intercept_]. cbv zeta.
  revert Hsum Horth. generalize offset. intros b. generalize slope.
  intros a Hsum Horth.
  set (beta := (b - intercept_ other)%Q).
  set (alpha := (a - coef_ other)%Q).
  rewrite (Qsum_map_ext
             (fun xy => ((snd xy - (intercept_ other + coef_ other * fst xy))
                         * (snd xy - (intercept_ other + coef_ other * fst xy)))%Q)
             (fun p => ((snd p - (b + a * fst p)) * (snd p - (b + a * fst p))
                        + ((2 * beta) * (snd p - (b + a * fst p))
                           + ((2 * alpha) * ((snd p - (b + a * fst p)) * fst p)
                              + (beta + alpha * fst p) * (beta + alpha * fst p))))%Q))
    by (intros; subst beta alpha; ring).
  rewrite !Qsum_map_plus, !Qsum_scale, Hsum, Horth.
  pose proof (Qsum_squares_nonneg (fun p => (beta + alpha * fst p)%Q) sample) as Hsq.
  cbv beta in Hsq. lra.
Qed.

End LeastSquares.

(** [fit] returns the least-squares line of the sample. *)
Lemma fit_least_squares (X y : list Q) (model other : LinearRegression) :
  length X = length y ->
  fit X y = Return model ->
  (squared_error model X y <= squared_error other X y)%Q.
Proof.
  intros Hlen Hfit.
  assert (combine X y <> []) as Hne.
  { destruct X; [discriminate|]. destruct y; discriminate. }
  pose proof (fitted_line_minimal (combine X y) Hne other) as Hmin.
  cbv zeta in Hmin.
  rewrite <- (map_map fst (fun x => ((x - Qmean (map fst (combine X y)))
                                    * (x - Qmean (map fst (combine X y))))%Q))
    in Hmin.
  rewrite (combine_fst X y Hlen), (combine_snd X y Hlen) in Hmin.
  unfold fit in Hfit. destruct X as [|x X]; [discriminate|].
  injection Hfit as <-. exact Hmin.
Qed.

(** ** Forecast of a linear series *)

Lemma resample_sum_sorted (g : granularity) (df : list (expense Z)) :
  StronglySorted Z.lt (map fst (resample_sum g df)).
Proof.
  destruct df as [|row0 df0] eqn:E; [constructor|]. rewrite <- E.
  destruct (resample_sum_shape g df) as (first & last & _ & _ & _ & _ & ->);
    [congruence|].
  rewrite map_map. cbn [fst]. apply sorted_map_seqZ, period_end_lt.
Qed.

(** C5. When the monthly totals of the records are 100, 200 and 300, the
    least-squares line over the month numbers 0, 1, 2 has slope 100 and
    intercept 100 (it leaves no residual, so no line has a smaller squared
    error), and the forecast for one period is 400, dated with the last day
    of the calendar month that follows the last observed bucket. *)
Theorem forecast_linear_series `{Library} (records : list (expense cell)) :
  Forall2 Qeq (map snd (aggregate records Month)) [100; 200; 300]%Q ->
  exists t0 t1 t2 y0 y1 y2 model predicted,
    aggregate records Month = [(t0, y0); (t1, y1); (t2, y2)]
    /\ fit (arange 0 3) [y0; y1; y2] = Return model
    /\ (coef_ model == 100)%Q /\ (intercept_ model == 100)%Q
    /\ (forall other, squared_error model (arange 0 3) [y0; y1; y2]
                      <= squared_error other (arange 0 3) [y0; y1; y2])%Q
    /\ forecast_expenses records 1
       = Return [(Calendar.month_end (Calendar.month_ordinal t2 + 1), predicted)]
    /\ (predicted == 400)%Q
    /\ Calendar.month_ordinal
         (Calendar.month_end (Calendar.month_ordinal t2 + 1))
       = Calendar.month_ordinal t2 + 1.
Proof.
  intros Hseries.
  pose proof (resample_sum_sorted Month (parse_dates records)) as Hsorted.
  assert (records <> []) as Hne by (intros ->; inversion Hseries).
  unfold forecast_expenses.
  destruct records as [|row rest]; [congruence|].
  unfold aggregate in *.
  destruct (resample_sum Month (parse_dates (row :: rest)))
    as [|[t0 y0] [|[t1 y1] [|[t2 y2] [|? ?]]]];
    inversion Hseries as [|? ? ? ? H0 Hs1]; subst;
    inversion Hs1 as [|? ? ? ? H1 Hs2]; subst;
    inversion Hs2 as [|? ? ? ? H2 Hs3]; subst; inversion Hs3; subst.
  cbn [fst snd] in *.
  exists t0, t1, t2, y0, y1, y2.
  change (arange 0 3) with [inject_Z 0; inject_Z 1; inject_Z 2].
  cbn [length map snd fst].
  change (arange 0 3) with [inject_Z 0; inject_Z 1; inject_Z 2].
  change (arange (Z.of_nat 3) 1) with [inject_Z 3].
  unfold fit.
  set (X := [inject_Z 0; inject_Z 1; inject_Z 2]).
  assert (Qeq_bool (Qsum (map (fun x => (x - Qmean X) * (x - Qmean X))%Q X)) 0 = false)
    as -> by (vm_compute; reflexivity).
  eexists. eexists.
  assert (Hcoef :
    (Qsum (map (fun xy => (fst xy - Qmean X) * (snd xy - Qmean [y0; y1; y2]))%Q
               (combine X [y0; y1; y2]))
     / Qsum (map (fun x => (x - Qmean X) * (x - Qmean X))%Q X) == 100)%Q).
  { subst X. unfold Qmean. cbn [Qsum fold_right map combine fst snd length].
    rewrite H0, H1, H2. vm_compute. reflexivity. }
  assert (Hmean : (Qmean [y0; y1; y2] == 200)%Q).
  { unfold Qmean. cbn [Qsum fold_right length]. rewrite H0, H1, H2. reflexivity. }
  split; [reflexivity|]. split; [reflexivity|].
  cbn [coef_ intercept_].
  split; [exact Hcoef|].
  assert (Hicpt : (Qmean [y0; y1; y2]
                   - Qsum (map (fun xy => (fst xy - Qmean X) * (snd xy - Qmean [y0; y1; y2]))%Q
                               (combine X [y0; y1; y2]))
                     / Qsum (map (fun x => (x - Qmean X) * (x - Qmean X))%Q X) * Qmean X
                   == 100)%Q).
  { rewrite Hcoef, Hmean. vm_compute. reflexivity. }
  split; [exact Hicpt|].
  split.
  { intros other. apply fit_least_squares; [reflexivity|].
    unfold fit. subst X. cbn [coef_ intercept_].
    assert (Qeq_bool (Qsum (map (fun x => (x - Qmean [inject_Z 0; inject_Z 1; inject_Z 2])
                                        * (x - Qmean [inject_Z 0; inject_Z 1; inject_Z 2]))%Q
                             [inject_Z 0; inject_Z 1; inject_Z 2])) 0 = false)
      as -> by (vm_compute; reflexivity).
    reflexivity. }
  inversion Hsorted as [|? ? Hs12 Hlt0]; subst.
  inversion Hs12 as [|? ? Hs2' Hlt1]; subst.
  inversion Hlt0 as [|? ? Hlt01 Hlt0']; subst. inversion Hlt0' as [|? ? Hlt02 _]; subst.
  inversion Hlt1 as [|? ? Hlt12 _]; subst.
  assert (Zmax_list [t0; t1; t2] = t2) as ->
    by (cbn [Zmax_list fold_right]; lia).
  unfold date_range, MonthBegin.
  change (seqZ 0 (Z.of_nat 1)) with [0].
  cbn [map predict combine coef_ intercept_].
  rewrite CalendarFacts.month_ordinal_start, Z.add_0_r.
  split; [reflexivity|].
  split; [|apply CalendarFacts.month_ordinal_end].
  rewrite Hicpt, Hcoef. reflexivity.
Qed.

Lemma forecast_linear_series_witness :
  let records := [Expense 1 (Text "2023-11-15") 100%Q "Food" "dinner";
                  Expense 2 (Text "2023-12-20") 200%Q "Food" "lunch";
                  Expense 3 (Text "2024-01-21") 300%Q "Housing" "rent"] in
  exists predicted,
    forecast_expenses (H := Reference.library) records 1
    = Return [(Calendar.days_from_civil 2024 2 29, predicted)]
    /\ (predicted == 400)%Q.
Proof.
  cbv zeta.
  destruct (forecast_linear_series (H := Reference.library)
              [Expense 1 (Text "2023-11-15") 100%Q "Food" "dinner";
               Expense 2 (Text "2023-12-20") 200%Q "Food" "lunch";
               Expense 3 (Text "2024-01-21") 300%Q "Housing" "rent"])
    as (t0 & t1 & t2 & y0 & y1 & y2 & model & predicted
        & Hagg & _ & _ & _ & _ & Hforecast & Hpred & _).
  - vm_compute. repeat constructor.
  - exists predicted. split; [|exact Hpred].
    rewrite Hforecast. vm_compute in Hagg. injection Hagg as _ _ _ _ <- _.
    reflexivity.
Defined.

(** ** Date parsing rule *)

(** [split] cuts at every separator and nowhere else: joining the parts
    with the separator gives the string back, and no part holds one. *)
Lemma split_nonempty (sep : ascii) (s : string) : split sep s <> [].
Proof.
  induction s as [|c s IH]; cbn [split]; [discriminate|].
  destruct (Ascii.eqb c sep); [discriminate|].
  destruct (split sep s); [congruence | discriminate].
Qed.

Lemma concat_cons (sep part : string) (parts : list string) :
  parts <> [] ->
  String.concat sep (part :: parts) = part +:+ sep +:+ String.concat sep parts.
Proof. destruct parts; [congruence | reflexivity]. Qed.

Lemma concat_cons_char (sep part : string) (c : ascii) (parts : list string) :
  String.concat sep (String c part :: parts)
  = String c (String.concat sep (part :: parts)).
Proof. destruct parts; reflexivity. Qed.

Lemma split_concat (sep : ascii) (s : string) :
  String.concat (String sep EmptyString) (split sep s) = s.
Proof.
  induction s as [|c s IH]; [reflexivity|].
  cbn [split]. pose proof (split_nonempty sep s) as Hs.
  destruct (Ascii.eqb_spec c sep) as [->|Hne].
  - rewrite concat_cons by exact Hs. now rewrite IH.
  - destruct (split sep s) as [|part parts]; [congruence|].
    now rewrite concat_cons_char, IH.
Qed.

Lemma split_parts_free (sep : ascii) (s : string) :
  Forall (fun part => forall pre post, part <> pre +:+ String sep post)
         (split sep s).
Proof.
  induction s as [|c s IH]; cbn [split].
  - constructor; [|constructor]. intros [|? ?] post; discriminate.
  - destruct (Ascii.eqb_spec c sep) as [->|Hne].
    + constructor; [|exact IH]. intros [|? ?] post; discriminate.
    + pose proof (split_nonempty sep s) as Hs.
      destruct (split sep s) as [|part parts]; [congruence|].
      inversion IH as [|? ? Hpart Hparts]; subst.
      constructor; [|exact Hparts].
      intros [|a pre] post Heq; cbn in Heq; injection Heq as Hc Heq.
      * congruence.
      * now apply (Hpart pre post).
Qed.

(** The slash-separated date "2023/01/15" has ten characters and a first
    dash-separated segment, the whole string, that is no integer: it goes
    to the general parser, which reads it as 15 January 2023, and not to
    the day-first format, which cannot read it. *)
Lemma ten_characters_not_day_first :
  String.length "2023/01/15" = 10%nat
  /\ int (Library := Reference.library) (hd EmptyString (split "-" "2023/01/15")) = None
  /\ try_parse (H := Reference.library) (Text "2023/01/15")
     = Some (Calendar.days_from_civil 2023 1 15)
  /\ to_datetime (Library := Reference.library) "2023/01/15" (Some "%d-%m-%Y") = None
  /\ try_parse (H := Reference.library) (Text "2023/01/15")
     <> to_datetime (Library := Reference.library) "2023/01/15" (Some "%d-%m-%Y").
Proof. repeat split; try reflexivity. vm_compute. discriminate. Qed.

(** C9, as the code has it. A date string of ten characters whose first
    dash-separated segment is an integer is read year-first when that
    integer exceeds 31 and day-first when it does not; a ten-character
    string whose first segment is no integer, and a string of any other
    length, go to the general parser; a missing or blank value is null.
    The rows [parse_dates] keeps are exactly those whose value parses, each
    with its parsed date. *)
Theorem try_parse_rules `{Library} (s : string) :
  let first_segment := hd EmptyString (split "-" s) in
  (Py.blank s = true -> try_parse (Text s) = None)
  /\ (Py.blank s = false -> String.length s = 10%nat ->
        forall n, int first_segment = Some n ->
          (31 < n -> try_parse (Text s) = to_datetime s (Some "%Y-%m-%d"))
          /\ (n <= 31 -> try_parse (Text s) = to_datetime s (Some "%d-%m-%Y")))
  /\ (Py.blank s = false -> String.length s = 10%nat ->
        int first_segment = None -> try_parse (Text s) = to_datetime s None)
  /\ (Py.blank s = false -> String.length s <> 10%nat ->
        try_parse (Text s) = to_datetime s None)
  /\ try_parse Null = None
  /\ (forall df parsed,
        In parsed (parse_dates df) <->
        exists row, In row df
                    /\ try_parse (date row) = Some (date parsed)
                    /\ id parsed = id row /\ amount parsed = amount row
                    /\ category parsed = category row
                    /\ description parsed = description row).
Proof.
  intros first_segment. subst first_segment.
  split; [|split; [|split; [|split; [|split]]]].
  - intros Hb. cbn [try_parse]. now rewrite Hb.
  - intros Hb Hlen n Hn. cbn [try_parse]. rewrite Hb, Hlen, Nat.eqb_refl, Hn.
    split; intros Hcmp.
    + apply Z.ltb_lt in Hcmp. now rewrite Hcmp.
    + destruct (31 <? n) eqn:E; [apply Z.ltb_lt in E; lia | reflexivity].
  - intros Hb Hlen Hn. cbn [try_parse]. now rewrite Hb, Hlen, Nat.eqb_refl, Hn.
  - intros Hb Hlen. cbn [try_parse]. rewrite Hb.
    apply Nat.eqb_neq in Hlen. now rewrite Hlen.
  - reflexivity.
  - apply parse_dates_In.
Qed.

Lemma try_parse_rules_witness :
  try_parse (H := Reference.library) (Text "15-01-2023")
  = to_datetime (Library := Reference.library) "15-01-2023" (Some "%d-%m-%Y")
  /\ try_parse (H := Reference.library) (Text "2023-01-15")
     = to_datetime (Library := Reference.library) "2023-01-15" (Some "%Y-%m-%d")
  /\ try_parse (H := Reference.library) (Text "2023/01/15")
     = to_datetime (Library := Reference.library) "2023/01/15" None.
Proof.
  split; [|split].
  - refine (proj2 (proj1 (proj2 (try_parse_rules (H := Reference.library) "15-01-2023"))
                     eq_refl eq_refl 15 eq_refl) _). lia.
  - refine (proj1 (proj1 (proj2 (try_parse_rules (H := Reference.library) "2023-01-15"))
                     eq_refl eq_refl 2023 eq_refl) _). lia.
  - exact (proj1 (proj2 (proj2 (try_parse_rules (H := Reference.library) "2023/01/15")))
             eq_refl eq_refl eq_refl).
Defined.

(** * Further properties of the code *)

(** ** Keyword categoriser: case and dead keywords *)

Lemma lower_char_idempotent (c : ascii) :
  Py.lower_char (Py.lower_char c) = Py.lower_char c.
Proof. destruct c as [[] [] [] [] [] [] [] []]; reflexivity. Qed.

Lemma lower_idempotent (s : string) : Py.lower (Py.lower s) = Py.lower s.
Proof.
  induction s as [|c s IH]; [reflexivity|].
  cbn [Py.lower]. now rewrite lower_char_idempotent, IH.
Qed.

Lemma lower_empty_iff (s : string) : Py.lower s = EmptyString <-> s = EmptyString.
Proof. destruct s; cbn [Py.lower]; split; congruence. Qed.

(** X1. Two descriptions that differ in the case of their letters only get
    the same category. *)
Theorem categorize_ignores_case (d d' : string) :
  Py.lower d = Py.lower d' ->
  advanced_categorize_expense d = advanced_categorize_expense d'.
Proof.
  intros Heq. unfold advanced_categorize_expense.
  destruct d as [|a d0].
  - symmetry in Heq. cbn [Py.lower] in Heq.
    apply (proj1 (lower_empty_iff d')) in Heq. now rewrite Heq.
  - destruct d' as [|a' d0']; [discriminate Heq|]. now rewrite Heq.
Qed.

Lemma categorize_ignores_case_witness :
  advanced_categorize_expense "TAXI to the Airport"
  = advanced_categorize_expense "taxi to the airport".
Proof. apply categorize_ignores_case. reflexivity. Defined.

Lemma categorize_loop_within items s :
  forall (i : nat) c kws,
    nth_error items i = Some (c, kws) ->
    (exists k, In k kws /\ occurs k s) ->
    In (categorize_loop items s) (map fst (firstn (S i) items)).
Proof.
  induction items as [|[c0 kws0] rest IH]; intros i c kws Hi Hhit.
  - destruct i; discriminate.
  - cbn [categorize_loop]. destruct (Py.any _ kws0) eqn:E.
    + cbn. now left.
    + destruct i as [|i].
      * injection Hi as -> ->. apply any_contains_iff in Hhit. congruence.
      * right. apply (IH i c kws Hi Hhit).
Qed.

Lemma string_app_cons (x : ascii) (a b : string) :
  String x a +:+ b = String x (a +:+ b).
Proof. reflexivity. Qed.

Lemma string_app_assoc (a b c : string) : (a +:+ b) +:+ c = a +:+ (b +:+ c).
Proof.
  induction a as [|x a IH]; [reflexivity|].
  now rewrite !string_app_cons, IH.
Qed.

Lemma occurs_trans (a b s : string) : occurs a b -> occurs b s -> occurs a s.
Proof.
  intros [p1 [q1 ->]] [p2 [q2 ->]]. exists (p2 +:+ p1), (q1 +:+ q2).
  now rewrite !string_app_assoc.
Qed.

(** X2. The Insurance keyword "health insurance" never decides: a description
    that holds it holds the Healthcare keyword "health" as well, and
    Healthcare comes first, so the answer is one of the six categories up
    to Healthcare and never Insurance. *)
Theorem health_insurance_is_never_insurance (description : string) :
  occurs "health insurance" (Py.lower description) ->
  In (advanced_categorize_expense description)
     ["Food"; "Transport"; "Housing"; "Utilities"; "Entertainment"; "Healthcare"]
  /\ advanced_categorize_expense description <> "Insurance".
Proof.
  intros Hocc.
  assert (occurs "health" (Py.lower description)) as Hhealth.
  { apply (occurs_trans _ "health insurance"); [|exact Hocc].
    exists "", " insurance". reflexivity. }
  assert (In (advanced_categorize_expense description)
             ["Food"; "Transport"; "Housing"; "Utilities"; "Entertainment"; "Healthcare"])
    as Hin.
  { unfold advanced_categorize_expense. destruct description as [|a d].
    - destruct Hhealth as [[|? ?] [post H]]; discriminate H.
    - apply (categorize_loop_within CATEGORY_KEYWORDS _ 5%nat "Healthcare"
               ["health"; "clinic"; "doctor"; "hospital"; "pharmacy"; "medicine"]);
        [reflexivity|].
      exists "health". split; [now left | exact Hhealth]. }
  split; [exact Hin|].
  intros Heq. rewrite Heq in Hin. cbn in Hin. intuition discriminate.
Qed.

Lemma health_insurance_is_never_insurance_witness :
  advanced_categorize_expense "Health Insurance premium" <> "Insurance".
Proof.
  apply health_insurance_is_never_insurance.
  exists "", " premium". reflexivity.
Defined.

(** ** Spending tiers *)

Lemma Qsum_filter_cons {A} (p : A -> bool) (f : A -> Q) (a : A) (l : list A) :
  (Qsum (map f (List.filter p (a :: l)))
   == (if p a then f a else 0) + Qsum (map f (List.filter p l)))%Q.
Proof.
  cbn [List.filter]. destruct (p a); cbn [map Qsum fold_right]; unfold Qsum; ring.
Qed.

Lemma add_to_tier_fold {D : Type} (data : list (expense D)) :
  forall (acc : gmap string Q) (m0 n0 w0 : Q),
    acc !! "Must" = Some m0 -> acc !! "Need" = Some n0 -> acc !! "Want" = Some w0 ->
    exists must need want,
      fold_left add_to_tier data acc !! "Must" = Some must
      /\ fold_left add_to_tier data acc !! "Need" = Some need
      /\ fold_left add_to_tier data acc !! "Want" = Some want
      /\ (must == m0 + Qsum (map amount
            (List.filter (fun row => str_in (category row) (mapping "Must")) data)))%Q
      /\ (need == n0 + Qsum (map amount
            (List.filter (fun row => str_in (category row) (mapping "Need")) data)))%Q
      /\ (want == w0 + Qsum (map amount
            (List.filter (fun row => negb (str_in (category row) (mapping "Must"))
                                     && negb (str_in (category row) (mapping "Need")))
                         data)))%Q
      /\ dom (fold_left add_to_tier data acc) = dom acc.
Proof.
  induction data as [|row data IH]; intros acc m0 n0 w0 Hm Hn Hw.
  - exists m0, n0, w0. cbn [fold_left List.filter map Qsum fold_right].
    repeat split; auto; ring.
  - cbn [fold_left].
    assert (Hdisjoint : str_in (category row) (mapping "Must") = true ->
                        str_in (category row) (mapping "Need") = false).
    { unfold str_in. cbn [mapping String.eqb Ascii.eqb Bool.eqb existsb].
      rewrite !orb_false_r, !orb_true_iff, !String.eqb_eq.
      intros H. repeat (destruct H as [H | H]; [rewrite H; reflexivity|]).
      rewrite H. reflexivity. }
    destruct (IH (add_to_tier acc row)
                 (if str_in (category row) (mapping "Must")
                  then m0 + amount row else m0)%Q
                 (if str_in (category row) (mapping "Need")
                  then n0 + amount row else n0)%Q
                 (if negb (str_in (category row) (mapping "Must"))
                     && negb (str_in (category row) (mapping "Need"))
                  then w0 + amount row else w0)%Q)
      as (must & need & want & Hmust & Hneed & Hwant & Em & En & Ew & Hdom).
    + unfold add_to_tier. cbv zeta.
      destruct (str_in (category row) (mapping "Must")).
      * now rewrite lookup_alter_eq, Hm.
      * destruct (str_in (category row) (mapping "Need"));
          now rewrite lookup_alter_ne.
    + unfold add_to_tier. cbv zeta.
      destruct (str_in (category row) (mapping "Must")) eqn:E1.
      * rewrite (Hdisjoint eq_refl). now rewrite lookup_alter_ne.
      * destruct (str_in (category row) (mapping "Need")).
        -- now rewrite lookup_alter_eq, Hn.
        -- now rewrite lookup_alter_ne.
    + unfold add_to_tier. cbv zeta.
      destruct (str_in (category row) (mapping "Must")).
      * now rewrite lookup_alter_ne.
      * destruct (str_in (category row) (mapping "Need")); cbn [negb andb].
        -- now rewrite lookup_alter_ne.
        -- now rewrite lookup_alter_eq, Hw.
    + exists must, need, want.
      rewrite !Qsum_filter_cons.
      split; [exact Hmust|]. split; [exact Hneed|]. split; [exact Hwant|].
      split; [|split; [|split]].
      * rewrite Em. destruct (str_in (category row) (mapping "Must")); ring.
      * rewrite En. destruct (str_in (category row) (mapping "Need")); ring.
      * rewrite Ew.
        destruct (negb (str_in (category row) (mapping "Must"))
                  && negb (str_in (category row) (mapping "Need"))); ring.
      * rewrite Hdom. unfold add_to_tier. cbv zeta.
        destruct (str_in (category row) (mapping "Must"));
          [|destruct (str_in (category row) (mapping "Need"))];
          apply dom_alter_L.
Qed.

(** X3. The three entries of [spending_categories] are there for every frame,
    the empty one included, and no other key is; Must and Need hold the
    sums over the rows of their categories, and Want holds the sum over
    every other row, whatever its category is called. *)
Theorem spending_categories_tiers {D : Type} (data : list (expense D)) :
  exists must need want,
    spending_categories data !! "Must" = Some must
    /\ spending_categories data !! "Need" = Some need
    /\ spending_categories data !! "Want" = Some want
    /\ (must == Qsum (map amount
          (List.filter (fun row => str_in (category row)
                                     ["Housing"; "Utilities"; "Food"; "Transport"])
                       data)))%Q
    /\ (need == Qsum (map amount
          (List.filter (fun row => str_in (category row)
                                     ["Healthcare"; "Insurance"; "Education"])
                       data)))%Q
    /\ (want == Qsum (map amount
          (List.filter (fun row => negb (str_in (category row)
                                           ["Housing"; "Utilities"; "Food"; "Transport";
                                            "Healthcare"; "Insurance"; "Education"]))
                       data)))%Q
    /\ forall key, is_Some (spending_categories data !! key)
                   <-> key = "Must" \/ key = "Need" \/ key = "Want".
Proof.
  unfold spending_categories. cbv zeta.
  destruct (add_to_tier_fold data
              (<["Must" := 0%Q]> (<["Need" := 0%Q]> (<["Want" := 0%Q]> ∅))) 0 0 0)%Q
    as (must & need & want & Hmust & Hneed & Hwant & Em & En & Ew & Hdom);
    [reflexivity..|].
  exists must, need, want.
  split; [exact Hmust|]. split; [exact Hneed|]. split; [exact Hwant|].
  split; [rewrite Em; change (mapping "Must") with
            ["Housing"; "Utilities"; "Food"; "Transport"]; ring|].
  split; [rewrite En; change (mapping "Need") with
            ["Healthcare"; "Insurance"; "Education"]; ring|].
  split.
  - rewrite Ew, Qplus_0_l.
    erewrite filter_ext; [reflexivity|].
    intros row. unfold str_in.
    change (mapping "Must") with ["Housing"; "Utilities"; "Food"; "Transport"].
    change (mapping "Need") with ["Healthcare"; "Insurance"; "Education"].
    cbn [existsb].
    repeat match goal with
           | |- context [String.eqb (category row) ?c] =>
               destruct (String.eqb (category row) c)
           end; reflexivity.
  - intros key. rewrite <- elem_of_dom, Hdom.
    rewrite !dom_insert_L, dom_empty_L.
    rewrite !elem_of_union, !elem_of_singleton, elem_of_empty. tauto.
Qed.

Lemma Qsum_three_way {A} (p q : A -> bool) (f : A -> Q) (l : list A) :
  (forall a, p a = true -> q a = false) ->
  (Qsum (map f (List.filter p l)) + Qsum (map f (List.filter q l))
   + Qsum (map f (List.filter (fun a => negb (p a) && negb (q a)) l))
   == Qsum (map f l))%Q.
Proof.
  intros Hpq. induction l as [|a l IH]; [reflexivity|].
  rewrite !Qsum_filter_cons. cbn [map Qsum fold_right]. fold (Qsum (map f l)).
  rewrite <- IH. specialize (Hpq a).
  destruct (p a); [rewrite Hpq by reflexivity|destruct (q a)]; cbn [negb andb]; ring.
Qed.

(** X4. Nothing is lost and nothing counted twice: the three tiers of
    [spending_categories] add up to the sum of all amounts. *)
Theorem spending_categories_total {D : Type} (data : list (expense D)) :
  exists must need want,
    spending_categories data !! "Must" = Some must
    /\ spending_categories data !! "Need" = Some need
    /\ spending_categories data !! "Want" = Some want
    /\ (must + need + want == Qsum (map amount data))%Q.
Proof.
  unfold spending_categories. cbv zeta.
  destruct (add_to_tier_fold data
              (<["Must" := 0%Q]> (<["Need" := 0%Q]> (<["Want" := 0%Q]> ∅))) 0 0 0)%Q
    as (must & need & want & Hmust & Hneed & Hwant & Em & En & Ew & _);
    [reflexivity..|].
  exists must, need, want. repeat split; auto.
  rewrite Em, En, Ew, !Qplus_0_l. apply Qsum_three_way.
  intros row. unfold str_in.
  change (mapping "Must") with ["Housing"; "Utilities"; "Food"; "Transport"].
  change (mapping "Need") with ["Healthcare"; "Insurance"; "Education"].
  cbn [existsb]. rewrite !orb_false_r, !orb_true_iff, !String.eqb_eq.
  intros H. repeat (destruct H as [H | H]; [rewrite H; reflexivity|]).
  rewrite H. reflexivity.
Qed.

(** ** Anomaly flag: what a short history can flag *)

(** X5. With fewer than ten observations, a flagged amount lies above the
    mean of a history of at least two observations, and every larger
    amount is flagged as well. *)
Theorem fraud_detection_threshold `{Library} (new_amount : Q) (hist : list Q) :
  (length hist < 10)%nat ->
  fraud_detection new_amount hist = true ->
  (2 <= length hist)%nat
  /\ (exists mean, series_mean hist = Some mean /\ (mean < new_amount)%Q)
  /\ forall larger, (new_amount <= larger)%Q -> fraud_detection larger hist = true.
Proof.
  intros Hlen Hflag. unfold fraud_detection in *.
  apply Nat.ltb_lt in Hlen. rewrite Hlen in *.
  destruct (truthy (series_std hist)) eqn:Etruthy; [|discriminate].
  unfold gt_mean_plus_2std in *.
  destruct (series_mean hist) as [mean|] eqn:Emean; [|discriminate].
  destruct (series_std hist) as [std|] eqn:Estd; [|discriminate].
  apply Qlt_bool_iff in Hflag.
  assert (Hcount : (2 <= length hist)%nat).
  { unfold series_std in Estd.
    destruct (length hist <=? 1)%nat eqn:Eshort; [discriminate|].
    apply Nat.leb_gt in Eshort. lia. }
  assert (Hstd : (0 <= std)%Q).
  { unfold series_std in Estd.
    destruct (length hist <=? 1)%nat; [discriminate|].
    exact (fsqrt_nonneg _ _ Estd). }
  assert (Hdouble : (float64 mean == mean)%Q).
  { unfold series_mean in Emean. destruct hist; [discriminate|].
    injection Emean as <-. apply float64_idem. }
  assert (Hthreshold : (mean <= fadd mean (fmul 2 std))%Q).
  { rewrite <- Hdouble at 1. apply float64_mono.
    pose proof (float64_nonneg (2 * std) ltac:(lra)) as Htwice.
    unfold fmul. lra. }
  split; [exact Hcount|]. split; [exists mean; split; [reflexivity|lra]|].
  intros larger Hle. apply Qlt_bool_iff. lra.
Qed.

Lemma fraud_detection_threshold_witness :
  fraud_detection (H := Reference.library) 5000 [100; 120; 90]%Q = true.
Proof.
  apply (fraud_detection_threshold (H := Reference.library) 1000 [100; 120; 90]%Q).
  - cbn. lia.
  - vm_compute. reflexivity.
  - vm_compute. discriminate.
Defined.

(** ** Month-over-month comparison: equal months and empty months *)



Lemma rows_in_nil (g : granularity) (k : Z) (df : list (expense Z)) :
  (forall row, In row df -> period_of g (date row) <> k) -> rows_in g k df = [].
Proof.
  intros Hno. unfold rows_in. induction df as [|row df IH]; [reflexivity|].
  cbn [List.filter].
  destruct (Z.eqb_spec (period_of g (date row)) k) as [E|_].
  - exfalso. apply (Hno row); [now left | exact E].
  - apply IH. intros r Hr. apply Hno. now right.
Qed.

(** X7. When the records end in month [K], none lies in the month before and
    some lies earlier still, the comparison is with the empty month
    [K - 1], counted with total 0: the answer is "No expenses in the
    previous month to compare.", not a comparison with the last month that
    has records. *)
Theorem compare_expenses_empty_previous_month `{Library}
    (records : list (expense cell)) (K : Z) :
  let df := parse_dates records in
  (exists row, In row df /\ period_of Month (date row) = K) ->
  (forall row, In row df -> period_of Month (date row) <= K) ->
  (forall row, In row df -> period_of Month (date row) <> K - 1) ->
  (exists row, In row df /\ period_of Month (date row) < K - 1) ->
  compare_expenses records = Message "No expenses in the previous month to compare.".
Proof.
  intros df (rK & HrK & HK) Hmax Hgap (r0 & Hr0 & Hearly).
  assert (df <> []) as Hne by (destruct df; [contradiction | discriminate]).
  destruct (resample_sum_shape Month df Hne) as
    (first & last & Hle & (rmin & Hrmin & Hfirst) & (rmax & Hrmax & Hlast) & Hin & Hshape).
  assert (last = K) as ->.
  { pose proof (Hin rK HrK). pose proof (Hmax rmax Hrmax). lia. }
  assert (first <= K - 2) as Hfirst2 by (pose proof (Hin r0 Hr0); lia).
  assert (Htotals :
    map snd (aggregate records Month)
    = (map (fun k => Qsum (map amount (rows_in Month k df))) (seqZ first (K - 1 - first))
       ++ [Qsum (map amount (rows_in Month (K - 1) df));
           Qsum (map amount (rows_in Month K df))])%list).
  { unfold aggregate. fold df. rewrite Hshape, map_map. cbn [snd].
    replace (K - first + 1) with ((K - 1 - first) + 2) by ring.
    rewrite seqZ_app by lia. rewrite map_app. f_equal.
    replace (first + (K - 1 - first)) with (K - 1) by ring.
    rewrite (seqZ_cons (K - 1) 2) by lia.
    rewrite (seqZ_cons (Z.succ (K - 1)) (Z.pred 2)) by lia.
    rewrite seqZ_nil by lia. cbn [map].
    replace (Z.succ (K - 1)) with K by lia. reflexivity. }
  destruct (compare_expenses_cases records) as [[Hlen _] | Hcase].
  - rewrite Htotals, length_app in Hlen. cbn in Hlen. lia.
  - destruct Hcase as (older' & previous' & current' & Ht' & Hcase).
    rewrite Htotals in Ht'. apply last_two_inj in Ht' as (_ & Hprev & _).
    rewrite (rows_in_nil Month (K - 1) df Hgap) in Hprev. cbn in Hprev. subst previous'.
    destruct Hcase as [[_ Hout] | [Hnz _]]; [exact Hout|].
    exfalso. apply Hnz. reflexivity.
Qed.

Lemma compare_expenses_empty_previous_month_witness :
  compare_expenses (H := Reference.library)
    [Expense 1 (Text "2023-01-15") 200%Q "Food" "dinner";
     Expense 2 (Text "2023-03-02") 100%Q "Food" "lunch"]
  = Message "No expenses in the previous month to compare.".
Proof.
  apply (compare_expenses_empty_previous_month (H := Reference.library) _ (12 * 2023 + 2)).
  - eexists. split; [right; left; reflexivity | vm_compute; reflexivity].
  - intros row [<- | [<- | []]]; vm_compute; discriminate.
  - intros row [<- | [<- | []]]; vm_compute; discriminate.
  - eexists. split; [left; reflexivity | vm_compute; reflexivity].
Defined.

(** ** Forecast: dates, degenerate input and exactness on a line *)

Lemma Zmax_list_spec (l : list Z) :
  l <> [] -> In (Zmax_list l) l /\ forall k, In k l -> k <= Zmax_list l.
Proof.
  destruct l as [|t ts]; [congruence|]. intros _. cbn [Zmax_list]. split.
  - apply fold_min_max_attained.
  - intros k Hk. now apply fold_min_max_bounds.
Qed.

Lemma length_arange (start : Z) (n : nat) : length (arange start n) = n.
Proof. unfold arange. rewrite length_map, length_seqZ. lia. Qed.

Lemma length_date_range `{Library} (start : Z) (n : nat) :
  length (date_range start n) = n.
Proof. unfold date_range. rewrite length_map, length_seqZ. lia. Qed.

Local Abbreviation line_at model X :=
  (map (fun x => (intercept_ model + coef_ model * x)%Q) X).

(** What [forecast_expenses] computes once some date parses and at least
    one period is asked for: the fit over the month numbers, and one row
    for each period. *)
Lemma forecast_expenses_unfold `{Library} (records : list (expense cell)) (n : nat) :
  parse_dates records <> [] ->
  (1 <= n)%nat ->
  exists first last model,
    (exists row, In row (parse_dates records) /\ period_of Month (date row) = last)
    /\ (forall row, In row (parse_dates records) ->
          first <= period_of Month (date row) <= last)
    /\ length (aggregate records Month) = Z.to_nat (last - first + 1)
    /\ first <= last
    /\ fit (arange 0 (length (aggregate records Month)))
           (map snd (aggregate records Month)) = Return model
    /\ forecast_expenses records n
       = Return (combine
                   (map (fun i => Calendar.month_end (last + 1 + i))
                        (seqZ 0 (Z.of_nat n)))
                   (line_at model
                      (arange (Z.of_nat (length (aggregate records Month))) n))).
Proof.
  intros Hne Hn. unfold forecast_expenses, aggregate.
  destruct records as [|row0 rest]; [now cbn in Hne|].
  set (df := parse_dates (row0 :: rest)) in *.
  destruct (resample_sum_shape Month df Hne) as
    (first & last & Hle & _ & Hlast & Hin & Hshape).
  assert (Hlen : length (resample_sum Month df) = Z.to_nat (last - first + 1))
    by (rewrite Hshape, length_map, length_seqZ; reflexivity).
  destruct (fit_returns (arange 0 (length (resample_sum Month df)))
              (map snd (resample_sum Month df))) as [model Hfit].
  { apply arange_nonempty. rewrite Hlen. lia. }
  exists first, last, model.
  split; [exact Hlast|]. split; [exact Hin|]. split; [exact Hlen|].
  split; [exact Hle|]. split; [exact Hfit|].
  rewrite Hfit. rewrite predict_returns by (apply arange_nonempty; lia). f_equal.
  assert (Zmax_list (map fst (resample_sum Month df)) = Calendar.month_end last) as ->.
  { assert (map fst (resample_sum Month df) <> []) as Hlabels.
    { intros Hnil. apply (f_equal (@length Z)) in Hnil.
      rewrite length_map, Hlen in Hnil. cbn in Hnil. lia. }
    destruct (Zmax_list_spec _ Hlabels) as [Hmem Hmax].
    assert (In (Calendar.month_end last) (map fst (resample_sum Month df))) as Hend.
    { rewrite Hshape, map_map. cbn [fst]. apply in_map_iff. exists last.
      split; [reflexivity|]. apply list_elem_of_In, elem_of_seqZ. lia. }
    specialize (Hmax _ Hend).
    remember (Zmax_list (map fst (resample_sum Month df))) as M eqn:EM.
    clear EM. rewrite Hshape, map_map in Hmem. cbn [fst] in Hmem.
    apply in_map_iff in Hmem as [k [Hk Hrange]].
    apply list_elem_of_In, elem_of_seqZ in Hrange.
    destruct (Z.eq_dec k last) as [->|Hneq]; [now rewrite <- Hk|].
    pose proof (period_end_lt Month k last ltac:(lia)) as Hlt.
    cbn [period_end] in Hk, Hlt. lia. }
  unfold date_range, MonthBegin.
  rewrite CalendarFacts.month_ordinal_end, CalendarFacts.month_ordinal_start.
  reflexivity.
Qed.

(** X8. Whenever some date parses and at least one period is asked for,
    the forecast returns one row for each period; the rows are dated with the last days of the months
    that follow the month of the latest record, in order, so that every
    forecast date is later than every record. *)
Theorem forecast_expenses_dates `{Library} (records : list (expense cell)) (n : nat) :
  parse_dates records <> [] ->
  (1 <= n)%nat ->
  exists K out,
    (exists row, In row (parse_dates records) /\ period_of Month (date row) = K)
    /\ (forall row, In row (parse_dates records) -> period_of Month (date row) <= K)
    /\ forecast_expenses records n = Return out
    /\ length out = n
    /\ map fst out = map (fun i => Calendar.month_end (K + 1 + i)) (seqZ 0 (Z.of_nat n))
    /\ StronglySorted Z.lt (map fst out)
    /\ forall row d, In row (parse_dates records) -> In d (map fst out) -> date row < d.
Proof.
  intros Hne Hn.
  destruct (forecast_expenses_unfold records n Hne Hn) as
    (first & last & model & Hlast & Hin & _ & _ & _ & Hout).
  assert (Hlens : length (map (fun i => Calendar.month_end (last + 1 + i))
                              (seqZ 0 (Z.of_nat n)))
                  = length (line_at model
                              (arange (Z.of_nat (length (aggregate records Month))) n))).
  { rewrite !length_map, length_arange, length_seqZ. lia. }
  eexists last, _. split; [exact Hlast|].
  split; [intros row Hrow; apply Hin, Hrow|].
  split; [exact Hout|].
  rewrite (combine_fst _ _ Hlens).
  split; [rewrite length_combine, <- Hlens, length_map, length_seqZ; lia|].
  split; [reflexivity|]. split.
  - apply sorted_map_seqZ. intros k k' Hk. apply CalendarFacts.month_end_lt. lia.
  - intros row d Hrow Hd. apply in_map_iff in Hd as [i [<- Hi]].
    apply list_elem_of_In, elem_of_seqZ in Hi.
    pose proof (period_bounds Month (date row)) as [_ Hb]. cbn [period_of period_end] in Hb.
    pose proof (Hin row Hrow) as [_ Hle]. cbn [period_of] in Hle.
    pose proof (CalendarFacts.month_end_lt (Calendar.month_ordinal (date row))
                  (last + 1 + i) ltac:(lia)). lia.
Qed.

Lemma forecast_expenses_dates_witness :
  exists out,
    forecast_expenses (H := Reference.library)
      [Expense 1 (Text "2023-11-15") 100%Q "Food" "dinner";
       Expense 2 (Text "not a date") 5%Q "Food" "snack"] 3 = Return out
    /\ length out = 3%nat.
Proof.
  destruct (forecast_expenses_dates (H := Reference.library)
              [Expense 1 (Text "2023-11-15") 100%Q "Food" "dinner";
               Expense 2 (Text "not a date") 5%Q "Food" "snack"] 3)
    as (K & out & _ & _ & Hout & Hlen & _).
  - vm_compute. discriminate.
  - lia.
  - exists out. split; [exact Hout | exact Hlen].
Defined.

(** X9. Records none of whose dates parse are no empty frame: the forecast
    does not answer "No data available for forecasting." but fails inside
    the regression, with a [ValueError] that is not the insufficient-data
    one. *)
Theorem forecast_expenses_no_date_parses `{Library}
    (records : list (expense cell)) (n : nat) :
  records <> [] ->
  parse_dates records = [] ->
  exists msg,
    forecast_expenses records n = Raise (ValueError msg)
    /\ msg <> "No data available for forecasting."
    /\ exn_kind (ValueError msg) = None.
Proof.
  intros Hne Hparse. unfold forecast_expenses.
  destruct records as [|row rest]; [congruence|].
  rewrite Hparse. cbn. eexists. split; [reflexivity|]. split; [discriminate | reflexivity].
Qed.

Lemma forecast_expenses_no_date_parses_witness :
  exists msg,
    forecast_expenses (H := Reference.library)
      [Expense 1 (Text "yesterday") 100%Q "Food" "dinner"] 1 = Raise (ValueError msg)
    /\ msg <> "No data available for forecasting.".
Proof.
  destruct (forecast_expenses_no_date_parses (H := Reference.library)
              [Expense 1 (Text "yesterday") 100%Q "Food" "dinner"] 1)
    as (msg & Hraise & Hmsg & _); [discriminate | reflexivity |].
  exists msg. split; [exact Hraise | exact Hmsg].
Defined.

(** X28. Asked for no period at all, the forecast of a table with a
    parseable date fails as well: the regression is fitted, and [predict]
    refuses the empty frame of future month numbers with a [ValueError]
    that is not the insufficient-data one. *)
Theorem forecast_expenses_no_period `{Library} (records : list (expense cell)) :
  parse_dates records <> [] ->
  exists msg,
    forecast_expenses records 0 = Raise (ValueError msg)
    /\ msg <> "No data available for forecasting."
    /\ exn_kind (ValueError msg) = None.
Proof.
  intros Hne. unfold forecast_expenses.
  destruct records as [|row rest]; [now cbn in Hne|].
  pose proof (resample_sum_nonempty Month _ Hne) as Hmonthly.
  destruct (fit_returns (arange 0 (length (resample_sum Month (parse_dates (row :: rest)))))
              (map snd (resample_sum Month (parse_dates (row :: rest))))) as [model ->].
  { apply arange_nonempty.
    destruct (resample_sum Month (parse_dates (row :: rest))); [congruence|discriminate]. }
  cbn [arange Z.of_nat]. cbn [predict seqZ map].
  eexists. split; [reflexivity|]. split; [discriminate|reflexivity].
Qed.

Lemma forecast_expenses_no_period_witness :
  exists msg,
    forecast_expenses (H := Reference.library)
      [Expense 1 (Text "2023-11-15") 100%Q "Food" "dinner"] 0 = Raise (ValueError msg)
    /\ msg <> "No data available for forecasting.".
Proof.
  destruct (forecast_expenses_no_period (H := Reference.library)
              [Expense 1 (Text "2023-11-15") 100%Q "Food" "dinner"])
    as (msg & Hraise & Hmsg & _); [vm_compute; discriminate|].
  exists msg. split; [exact Hraise | exact Hmsg].
Defined.

(** The fitted line satisfies the normal equations of least squares. *)
Lemma fit_normal_equations (X y : list Q) (model : LinearRegression) :
  length X = length y ->
  fit X y = Return model ->
  (Qsum (map (fun p => snd p - (intercept_ model + coef_ model * fst p))
             (combine X y)) == 0)%Q
  /\ (Qsum (map (fun p => (snd p - (intercept_ model + coef_ model * fst p)) * fst p)
                (combine X y)) == 0)%Q.
Proof.
  intros Hlen Hfit.
  assert (combine X y <> []) as Hne.
  { destruct X; [discriminate|]. destruct y; discriminate. }
  pose proof (residuals_sum_zero (combine X y) Hne) as Hsum.
  pose proof (residuals_orthogonal (combine X y) Hne) as Horth.
  cbv zeta in Hsum, Horth.
  rewrite <- (map_map fst (fun x => ((x - Qmean (map fst (combine X y)))
                                    * (x - Qmean (map fst (combine X y))))%Q))
    in Hsum, Horth.
  rewrite (combine_fst X y Hlen), (combine_snd X y Hlen) in Hsum, Horth.
  unfold fit in Hfit. destruct X as [|x X]; [discriminate|].
  injection Hfit as <-. cbn [coef_ intercept_]. split; assumption.
Qed.

(** A sample that lies on a line, with two different abscissas, is fitted
    by that line. *)
Lemma fit_on_line (X y : list Q) (model : LinearRegression) (a b x1 x2 : Q) :
  length X = length y ->
  fit X y = Return model ->
  (forall p, In p (combine X y) -> (snd p == b + a * fst p)%Q) ->
  In x1 X -> In x2 X -> ~ (x1 == x2)%Q ->
  (coef_ model == a)%Q /\ (intercept_ model == b)%Q.
Proof.
  intros Hlen Hfit Hline H1 H2 Hdiff.
  destruct (fit_normal_equations X y model Hlen Hfit) as [Hsum Horth].
  set (beta := (b - intercept_ model)%Q).
  set (alpha := (a - coef_ model)%Q).
  assert (Hres : forall p, In p (combine X y) ->
            (snd p - (intercept_ model + coef_ model * fst p)
             == beta + alpha * fst p)%Q).
  { intros p Hp. rewrite (Hline p Hp). subst beta alpha. ring. }
  assert (Hzero : (Qsum (map (fun p => (beta + alpha * fst p) * (beta + alpha * fst p))
                             (combine X y)) == 0)%Q).
  { rewrite (Qsum_map_ext _
               (fun p => (beta * (snd p - (intercept_ model + coef_ model * fst p))
                          + alpha * ((snd p - (intercept_ model + coef_ model * fst p))
                                     * fst p))%Q)).
    - rewrite Qsum_map_plus, !Qsum_scale, Hsum, Horth. ring.
    - intros p Hp. rewrite (Hres p Hp). ring. }
  assert (Hpoint : forall x, In x X -> (beta + alpha * x == 0)%Q).
  { intros x Hx. rewrite <- (combine_fst X y Hlen) in Hx.
    apply in_map_iff in Hx as [p [<- Hp]].
    apply (Qsum_squares_zero (fun p => (beta + alpha * fst p)%Q) _ Hzero p Hp). }
  pose proof (Hpoint x1 H1) as E1. pose proof (Hpoint x2 H2) as E2.
  assert (alpha == 0)%Q as Halpha.
  { assert (alpha * (x1 - x2) == 0)%Q as Hprod by lra.
    apply Qmult_integral in Hprod as [Hz | Hz]; [exact Hz|].
    exfalso. apply Hdiff. lra. }
  assert (beta == 0)%Q as Hbeta by (rewrite Halpha in E1; lra).
  subst beta alpha. split; lra.
Qed.

Lemma combine_line (a b : Q) (idx : list Z) :
  forall totals,
    Forall2 Qeq totals (map (fun i => b + a * inject_Z i)%Q idx) ->
    forall p, In p (combine (map inject_Z idx) totals) -> (snd p == b + a * fst p)%Q.
Proof.
  induction idx as [|i idx IH]; intros totals Hall p Hp.
  - contradiction.
  - inversion Hall as [|y ? totals' ? Hy Hrest]; subst. cbn [map combine] in Hp.
    destruct Hp as [<- | Hp]; [exact Hy | now apply (IH totals')].
Qed.

Lemma Forall2_map_seqZ (f g : Z -> Q) (first len : Z) :
  (forall k, first <= k < first + len -> (f k == g k)%Q) ->
  Forall2 Qeq (map f (seqZ first len)) (map g (seqZ first len)).
Proof.
  intros Hfg.
  assert (Forall (fun k => first <= k < first + len) (seqZ first len)) as Hall
    by (apply Forall_seqZ; auto).
  induction Hall as [|k l Hk Hl IH]; cbn [map]; constructor; auto.
Qed.

(** X10. A monthly series that lies on a line is continued along that line:
    with at least two monthly buckets whose totals are [b + a * i] for the
    month numbers [i], and at least one period asked for, the forecast for
    the [j]-th period ahead is [b + a * (N + j)], [N] being the number of
    buckets. *)
Theorem forecast_continues_line `{Library}
    (records : list (expense cell)) (n : nat) (a b : Q) :
  let totals := map snd (aggregate records Month) in
  let N := Z.of_nat (length totals) in
  (2 <= length totals)%nat ->
  Forall2 Qeq totals (map (fun i => b + a * inject_Z i)%Q (seqZ 0 N)) ->
  (1 <= n)%nat ->
  exists out,
    forecast_expenses records n = Return out
    /\ Forall2 Qeq (map snd out)
         (map (fun j => b + a * inject_Z (N + j))%Q (seqZ 0 (Z.of_nat n))).
Proof.
  intros totals N Hlen Hline Hn.
  assert (parse_dates records <> []) as Hne.
  { intros Hnil. subst totals. unfold aggregate in Hlen. rewrite Hnil in Hlen.
    cbn in Hlen. lia. }
  destruct (forecast_expenses_unfold records n Hne Hn) as
    (first & last & model & _ & _ & _ & _ & Hfit & Hout).
  assert (length (aggregate records Month) = length totals) as Hlt
    by (subst totals; now rewrite length_map).
  rewrite Hlt in Hfit, Hout. fold totals in Hfit. fold N in Hout.
  destruct (fit_on_line (arange 0 (length totals)) totals model a b
              (inject_Z 0) (inject_Z 1)) as [Hcoef Hicpt].
  - rewrite length_arange. reflexivity.
  - exact Hfit.
  - unfold arange. fold N. now apply combine_line.
  - unfold arange. apply in_map, list_elem_of_In, elem_of_seqZ. lia.
  - unfold arange. apply in_map, list_elem_of_In, elem_of_seqZ. lia.
  - discriminate.
  - eexists. split; [exact Hout|].
    rewrite combine_snd
      by (rewrite !length_map, length_arange, length_seqZ; lia).
    unfold arange. rewrite map_map.
    assert (seqZ N (Z.of_nat n) = map (Z.add N) (seqZ 0 (Z.of_nat n))) as ->.
    { pose proof (fmap_add_seqZ N 0 (Z.of_nat n)) as E.
      rewrite Z.add_0_r in E. symmetry. exact E. }
    rewrite map_map. apply Forall2_map_seqZ.
    intros k _. rewrite Hcoef, Hicpt. reflexivity.
Qed.

Lemma forecast_continues_line_witness :
  exists out,
    forecast_expenses (H := Reference.library)
      [Expense 1 (Text "2023-01-15") 500%Q "Food" "dinner";
       Expense 2 (Text "2023-02-20") 450%Q "Food" "lunch";
       Expense 3 (Text "2023-03-02") 400%Q "Housing" "rent";
       Expense 4 (Text "2023-04-02") 350%Q "Housing" "rent"] 2 = Return out
    /\ Forall2 Qeq (map snd out)
         [500 + (-50) * inject_Z 4; 500 + (-50) * inject_Z 5]%Q.
Proof.
  destruct (forecast_continues_line (H := Reference.library)
              [Expense 1 (Text "2023-01-15") 500%Q "Food" "dinner";
               Expense 2 (Text "2023-02-20") 450%Q "Food" "lunch";
               Expense 3 (Text "2023-03-02") 400%Q "Housing" "rent";
               Expense 4 (Text "2023-04-02") 350%Q "Housing" "rent"] 2 (-50) 500)
    as (out & Hout & Hpred).
  - vm_compute. lia.
  - vm_compute. repeat constructor.
  - lia.
  - exists out. split; [exact Hout | exact Hpred].
Defined.

(** X11. With a single monthly bucket the line is flat: when at least one
    period is asked for, every forecast equals the total of that one
    month. *)
Theorem forecast_single_month_is_flat `{Library}
    (records : list (expense cell)) (n : nat) (total : Q) :
  map snd (aggregate records Month) = [total] ->
  (1 <= n)%nat ->
  exists out,
    forecast_expenses records n = Return out
    /\ length out = n
    /\ Forall (fun row => (snd row == total)%Q) out.
Proof.
  intros Htotals Hn.
  assert (parse_dates records <> []) as Hne.
  { intros Hnil. unfold aggregate in Htotals. rewrite Hnil in Htotals. discriminate. }
  destruct (forecast_expenses_unfold records n Hne Hn) as
    (first & last & model & _ & _ & _ & _ & Hfit & Hout).
  assert (length (aggregate records Month) = 1%nat) as Hlen
    by (rewrite <- (length_map snd), Htotals; reflexivity).
  rewrite Hlen, Htotals in Hfit. rewrite Hlen in Hout.
  change (arange 0 1) with [inject_Z 0] in Hfit. unfold fit in Hfit.
  assert (Qeq_bool (Qsum (map (fun x => (x - Qmean [inject_Z 0])
                                      * (x - Qmean [inject_Z 0]))%Q
                           [inject_Z 0])) 0 = true) as Eflat
    by (vm_compute; reflexivity).
  rewrite Eflat in Hfit. injection Hfit as <-.
  eexists. split; [exact Hout|]. split.
  - rewrite length_combine, !length_map, length_arange, length_seqZ.
    lia.
  - apply List.Forall_forall. intros [d p] Hrow. apply in_combine_r in Hrow.
    apply in_map_iff in Hrow as [x [<- _]].
    cbn [snd coef_ intercept_]. unfold Qmean. cbn [Qsum fold_right length].
    change (inject_Z (Z.of_nat 1)) with 1%Q. field.
Qed.

Lemma forecast_single_month_is_flat_witness :
  exists out,
    forecast_expenses (H := Reference.library)
      [Expense 1 (Text "2023-01-15") 120%Q "Food" "dinner";
       Expense 2 (Text "2023-01-20") 30%Q "Food" "lunch"] 4 = Return out
    /\ Forall (fun row => (snd row == 150)%Q) out.
Proof.
  destruct (forecast_single_month_is_flat (H := Reference.library)
              [Expense 1 (Text "2023-01-15") 120%Q "Food" "dinner";
               Expense 2 (Text "2023-01-20") 30%Q "Food" "lunch"] 4 150)
    as (out & Hout & _ & Hflat).
  - vm_compute. reflexivity.
  - lia.
  - exists out. split; [exact Hout | exact Hflat].
Defined.

(** ** First number of a text *)

Lemma digits_prefix_all_digits (s : string) :
  all_digits (fst (digits_prefix s)) = true.
Proof.
  induction s as [|c s IH]; [reflexivity|].
  cbn [digits_prefix]. destruct (is_digit c) eqn:E; [|reflexivity].
  destruct (digits_prefix s) as [ds rest]. cbn [fst all_digits] in *.
  now rewrite E, IH.
Qed.

Lemma digits_prefix_app (ds rest : string) :
  all_digits ds = true -> stops_digits rest = true ->
  digits_prefix (ds +:+ rest) = (ds, rest).
Proof.
  intros Hds Hrest. induction ds as [|c ds IH].
  - destruct rest as [|c rest]; [reflexivity|].
    cbn [stops_digits] in Hrest. apply negb_true_iff in Hrest.
    change ("" +:+ String c rest) with (String c rest).
    cbn [digits_prefix]. now rewrite Hrest.
  - cbn [all_digits] in Hds. apply andb_true_iff in Hds as [Hc Hds].
    rewrite string_app_cons. cbn [digits_prefix]. now rewrite Hc, (IH Hds).
Qed.

Lemma digits_value_nonneg (ds : string) :
  forall acc, 0 <= acc -> all_digits ds = true -> 0 <= digits_value acc ds.
Proof.
  induction ds as [|c ds IH]; intros acc Hacc Hds; [exact Hacc|].
  cbn [all_digits] in Hds. apply andb_true_iff in Hds as [Hc Hds].
  cbn [digits_value]. apply IH; [|exact Hds].
  unfold is_digit in Hc. apply andb_true_iff in Hc as [Hlo _].
  apply Nat.leb_le in Hlo. lia.
Qed.

Lemma all_digits_app (a b : string) :
  all_digits (a +:+ b) = (all_digits a && all_digits b)%bool.
Proof.
  induction a as [|c a IH]; [reflexivity|].
  rewrite string_app_cons. cbn [all_digits]. now rewrite IH, andb_assoc.
Qed.

Lemma search_number_parts (text whole sep frac : string) :
  search_number text = Some (whole, sep, frac) ->
  all_digits whole = true /\ all_digits frac = true.
Proof.
  induction text as [|c rest IH]; [discriminate|].
  cbn [search_number]. destruct (is_digit c) eqn:Ec; [|exact IH].
  pose proof (digits_prefix_all_digits (String c rest)) as Hwhole.
  destruct (digits_prefix (String c rest)) as [w after]. cbn [fst] in Hwhole.
  destruct after as [|s after'].
  - intros [= <- <- <-]. now split.
  - destruct (Ascii.eqb s "." || Ascii.eqb s ",")%bool.
    + pose proof (digits_prefix_all_digits after') as Hfrac.
      destruct (digits_prefix after') as [f r]. cbn [fst] in Hfrac.
      intros [= <- <- <-]. now split.
    + intros [= <- <- <-]. now split.
Qed.

(** X12. [extract_numeric_value] answers [None] exactly for a text without a
    digit; the number it finds is never negative, a sign before the digits
    not being read. *)
Theorem extract_numeric_value_found (text : string) :
  (extract_numeric_value text = None <-> no_digit text = true)
  /\ (forall value, extract_numeric_value text = Some value -> (0 <= value)%Q)
  /\ extract_numeric_value (String "-" text) = extract_numeric_value text.
Proof.
  split; [|split].
  - unfold extract_numeric_value.
    assert (search_number text = None <-> no_digit text = true) as Hnone.
    { induction text as [|c rest IH]; [cbn; tauto|].
      cbn [search_number no_digit]. destruct (is_digit c) eqn:Ec; cbn [negb andb].
      - destruct (digits_prefix (String c rest)) as [w [|s after']];
          [split; discriminate|].
        destruct (Ascii.eqb s "." || Ascii.eqb s ",")%bool;
          [destruct (digits_prefix after')|]; split; discriminate.
      - exact IH. }
    rewrite <- Hnone.
    destruct (search_number text) as [[[whole sep] frac]|]; [|tauto].
    destruct (String.eqb sep "."); split; discriminate.
  - intros value. unfold extract_numeric_value.
    destruct (search_number text) as [[[whole sep] frac]|] eqn:Es; [|discriminate].
    destruct (search_number_parts _ _ _ _ Es) as [Hw Hf].
    destruct (String.eqb sep ".").
    + intros [= <-].
      pose proof (digits_value_nonneg whole 0 ltac:(lia) Hw) as H1.
      pose proof (digits_value_nonneg frac 0 ltac:(lia) Hf) as H2.
      assert (0 < 10 ^ Z.of_nat (String.length frac)) as Hpow
        by (apply Z.pow_pos_nonneg; lia).
      assert (0 <= inject_Z (digits_value 0 whole))%Q as Q1
        by (unfold Qle; cbn; lia).
      assert (0 <= inject_Z (digits_value 0 frac)
                   / inject_Z (10 ^ Z.of_nat (String.length frac)))%Q as Q2.
      { apply Qle_shift_div_l; [unfold Qlt; cbn; lia|].
        rewrite Qmult_0_l. unfold Qle. cbn. lia. }
      lra.
    + intros [= <-]. unfold Qle. cbn.
      pose proof (digits_value_nonneg (whole +:+ frac) 0 ltac:(lia)) as Hv.
      rewrite all_digits_app, Hw, Hf in Hv. specialize (Hv eq_refl). lia.
  - reflexivity.
Qed.

Lemma search_number_skip (pre text : string) :
  no_digit pre = true -> search_number (pre +:+ text) = search_number text.
Proof.
  intros Hpre. induction pre as [|c pre IH]; [reflexivity|].
  cbn [no_digit] in Hpre. apply andb_true_iff in Hpre as [Hc Hpre].
  apply negb_true_iff in Hc.
  rewrite string_app_cons. cbn [search_number]. rewrite Hc. now apply IH.
Qed.

(** X13. Only the first comma inside a number is bridged: in a text whose first
    digits are [d1], followed by a comma, digits [d2] and anything that
    does not go on with a digit (a second group of thousands, say), the
    value is the integer written by [d1] and [d2] together, and what
    follows is not read. *)
Theorem extract_numeric_value_first_comma (pre d1 d2 rest : string) :
  no_digit pre = true ->
  d1 <> EmptyString -> all_digits d1 = true -> all_digits d2 = true ->
  stops_digits rest = true ->
  extract_numeric_value (pre +:+ d1 +:+ String "," (d2 +:+ rest))
  = Some (inject_Z (digits_value 0 (d1 +:+ d2))).
Proof.
  intros Hpre Hne H1 H2 Hrest. unfold extract_numeric_value.
  rewrite (search_number_skip pre _ Hpre).
  destruct d1 as [|c d1]; [congruence|].
  cbn [all_digits] in H1. pose proof H1 as H1'.
  apply andb_true_iff in H1 as [Hc H1].
  rewrite string_app_cons. cbn [search_number]. rewrite Hc.
  rewrite <- string_app_cons.
  rewrite (digits_prefix_app (String c d1) (String "," (d2 +:+ rest)) H1' eq_refl).
  cbn [Ascii.eqb Bool.eqb orb].
  rewrite (digits_prefix_app d2 rest H2 Hrest). reflexivity.
Qed.

Lemma extract_numeric_value_first_comma_witness :
  extract_numeric_value "Total: 1,234,567.50 rs" = Some (inject_Z 1234).
Proof.
  apply (extract_numeric_value_first_comma "Total: " "1" "234" ",567.50 rs");
    try reflexivity. discriminate.
Defined.

(** ** Cumulative trend *)

Lemma Qsum_permutation (l l' : list Q) : Permutation l l' -> (Qsum l == Qsum l')%Q.
Proof.
  induction 1 as [|x l l' _ IH|x y l|l l' l'' _ IH1 _ IH2].
  - reflexivity.
  - rewrite !Qsum_cons. now rewrite IH.
  - rewrite !Qsum_cons. ring.
  - now rewrite IH1.
Qed.

Lemma length_cumsum_from (acc : Q) (l : list Q) :
  length (cumsum_from acc l) = length l.
Proof.
  revert acc. induction l as [|x l IH]; intros acc; [reflexivity|].
  cbn [cumsum_from length]. now rewrite IH.
Qed.

Lemma length_cumsum (l : list Q) : length (cumsum l) = length l.
Proof. destruct l; [reflexivity|]. cbn [cumsum length]. now rewrite length_cumsum_from. Qed.

Lemma cumsum_from_nil (acc : Q) (l : list Q) : cumsum_from acc l = [] -> l = [].
Proof. destruct l; [reflexivity | discriminate]. Qed.

Lemma cumsum_from_last (l : list Q) :
  forall acc init c,
    cumsum_from acc l = (init ++ [c])%list -> (c == acc + Qsum l)%Q.
Proof.
  induction l as [|x l IH]; intros acc init c Hl.
  - destruct init; discriminate.
  - change (cumsum_from acc (x :: l))
      with ((acc + x)%Q :: cumsum_from (acc + x) l) in Hl.
    rewrite Qsum_cons. destruct init as [|c0 init].
    + injection Hl as <- Hnil. apply cumsum_from_nil in Hnil. subst l. cbn. ring.
    + injection Hl as _ Hl. rewrite (IH _ _ _ Hl). ring.
Qed.

Lemma cumsum_last (l init : list Q) (c : Q) :
  cumsum l = (init ++ [c])%list -> (c == Qsum l)%Q.
Proof.
  destruct l as [|x l]; [destruct init; discriminate|].
  change (cumsum (x :: l)) with (x :: cumsum_from x l).
  rewrite Qsum_cons. intros Hl. destruct init as [|c0 init].
  - injection Hl as <- Hnil. apply cumsum_from_nil in Hnil. subst l. cbn. ring.
  - injection Hl as _ Hl. apply (cumsum_from_last _ _ _ _ Hl).
Qed.

Lemma cumsum_from_monotone (l : list Q) :
  forall acc,
    Forall (fun x => 0 <= x)%Q l ->
    StronglySorted Qle (cumsum_from acc l)
    /\ Forall (fun c => acc <= c /\ c <= acc + Qsum l)%Q (cumsum_from acc l).
Proof.
  induction l as [|x l IH]; intros acc Hpos.
  - split; constructor.
  - inversion Hpos as [|? ? Hx Hl]; subst.
    destruct (IH (acc + x)%Q Hl) as [Hsorted Hbounds].
    assert (0 <= Qsum l)%Q as Hsum.
    { clear -Hl. induction Hl as [|y l Hy _ IH]; [discriminate|].
      cbn [Qsum fold_right]. fold (Qsum l). lra. }
    cbn [cumsum_from Qsum fold_right]. fold (Qsum l). split.
    + constructor; [exact Hsorted|].
      eapply List.Forall_impl; [|exact Hbounds]. cbn. intros c [Hc _]. exact Hc.
    + constructor; [lra|].
      eapply List.Forall_impl; [|exact Hbounds]. cbn. intros c [Hc1 Hc2]. lra.
Qed.

Section BalanceTrendFacts.
Variable sort_values : list (expense Z) -> list (expense Z).
Hypothesis sort_values_permutation : forall df, Permutation (sort_values df) df.
Hypothesis sort_values_sorted :
  forall df, StronglySorted Z.le (map date (sort_values df)).

(** X14. The trend has a row for every row of the frame; its dates are those
    of the frame in ascending order; and its last cumulative value is the
    sum of all amounts, in whichever order rows of one date are taken. *)
Theorem balance_trend_ends_at_total (data : list (expense Z)) :
  let trend := balance_trend sort_values data in
  length trend = length data
  /\ Permutation (map fst trend) (map date data)
  /\ StronglySorted Z.le (map fst trend)
  /\ forall init last_row,
       trend = (init ++ [last_row])%list ->
       (snd last_row == Qsum (map amount data))%Q.
Proof.
  intros trend. subst trend. unfold balance_trend. cbv zeta.
  assert (Hlens : length (map date (sort_values data))
                  = length (cumsum (map amount (sort_values data))))
    by (rewrite length_cumsum, !length_map; reflexivity).
  rewrite (combine_fst _ _ Hlens).
  split; [|split; [|split]].
  - rewrite length_combine, <- Hlens, Nat.min_id, length_map.
    apply Permutation_length, sort_values_permutation.
  - apply Permutation_map, sort_values_permutation.
  - apply sort_values_sorted.
  - intros init last_row Htrend.
    apply (f_equal (map snd)) in Htrend.
    rewrite (combine_snd _ _ Hlens), map_app in Htrend. cbn [map] in Htrend.
    rewrite (cumsum_last _ _ _ Htrend).
    apply Qsum_permutation, Permutation_map, sort_values_permutation.
Qed.

(** X15. When no amount is negative, the cumulative column never goes down and
    stays between 0 and the sum of all amounts. *)
Theorem balance_trend_never_decreases (data : list (expense Z)) :
  Forall (fun row => 0 <= amount row)%Q data ->
  StronglySorted Qle (map snd (balance_trend sort_values data))
  /\ Forall (fun c => 0 <= c /\ c <= Qsum (map amount data))%Q
            (map snd (balance_trend sort_values data)).
Proof.
  intros Hpos. unfold balance_trend. cbv zeta.
  assert (Hlens : length (map date (sort_values data))
                  = length (cumsum (map amount (sort_values data))))
    by (rewrite length_cumsum, !length_map; reflexivity).
  rewrite (combine_snd _ _ Hlens).
  assert (Hpos' : Forall (fun x => 0 <= x)%Q (map amount (sort_values data))).
  { apply List.Forall_forall. intros x Hx. apply in_map_iff in Hx as [row [<- Hrow]].
    rewrite List.Forall_forall in Hpos. apply Hpos.
    apply (Permutation_in _ (sort_values_permutation data) Hrow). }
  assert (Htotal : (Qsum (map amount (sort_values data)) == Qsum (map amount data))%Q)
    by (apply Qsum_permutation, Permutation_map, sort_values_permutation).
  destruct (map amount (sort_values data)) as [|x l]; [split; constructor|].
  inversion Hpos' as [|? ? Hx Hl]; subst.
  destruct (cumsum_from_monotone l x Hl) as [Hsorted Hbounds].
  cbn [cumsum]. cbn [Qsum fold_right] in Htotal. fold (Qsum l) in Htotal. split.
  - constructor; [exact Hsorted|].
    eapply List.Forall_impl; [|exact Hbounds]. cbn. intros c [Hc _]. exact Hc.
  - assert (0 <= Qsum l)%Q as Hsum.
    { clear -Hl. induction Hl as [|y l Hy _ IH]; [discriminate|].
      cbn [Qsum fold_right]. fold (Qsum l). lra. }
    constructor; [lra|].
    eapply List.Forall_impl; [|exact Hbounds]. cbn. intros c [Hc1 Hc2]. lra.
Qed.

End BalanceTrendFacts.

Lemma insert_by_date_permutation (row : expense Z) (sorted : list (expense Z)) :
  Permutation (insert_by_date row sorted) (row :: sorted).
Proof.
  induction sorted as [|r rest IH]; cbn [insert_by_date]; [reflexivity|].
  destruct (date row <=? date r); [reflexivity|].
  rewrite IH. apply perm_swap.
Qed.

Lemma insertion_sort_permutation (df : list (expense Z)) :
  Permutation (insertion_sort df) df.
Proof.
  unfold insertion_sort. induction df as [|row df IH]; cbn [fold_right]; [reflexivity|].
  rewrite insert_by_date_permutation. now rewrite IH.
Qed.

Lemma insert_by_date_sorted (row : expense Z) (sorted : list (expense Z)) :
  StronglySorted Z.le (map date sorted) ->
  StronglySorted Z.le (map date (insert_by_date row sorted)).
Proof.
  induction sorted as [|r rest IH]; intros Hs; cbn [insert_by_date].
  - cbn. constructor; constructor.
  - cbn [map] in Hs. inversion Hs as [|? ? Hrest Hall]; subst.
    destruct (Z.leb_spec (date row) (date r)) as [Hle | Hgt]; cbn [map].
    + constructor; [exact Hs|]. constructor; [exact Hle|].
      eapply List.Forall_impl; [|exact Hall]. cbn. intros; lia.
    + constructor; [apply IH, Hrest|].
      apply List.Forall_forall. intros d Hd.
      apply in_map_iff in Hd as [x [<- Hx]].
      apply (Permutation_in _ (insert_by_date_permutation row rest)) in Hx.
      destruct Hx as [<- | Hx]; [lia|].
      rewrite List.Forall_forall in Hall. apply Hall. now apply in_map.
Qed.

Lemma insertion_sort_sorted (df : list (expense Z)) :
  StronglySorted Z.le (map date (insertion_sort df)).
Proof.
  unfold insertion_sort. induction df as [|row df IH]; cbn [fold_right].
  - constructor.
  - now apply insert_by_date_sorted.
Qed.

Lemma balance_trend_ends_at_total_witness :
  let data := [Expense 1 19418 300%Q "Housing" "rent";
               Expense 2 19372 100%Q "Food" "lunch"] in
  let trend := balance_trend insertion_sort data in
  length trend = length data
  /\ Permutation (map fst trend) (map date data)
  /\ StronglySorted Z.le (map fst trend)
  /\ forall init last_row,
       trend = (init ++ [last_row])%list ->
       (snd last_row == Qsum (map amount data))%Q.
Proof.
  exact (balance_trend_ends_at_total insertion_sort insertion_sort_permutation
           insertion_sort_sorted
           [Expense 1 19418 300%Q "Housing" "rent";
            Expense 2 19372 100%Q "Food" "lunch"]).
Defined.

Lemma balance_trend_never_decreases_witness :
  StronglySorted Qle
    (map snd (balance_trend insertion_sort
                [Expense 1 19418 300%Q "Housing" "rent";
                 Expense 2 19372 100%Q "Food" "lunch"])).
Proof.
  apply (balance_trend_never_decreases insertion_sort insertion_sort_permutation).
  repeat constructor; discriminate.
Defined.

(** ** The insight summary *)

Lemma insert_label_permutation (c : string) (l : list string) :
  Permutation (insert_label c l) (c :: l).
Proof.
  induction l as [|c' l IH]; cbn [insert_label]; [reflexivity|].
  destruct (String.leb c c'); [reflexivity|].
  rewrite IH. apply perm_swap.
Qed.

Lemma sort_labels_permutation (l : list string) : Permutation (sort_labels l) l.
Proof.
  induction l as [|c l IH]; [reflexivity|].
  cbn [sort_labels fold_right]. fold (sort_labels l).
  rewrite insert_label_permutation. now constructor.
Qed.

Lemma idxmax_from_spec (entries : list (string * Q)) :
  forall best,
    In (idxmax_from best entries) (best :: entries)
    /\ forall entry, In entry (best :: entries) ->
                     (snd entry <= snd (idxmax_from best entries))%Q.
Proof.
  induction entries as [|e entries IH]; intros best; cbn [idxmax_from].
  - split; [now left|]. intros entry [<-|[]]. apply Qle_refl.
  - destruct (Qlt_bool (snd best) (snd e)) eqn:Elt.
    + destruct (IH e) as [Hin Hmax]. split.
      * right. exact Hin.
      * intros entry [<-|Hentry]; [|now apply Hmax].
        apply Qlt_bool_iff in Elt. apply Qlt_le_weak.
        eapply Qlt_le_trans; [exact Elt|]. apply Hmax. now left.
    + destruct (IH best) as [Hin Hmax]. split.
      * destruct Hin as [Hin|Hin]; [now left|right; now right].
      * intros entry [<-|[<-|Hentry]].
        -- apply Hmax. now left.
        -- apply Qle_trans with (snd best); [|apply Hmax; now left].
           apply Qnot_lt_le. intros Hlt. apply Qlt_bool_iff in Hlt. congruence.
        -- apply Hmax. now right.
Qed.

Lemma Qsum_filter_split {A} (p : A -> bool) (f : A -> Q) (l : list A) :
  (Qsum (map f (List.filter p l))
   + Qsum (map f (List.filter (fun a => negb (p a)) l))
   == Qsum (map f l))%Q.
Proof.
  induction l as [|a l IH]; [reflexivity|].
  rewrite !Qsum_filter_cons. cbn [map]. rewrite Qsum_cons, <- IH.
  destruct (p a); cbn [negb]; ring.
Qed.

Lemma Qmean_times_length (l : list Q) :
  l <> [] -> (Qmean l * inject_Z (Z.of_nat (length l)) == Qsum l)%Q.
Proof.
  intros Hne. unfold Qmean. field.
  intros Hz. destruct l as [|x l]; [congruence|].
  cbn [length] in Hz. unfold Qeq, inject_Z in Hz. cbn in Hz. lia.
Qed.

(** X16. On a non-empty table the summary's total is the sum of every
    record's amount, also of the records whose date does not parse, while
    the monthly average is taken over the parseable ones only: average
    times number of months, plus the amounts with an unparseable date,
    gives the total. *)
Theorem insights_total_and_average `{Library} (records : list (expense cell)) :
  records <> [] ->
  exists top_cat avg_monthly,
    smart_expense_insights records
    = Summary (Qsum (map amount records)) top_cat avg_monthly
    /\ (avg_monthly * inject_Z (Z.of_nat (length (aggregate records Month)))
        + Qsum (map amount
                  (List.filter (fun row => negb (parseable (date row))) records))
        == Qsum (map amount records))%Q.
Proof.
  intros Hne. unfold smart_expense_insights.
  destruct records as [|row0 records0] eqn:E; [congruence|]. rewrite <- E. clear E.
  eexists _, _. split; [reflexivity|].
  rewrite <- (Qsum_filter_split (fun row => parseable (date row)) amount records).
  apply Qplus_inj_r. rewrite <- parse_dates_amounts.
  unfold aggregate. rewrite <- (resample_sum_total Month (parse_dates records)).
  destruct (resample_sum Month (parse_dates records)) as [|b bs] eqn:Em.
  - cbn. ring.
  - rewrite <- (length_map snd). apply Qmean_times_length. discriminate.
Qed.

Lemma insights_total_and_average_witness :
  exists top_cat avg_monthly,
    smart_expense_insights (H := Reference.library)
      [Expense 1 (Text "2023-01-15") 100%Q "Food" "lunch";
       Expense 2 (Text "soon") 300%Q "Housing" "rent";
       Expense 3 (Text "2023-03-15") 200%Q "Food" "dinner"]
    = Summary (Qsum [100; 300; 200]%Q) top_cat avg_monthly
    /\ (avg_monthly * inject_Z 3 + Qsum [300%Q] == Qsum [100; 300; 200]%Q)%Q.
Proof.
  apply (insights_total_and_average (H := Reference.library)
           [Expense 1 (Text "2023-01-15") 100%Q "Food" "lunch";
            Expense 2 (Text "soon") 300%Q "Housing" "rent";
            Expense 3 (Text "2023-03-15") 200%Q "Food" "dinner"]).
  discriminate.
Defined.

(** X17. On a non-empty table the summary's top category is the category
    of some record, and no category has a larger sum of amounts (records
    with an unparseable date included). *)
Theorem insights_top_category_is_largest `{Library} (records : list (expense cell)) :
  records <> [] ->
  exists total top_cat avg_monthly,
    smart_expense_insights records = Summary total top_cat avg_monthly
    /\ (exists row, In row records /\ category row = top_cat)
    /\ forall row, In row records ->
         (Qsum (map amount
                  (List.filter (fun r => String.eqb (category r) (category row))
                               records))
          <= Qsum (map amount
                     (List.filter (fun r => String.eqb (category r) top_cat)
                                  records)))%Q.
Proof.
  intros Hne. unfold smart_expense_insights.
  destruct records as [|row0 records0] eqn:E; [congruence|]. rewrite <- E.
  assert (Hlabels : forall c, In c (sort_labels (remove_dups (map category records)))
                              <-> exists row, In row records /\ category row = c).
  { intros c. rewrite <- list_elem_of_In.
    rewrite (sort_labels_permutation (remove_dups (map category records))).
    rewrite elem_of_remove_dups, list_elem_of_In, in_map_iff.
    split; intros [row [? ?]]; exists row; tauto. }
  unfold category_sums.
  destruct (sort_labels (remove_dups (map category records))) as [|c0 labels] eqn:El.
  { exfalso. destruct (proj2 (Hlabels (category row0))) as [].
    exists row0. split; [rewrite E; now left|reflexivity]. }
  set (spent := fun cat : string =>
         (cat, Qsum (map amount
                       (List.filter (fun r => String.eqb (category r) cat) records)))).
  cbn [map idxmax].
  destruct (idxmax_from_spec (map spent labels) (spent c0)) as [Hin Hmax].
  change (spent c0 :: map spent labels) with (map spent (c0 :: labels)) in Hin, Hmax.
  apply in_map_iff in Hin as (top & Htop & Hin).
  eexists _, _, _. split; [reflexivity|]. rewrite <- Htop. cbn [fst spent].
  split; [now apply Hlabels|].
  intros row Hrow.
  specialize (Hmax (spent (category row))). rewrite <- Htop in Hmax.
  apply Hmax. apply in_map. apply Hlabels. now exists row.
Qed.

Lemma insights_top_category_is_largest_witness :
  exists total top_cat avg_monthly,
    smart_expense_insights (H := Reference.library)
      [Expense 1 (Text "2023-01-15") 100%Q "Food" "lunch";
       Expense 2 (Text "soon") 300%Q "Housing" "rent";
       Expense 3 (Text "2023-03-15") 250%Q "Food" "dinner"]
    = Summary total top_cat avg_monthly
    /\ top_cat = "Food".
Proof.
  destruct (insights_top_category_is_largest (H := Reference.library)
              [Expense 1 (Text "2023-01-15") 100%Q "Food" "lunch";
               Expense 2 (Text "soon") 300%Q "Housing" "rent";
               Expense 3 (Text "2023-03-15") 250%Q "Food" "dinner"])
    as (total & top_cat & avg_monthly & Heq & _ & _); [discriminate|].
  exists total, top_cat, avg_monthly. split; [exact Heq|].
  vm_compute in Heq. congruence.
Defined.

(** ** Monthly totals by category *)

Lemma Qsum_indicator_label (labels : list string) (c0 : string) (a : Q) :
  NoDup labels -> c0 ∈ labels ->
  (Qsum (map (fun c => if String.eqb c0 c then a else 0) labels) == a)%Q.
Proof.
  induction labels as [|c labels IH]; intros Hnd Hin.
  - now apply elem_of_nil in Hin.
  - apply NoDup_cons in Hnd as [Hc Hnd]. cbn [map]. rewrite Qsum_cons.
    destruct (String.eqb_spec c0 c) as [->|Hne].
    + rewrite (Qsum_map_ext _ (fun _ => 0%Q)).
      * rewrite Qsum_zeros. ring.
      * intros c' Hc'. destruct (String.eqb_spec c c') as [<-|]; [|reflexivity].
        exfalso. apply Hc. now apply list_elem_of_In.
    + rewrite IH; [ring|exact Hnd|].
      apply elem_of_cons in Hin as [?|?]; [congruence|assumption].
Qed.

Lemma category_totals_sum {D} (labels : list string) (df : list (expense D)) :
  NoDup labels ->
  (forall row, In row df -> category row ∈ labels) ->
  (Qsum (map (fun c => Qsum (map amount
                 (List.filter (fun row => String.eqb (category row) c) df)))
             labels)
   == Qsum (map amount df))%Q.
Proof.
  intros Hnd. induction df as [|row df IH]; intros Hin.
  - cbn [List.filter map]. apply Qsum_zeros.
  - rewrite (Qsum_map_ext _ (fun c =>
      (if String.eqb (category row) c then amount row else 0)
      + Qsum (map amount
                (List.filter (fun r => String.eqb (category r) c) df)))%Q).
    + rewrite Qsum_map_plus, Qsum_indicator_label, IH.
      * cbn [map]. now rewrite Qsum_cons.
      * intros r Hr. apply Hin. now right.
      * exact Hnd.
      * apply Hin. now left.
    + intros c _.
      apply (Qsum_filter_cons (fun r => String.eqb (category r) c) amount row df).
Qed.

Lemma total_at_map (g : granularity) (label : Z) (f : Z -> Q) (range : list Z) :
  (total_at label (map (fun k => (period_end g k, f k)) range)
   == Qsum (map (fun k => if period_end g k =? label then f k else 0) range))%Q.
Proof.
  unfold total_at. induction range as [|k range IH]; [reflexivity|].
  cbn [map List.filter fst]. rewrite Qsum_cons, <- IH.
  destruct (period_end g k =? label); cbn [map snd]; rewrite ?Qsum_cons; ring.
Qed.

Lemma period_end_inj (g : granularity) (k k' : Z) :
  period_end g k = period_end g k' -> k = k'.
Proof.
  intros E. destruct (Z.lt_trichotomy k k') as [Hlt|[Heq|Hgt]]; [|exact Heq|].
  - pose proof (period_end_lt g k k' Hlt). lia.
  - pose proof (period_end_lt g k' k Hgt). lia.
Qed.

(** What a resampled frame lists under the end of period [k] is the sum
    over the rows of that period, also when the period lies outside the
    range of the frame. *)
Lemma total_at_resample_sum (g : granularity) (k : Z) (df : list (expense Z)) :
  (total_at (period_end g k) (resample_sum g df)
   == Qsum (map amount (rows_in g k df)))%Q.
Proof.
  destruct df as [|row0 df0] eqn:E; [reflexivity|]. rewrite <- E.
  destruct (resample_sum_shape g df) as (first & last & Hle & _ & _ & Hin & ->);
    [congruence|].
  rewrite (total_at_map g (period_end g k)
             (fun j => Qsum (map amount (rows_in g j df)))).
  rewrite (Qsum_map_ext _
             (fun j => if k =? j then Qsum (map amount (rows_in g k df)) else 0%Q)).
  - destruct (decide (first <= k <= last)) as [Hk|Hk].
    + apply Qsum_indicator; [apply NoDup_seqZ|]. apply elem_of_seqZ. lia.
    + rewrite (Qsum_map_ext _ (fun _ => 0%Q)).
      * rewrite Qsum_zeros, rows_in_nil; [reflexivity|].
        intros row Hrow Hp. specialize (Hin row Hrow). lia.
      * intros j Hj. apply list_elem_of_In, elem_of_seqZ in Hj.
        destruct (Z.eqb_spec k j); [lia|reflexivity].
  - intros j _. destruct (Z.eqb_spec (period_end g j) (period_end g k)) as [Hjk|Hjk].
    + apply period_end_inj in Hjk. subst j. now rewrite Z.eqb_refl.
    + destruct (Z.eqb_spec k j) as [->|_]; [congruence|reflexivity].
Qed.

Lemma rows_in_filter_category (g : granularity) (k : Z) (cat : string)
    (df : list (expense Z)) :
  rows_in g k (List.filter (fun row => String.eqb (category row) cat) df)
  = List.filter (fun row => String.eqb (category row) cat) (rows_in g k df).
Proof.
  unfold rows_in. induction df as [|row df IH]; [reflexivity|].
  cbn [List.filter].
  destruct (String.eqb (category row) cat) eqn:Ec;
    destruct (period_of g (date row) =? k) eqn:Ek;
    cbn [List.filter]; rewrite ?Ec, ?Ek, IH; reflexivity.
Qed.

(** X18. Month by month, the totals of the single categories, as the
    budget recommendation computes them, add up to the total of the whole
    table, as the forecast and the comparison compute it: every monthly
    total of the table is the sum, over the categories present, of what
    the category's own monthly series lists for that month (nothing, that
    is 0, where the month lies outside the category's range). *)
Theorem category_monthly_totals_add_up `{Library} (records : list (expense cell))
    (label : Z) (total : Q) :
  In (label, total) (aggregate records Month) ->
  (total
   == Qsum (map (fun cat =>
                   total_at label
                     (aggregate
                        (List.filter (fun row => String.eqb (category row) cat)
                                     records)
                        Month))
                (groups (parse_dates records))))%Q.
Proof.
  unfold aggregate. intros Hin.
  assert (parse_dates records <> []) as Hne by (intros E; now rewrite E in Hin).
  destruct (resample_sum_shape Month (parse_dates records) Hne)
    as (first & last & _ & _ & _ & _ & Hshape).
  rewrite Hshape in Hin. apply in_map_iff in Hin as (k & [= <- <-] & _).
  rewrite (Qsum_map_ext _
             (fun cat => Qsum (map amount
                (List.filter (fun row => String.eqb (category row) cat)
                             (rows_in Month k (parse_dates records)))))).
  - symmetry. apply category_totals_sum; [apply NoDup_remove_dups|].
    intros row Hrow. apply groups_spec. exists row. split; [|reflexivity].
    unfold rows_in in Hrow. now apply List.filter_In in Hrow as [Hrow _].
  - intros cat _.
    rewrite parse_dates_filter_category, <- rows_in_filter_category.
    apply (total_at_resample_sum Month k).
Qed.

Lemma category_monthly_totals_add_up_witness :
  (300
   == Qsum (map (fun cat =>
                   total_at (Calendar.days_from_civil 2023 1 31)
                     (aggregate (H := Reference.library)
                        (List.filter (fun row => String.eqb (category row) cat)
                           [Expense 1 (Text "2023-01-15") 100%Q "Food" "lunch";
                            Expense 2 (Text "2023-01-20") 200%Q "Housing" "rent";
                            Expense 3 (Text "2023-03-02") 50%Q "Food" "snack"])
                        Month))
                (groups (parse_dates (H := Reference.library)
                           [Expense 1 (Text "2023-01-15") 100%Q "Food" "lunch";
                            Expense 2 (Text "2023-01-20") 200%Q "Housing" "rent";
                            Expense 3 (Text "2023-03-02") 50%Q "Food" "snack"]))))%Q.
Proof.
  apply (category_monthly_totals_add_up (H := Reference.library)
           [Expense 1 (Text "2023-01-15") 100%Q "Food" "lunch";
            Expense 2 (Text "2023-01-20") 200%Q "Housing" "rent";
            Expense 3 (Text "2023-03-02") 50%Q "Food" "snack"]
           (Calendar.days_from_civil 2023 1 31) 300).
  vm_compute. now left.
Defined.

(** ** The record store *)

Lemma convert_to_inr_cents (amount : Q) :
  convert_to_inr amount
  = (inject_Z (round_half_even (amount * 100)) / inject_Z 100)%Q.
Proof.
  unfold convert_to_inr, round_digits.
  change (10 ^ Z.of_nat 2) with 100.
  rewrite (round_half_even_comp (amount * 1 * inject_Z 100) (amount * 100)%Q);
    [reflexivity|].
  change (inject_Z 100) with 100%Q. ring.
Qed.

Lemma convert_to_inr_idempotent (amount : Q) :
  convert_to_inr (convert_to_inr amount) = convert_to_inr amount.
Proof.
  rewrite (convert_to_inr_cents (convert_to_inr amount)).
  rewrite (convert_to_inr_cents amount) at 2. f_equal. f_equal.
  rewrite convert_to_inr_cents.
  rewrite <- (round_half_even_Z (round_half_even (amount * 100))) at 2.
  apply round_half_even_comp. change (inject_Z 100) with 100%Q. field.
Qed.

Lemma convert_to_inr_near (amount : Q) :
  (amount - (1 # 200) <= convert_to_inr amount <= amount + (1 # 200))%Q.
Proof.
  rewrite convert_to_inr_cents.
  pose proof (round_half_even_near (amount * 100)) as [Hlo Hhi].
  change (inject_Z 100) with 100%Q.
  set (k := inject_Z (round_half_even (amount * 100))) in *. clearbody k.
  assert (Hk : (k / 100 == k * (1 # 100))%Q) by (field).
  rewrite Hk. lra.
Qed.

Lemma ids_get_expenses (db : Database) :
  map id (get_expenses db) = map (fun row => id (columns row)) (expenses db).
Proof. unfold get_expenses. rewrite map_map. reflexivity. Qed.

Lemma fold_max_bound (ids : list Z) :
  Forall (fun i => i <= fold_right Z.max 0 ids) ids.
Proof.
  induction ids as [|i ids IH]; constructor; cbn [fold_right]; [lia|].
  eapply List.Forall_impl; [|exact IH]. cbn beta. intros; lia.
Qed.

Lemma fold_max_nonneg (ids : list Z) : 0 <= fold_right Z.max 0 ids.
Proof. induction ids as [|i ids IH]; cbn [fold_right]; lia. Qed.

Lemma next_rowid_fresh (db : Database) :
  sqlite_sequence db < next_rowid db
  /\ Forall (fun i => i < next_rowid db)
            (map (fun row => id (columns row)) (expenses db)).
Proof.
  unfold next_rowid. split; [lia|].
  eapply List.Forall_impl; [|apply fold_max_bound]. cbn beta. intros; lia.
Qed.

Lemma sorted_snoc (ids : list Z) (n : Z) :
  StronglySorted Z.lt ids -> Forall (fun i => i < n) ids ->
  StronglySorted Z.lt (ids ++ [n]).
Proof.
  induction 1 as [|i ids Hs IH Hi]; intros Hn; cbn [app].
  - repeat constructor.
  - apply Forall_cons in Hn as [Hin Hn]. constructor; [now apply IH|].
    apply Forall_app. split; [exact Hi|]. now repeat constructor.
Qed.

Lemma sorted_filter (p : Z -> bool) (ids : list Z) :
  StronglySorted Z.lt ids -> StronglySorted Z.lt (List.filter p ids).
Proof.
  induction 1 as [|i ids Hs IH Hi]; cbn [List.filter]; [constructor|].
  destruct (p i); [|exact IH]. constructor; [exact IH|].
  apply List.Forall_forall. intros j Hj. apply List.filter_In in Hj as [Hj _].
  revert j Hj. now apply List.Forall_forall.
Qed.

Lemma ids_delete (expense_id : Z) (db : Database) :
  map (fun row => id (columns row)) (expenses (snd (delete_expense expense_id db)))
  = List.filter (fun i => negb (i =? expense_id))
                (map (fun row => id (columns row)) (expenses db)).
Proof.
  cbn [delete_expense snd expenses].
  induction (expenses db) as [|row rows IH]; [reflexivity|].
  cbn [List.filter map]. destruct (id (columns row) =? expense_id); cbn [negb map];
    now rewrite IH.
Qed.

Lemma ids_update (expense_id : Z) (date : string) (amount : Q)
    (category description : string) (db : Database) :
  map (fun row => id (columns row))
      (expenses (snd (update_expense expense_id date amount category description db)))
  = map (fun row => id (columns row)) (expenses db).
Proof.
  cbn [update_expense snd expenses]. rewrite map_map. apply map_ext.
  intros row. destruct (Z.eqb_spec (id (columns row)) expense_id) as [->|];
    reflexivity.
Qed.

Lemma created_consistent : consistent created.
Proof. split; constructor. Qed.

Lemma run_consistent (db : Database) (c : call) :
  consistent db -> consistent (run db c).
Proof.
  intros [Hsorted Hbound]. destruct c; unfold run, consistent.
  - destruct (next_rowid_fresh db) as [Hseq Hfresh].
    cbn [insert_expense snd expenses sqlite_sequence].
    rewrite map_app. cbn [map columns id]. split.
    + now apply sorted_snoc.
    + apply Forall_app. split.
      * eapply List.Forall_impl; [|exact Hbound]. cbn beta. intros; lia.
      * constructor; [|constructor]. unfold next_rowid in *.
        pose proof (fold_max_nonneg
                      (map (fun row => id (columns row)) (expenses db))).
        lia.
  - rewrite ids_delete. cbn [delete_expense snd sqlite_sequence]. split.
    + now apply sorted_filter.
    + apply List.Forall_forall. intros i Hi. apply List.filter_In in Hi as [Hi _].
      revert i Hi. now apply List.Forall_forall.
  - rewrite ids_update. cbn [update_expense snd sqlite_sequence]. now split.
Qed.

Lemma run_all_consistent (calls : list call) :
  forall db, consistent db -> consistent (run_all calls db).
Proof.
  induction calls as [|c calls IH]; intros db Hdb; [exact Hdb|].
  cbn [run_all fold_left]. apply IH. now apply run_consistent.
Qed.

Lemma run_keeps_absent (db : Database) (c : call) (i : Z) :
  i <= sqlite_sequence db ->
  ~ In i (map (fun row => id (columns row)) (expenses db)) ->
  i <= sqlite_sequence (run db c)
  /\ ~ In i (map (fun row => id (columns row)) (expenses (run db c))).
Proof.
  intros Hle Hnot. destruct c; unfold run.
  - destruct (next_rowid_fresh db) as [Hseq _].
    cbn [insert_expense snd expenses sqlite_sequence]. split; [lia|].
    rewrite map_app, in_app_iff. cbn [map columns id In].
    intros [?|[?|[]]]; [tauto|lia].
  - rewrite ids_delete. cbn [delete_expense snd sqlite_sequence]. split; [exact Hle|].
    intros Hin. apply List.filter_In in Hin as [Hin _]. tauto.
  - rewrite ids_update. cbn [update_expense snd sqlite_sequence]. now split.
Qed.

Lemma run_all_keeps_absent (calls : list call) (i : Z) :
  forall db,
    i <= sqlite_sequence db ->
    ~ In i (map (fun row => id (columns row)) (expenses db)) ->
    ~ In i (map (fun row => id (columns row)) (expenses (run_all calls db))).
Proof.
  induction calls as [|c calls IH]; intros db Hle Hnot; [exact Hnot|].
  cbn [run_all fold_left].
  destruct (run_keeps_absent db c i Hle Hnot) as [Hle' Hnot']. now apply IH.
Qed.

Lemma sorted_NoDup (ids : list Z) : StronglySorted Z.lt ids -> List.NoDup ids.
Proof.
  induction 1 as [|i ids Hs IH Hi]; constructor; [|exact IH].
  intros Hin. apply (proj1 (List.Forall_forall _ _) Hi) in Hin. lia.
Qed.

Lemma sorted_count (ids : list Z) (i : Z) :
  StronglySorted Z.lt ids -> In i ids ->
  length (List.filter (fun j => j =? i) ids) = 1%nat.
Proof.
  intros Hs Hin. apply sorted_NoDup in Hs.
  induction ids as [|j ids IH]; [destruct Hin|].
  apply List.NoDup_cons_iff in Hs as [Hj Hs]. cbn [List.filter].
  destruct (Z.eqb_spec j i) as [->|Hne].
  - cbn [length]. f_equal.
    assert (Hnone : List.filter (fun j => j =? i) ids = []).
    { clear -Hj. induction ids as [|k ids IH]; [reflexivity|].
      cbn [List.filter]. destruct (Z.eqb_spec k i) as [->|].
      - exfalso. apply Hj. now left.
      - apply IH. intros Hin. apply Hj. now right. }
    now rewrite Hnone.
  - destruct Hin as [?|Hin]; [congruence|]. now apply IH.
Qed.

Lemma filter_length_split {A} (p : A -> bool) (l : list A) :
  (length (List.filter p l) + length (List.filter (fun a => negb (p a)) l)
   = length l)%nat.
Proof.
  induction l as [|a l IH]; [reflexivity|].
  cbn [List.filter]. destruct (p a); cbn [negb length]; lia.
Qed.

Lemma filter_ids {D} (p : Z -> bool) (rows : list (expense D)) :
  map id (List.filter (fun row => p (id row)) rows)
  = List.filter p (map id rows).
Proof.
  induction rows as [|row rows IH]; [reflexivity|].
  cbn [List.filter map]. destruct (p (id row)); cbn [map]; now rewrite IH.
Qed.

(** X19. Whatever inserts, deletions and updates a new database has seen,
    the records it lists have ascending, hence pairwise different, ids,
    all between 1 and the counter of the table. *)
Theorem database_ids_ascending (calls : list call) :
  let db := run_all calls created in
  StronglySorted Z.lt (map id (get_expenses db))
  /\ List.NoDup (map id (get_expenses db))
  /\ Forall (fun i => 1 <= i <= sqlite_sequence db) (map id (get_expenses db)).
Proof.
  intros db. rewrite ids_get_expenses.
  destruct (run_all_consistent calls created created_consistent) as [Hs Hb].
  fold db in Hs, Hb. split; [exact Hs|]. split; [now apply sorted_NoDup|exact Hb].
Qed.

(** X20. The id of a deleted record is never given to another record:
    after [delete_expense i], whatever calls follow, no record has id
    [i]. *)
Theorem database_id_never_reused (calls later : list call) (i : Z) :
  In i (map id (get_expenses (run_all calls created))) ->
  ~ In i (map id (get_expenses
                    (run_all (DeleteExpense i :: later) (run_all calls created)))).
Proof.
  intros Hin. rewrite ids_get_expenses in *.
  destruct (run_all_consistent calls created created_consistent) as [_ Hb].
  cbn [run_all fold_left]. apply run_all_keeps_absent.
  - cbn [run delete_expense snd sqlite_sequence].
    apply (proj1 (List.Forall_forall _ _) Hb) in Hin. lia.
  - unfold run. rewrite ids_delete. intros Hi.
    apply List.filter_In in Hi as [_ Hi]. rewrite Z.eqb_refl in Hi. discriminate.
Qed.

Lemma database_id_never_reused_witness :
  In 2 (map id (get_expenses
                  (run_all [InsertExpense "2023-01-01" 12%Q "Food" "lunch" "" "";
                            InsertExpense "2023-01-02" 5%Q "Food" "snack" "" ""]
                           created)))
  /\ ~ In 2 (map id (get_expenses
                       (run_all [DeleteExpense 2;
                                 InsertExpense "2023-01-03" 7%Q "Food" "meal" "" ""]
                          (run_all [InsertExpense "2023-01-01" 12%Q "Food" "lunch" "" "";
                                    InsertExpense "2023-01-02" 5%Q "Food" "snack" "" ""]
                                   created)))).
Proof.
  assert (Hin : In 2 (map id (get_expenses
                  (run_all [InsertExpense "2023-01-01" 12%Q "Food" "lunch" "" "";
                            InsertExpense "2023-01-02" 5%Q "Food" "snack" "" ""]
                           created)))).
  { vm_compute. right. now left. }
  split; [exact Hin|].
  exact (database_id_never_reused
           [InsertExpense "2023-01-01" 12%Q "Food" "lunch" "" "";
            InsertExpense "2023-01-02" 5%Q "Food" "snack" "" ""]
           [InsertExpense "2023-01-03" 7%Q "Food" "meal" "" ""] 2 Hin).
Defined.

(** X21. An inserted expense is listed last, under an id larger than
    every id listed before, with the date, category and description it
    was given and its amount rounded to two decimals once: the rounding
    at reading does not change it again, and the amount listed differs
    from the one given by at most half a hundredth. The records listed
    before are listed unchanged. *)
Theorem insert_then_get (db : Database) (date : string) (amount : Q)
    (category description receipt_path tags : string) :
  let result := insert_expense date amount category description receipt_path tags db in
  fst result = true
  /\ get_expenses (snd result)
     = (get_expenses db
        ++ [Expense (next_rowid db) (Text date) (convert_to_inr amount)
                    category description])%list
  /\ Forall (fun row => id row < next_rowid db) (get_expenses db)
  /\ (amount - (1 # 200) <= convert_to_inr amount <= amount + (1 # 200))%Q.
Proof.
  cbn zeta. split; [reflexivity|]. split; [|split].
  - unfold get_expenses. cbn [insert_expense snd expenses].
    rewrite map_app. cbn [map columns]. f_equal. f_equal.
    cbn. now rewrite convert_to_inr_idempotent.
  - destruct (next_rowid_fresh db) as [_ Hfresh].
    rewrite <- ids_get_expenses in Hfresh.
    apply List.Forall_forall. intros row Hrow.
    apply (proj1 (List.Forall_forall _ _) Hfresh). now apply in_map.
  - apply convert_to_inr_near.
Qed.

(** X22. Deleting or updating under an id that no record has reports
    success and leaves the database as it was. *)
Theorem unknown_id_changes_nothing (db : Database) (expense_id : Z)
    (date : string) (amount : Q) (category description : string) :
  ~ In expense_id (map id (get_expenses db)) ->
  delete_expense expense_id db = (true, db)
  /\ update_expense expense_id date amount category description db = (true, db).
Proof.
  rewrite ids_get_expenses. destruct db as [rows seq].
  cbn [expenses]. intros Hnot.
  unfold delete_expense, update_expense. cbn [expenses sqlite_sequence].
  split; f_equal; f_equal.
  - induction rows as [|row rows IH]; [reflexivity|].
    cbn [List.filter]. cbn [map In] in Hnot.
    destruct (Z.eqb_spec (id (columns row)) expense_id) as [Heq|Hne]; [tauto|].
    cbn [negb]. f_equal. apply IH. tauto.
  - induction rows as [|row rows IH]; [reflexivity|].
    cbn [map]. cbn [map In] in Hnot.
    destruct (Z.eqb_spec (id (columns row)) expense_id) as [Heq|Hne]; [tauto|].
    f_equal. apply IH. tauto.
Qed.

Lemma unknown_id_changes_nothing_witness :
  let db := run_all [InsertExpense "2023-01-01" 12%Q "Food" "lunch" "" ""] created in
  delete_expense 5 db = (true, db)
  /\ update_expense 5 "2023-02-01" 3%Q "Other" "none" db = (true, db).
Proof.
  apply (unknown_id_changes_nothing
           (run_all [InsertExpense "2023-01-01" 12%Q "Food" "lunch" "" ""] created)
           5 "2023-02-01" 3%Q "Other" "none").
  vm_compute. intros [H|[]]. discriminate H.
Defined.

(** X23. Deleting under an id that a record has removes exactly that one
    record: one record fewer is listed, the others are listed as before
    and in the same order, and the counter of the table stays. *)
Theorem delete_removes_exactly_one (calls : list call) (expense_id : Z) :
  let db := run_all calls created in
  In expense_id (map id (get_expenses db)) ->
  let db' := snd (delete_expense expense_id db) in
  get_expenses db'
  = List.filter (fun row => negb (id row =? expense_id)) (get_expenses db)
  /\ S (length (get_expenses db')) = length (get_expenses db)
  /\ sqlite_sequence db' = sqlite_sequence db.
Proof.
  intros db Hin db'.
  assert (Hget : get_expenses db'
                 = List.filter (fun row => negb (id row =? expense_id))
                               (get_expenses db)).
  { unfold db', get_expenses. cbn [delete_expense snd expenses].
    induction (expenses db) as [|row rows IH]; [reflexivity|].
    cbn [List.filter map id].
    destruct (id (columns row) =? expense_id); cbn [negb map]; now rewrite IH. }
  split; [exact Hget|]. split; [|reflexivity].
  destruct (run_all_consistent calls created created_consistent) as [Hs _].
  fold db in Hs. rewrite <- ids_get_expenses in Hs.
  pose proof (sorted_count _ expense_id Hs Hin) as Hone.
  pose proof (filter_length_split (fun j => j =? expense_id)
                                  (map id (get_expenses db))) as Hsplit.
  rewrite Hone in Hsplit.
  rewrite <- (length_map id (get_expenses db')), Hget.
  rewrite <- (length_map id (get_expenses db)), <- Hsplit. cbn [Nat.add]. f_equal.
  f_equal. apply (filter_ids (fun j => negb (j =? expense_id))).
Qed.

Lemma delete_removes_exactly_one_witness :
  let db := run_all [InsertExpense "2023-01-01" 12%Q "Food" "lunch" "" "";
                     InsertExpense "2023-01-02" 5%Q "Food" "snack" "" ""] created in
  let db' := snd (delete_expense 1 db) in
  get_expenses db'
  = List.filter (fun row => negb (id row =? 1)) (get_expenses db)
  /\ S (length (get_expenses db')) = length (get_expenses db)
  /\ sqlite_sequence db' = sqlite_sequence db.
Proof.
  apply (delete_removes_exactly_one
           [InsertExpense "2023-01-01" 12%Q "Food" "lunch" "" "";
            InsertExpense "2023-01-02" 5%Q "Food" "snack" "" ""] 1).
  vm_compute. now left.
Defined.

(** X24. Updating under an id that a record has rewrites exactly that one
    record: it keeps its id and place and gets the new date, category and
    description and the new amount rounded to two decimals; every other
    record is listed as before. *)
Theorem update_rewrites_exactly_one (calls : list call) (expense_id : Z)
    (date : string) (amount : Q) (category description : string) :
  let db := run_all calls created in
  In expense_id (map id (get_expenses db)) ->
  let db' := snd (update_expense expense_id date amount category description db) in
  get_expenses db'
  = map (fun row => if id row =? expense_id
                    then Expense expense_id (Text date) (convert_to_inr amount)
                                 category description
                    else row)
        (get_expenses db)
  /\ map id (get_expenses db') = map id (get_expenses db)
  /\ length (List.filter (fun row => id row =? expense_id) (get_expenses db')) = 1%nat.
Proof.
  intros db Hin db'.
  assert (Hids : map id (get_expenses db') = map id (get_expenses db)).
  { rewrite !ids_get_expenses. apply ids_update. }
  split; [|split; [exact Hids|]].
  - unfold db', get_expenses. cbn [update_expense snd expenses].
    rewrite !map_map. apply map_ext. intros row. cbn [id].
    destruct (id (columns row) =? expense_id); [|reflexivity].
    cbn. now rewrite convert_to_inr_idempotent.
  - destruct (run_all_consistent calls created created_consistent) as [Hs _].
    fold db in Hs. rewrite <- ids_get_expenses, <- Hids in Hs.
    rewrite <- Hids in Hin.
    rewrite <- (sorted_count _ expense_id Hs Hin).
    rewrite <- (length_map id (List.filter _ (get_expenses db'))). f_equal.
    apply (filter_ids (fun j => j =? expense_id)).
Qed.

Lemma update_rewrites_exactly_one_witness :
  let db := run_all [InsertExpense "2023-01-01" 12%Q "Food" "lunch" "" "";
                     InsertExpense "2023-01-02" 5%Q "Food" "snack" "" ""] created in
  let db' := snd (update_expense 2 "2023-01-05" 6.125%Q "Other" "gift" db) in
  get_expenses db'
  = map (fun row => if id row =? 2
                    then Expense 2 (Text "2023-01-05") (convert_to_inr 6.125%Q)
                                 "Other" "gift"
                    else row)
        (get_expenses db)
  /\ map id (get_expenses db') = map id (get_expenses db)
  /\ length (List.filter (fun row => id row =? 2) (get_expenses db')) = 1%nat.
Proof.
  apply (update_rewrites_exactly_one
           [InsertExpense "2023-01-01" 12%Q "Food" "lunch" "" "";
            InsertExpense "2023-01-02" 5%Q "Food" "snack" "" ""]
           2 "2023-01-05" 6.125%Q "Other" "gift").
  vm_compute. right. now left.
Defined.

(** ** Receipt details *)

Lemma match_here_app (pattern : list atom) :
  forall d post, match_here pattern d = Some d ->
                 match_here pattern (d +:+ post) = Some d.
Proof.
  induction pattern as [|a pattern IH]; intros d post Hd; cbn [match_here] in *.
  - injection Hd as <-. reflexivity.
  - destruct d as [|c d]; [discriminate|]. rewrite string_app_cons.
    destruct (accepts a c); [|discriminate].
    destruct (match_here pattern d) as [m|] eqn:Em; [|discriminate].
    cbn [option_map] in Hd. injection Hd as ->.
    now rewrite (IH d post Em).
Qed.

Lemma match_here_spec (pattern : list atom) :
  forall text m, match_here pattern text = Some m ->
                 match_here pattern m = Some m
                 /\ (exists post, text = m +:+ post)
                 /\ String.length m = length pattern.
Proof.
  induction pattern as [|a pattern IH]; intros text m Hm; cbn [match_here] in *.
  - injection Hm as <-. split; [reflexivity|]. split; [now exists text|reflexivity].
  - destruct text as [|c text]; [discriminate|].
    destruct (accepts a c) eqn:Ea; [|discriminate].
    destruct (match_here pattern text) as [m'|] eqn:Em; [|discriminate].
    cbn [option_map] in Hm. injection Hm as <-.
    destruct (IH text m' Em) as (Hfull & [post ->] & Hlen).
    rewrite Ea, Hfull. split; [reflexivity|]. split.
    + exists post. now rewrite string_app_cons.
    + cbn [String.length length]. now rewrite Hlen.
Qed.

Lemma re_search_spec (pattern : list atom) (text m : string) :
  re_search pattern text = Some m ->
  match_here pattern m = Some m /\ occurs m text
  /\ String.length m = length pattern.
Proof.
  induction text as [|c text IH]; cbn [re_search]; intros Hm.
  - destruct (match_here pattern "") as [m'|] eqn:Em; [|discriminate].
    injection Hm as <-. destruct (match_here_spec _ _ _ Em) as (? & [post Hp] & ?).
    split; [assumption|]. split; [|assumption]. exists "", post. exact Hp.
  - destruct (match_here pattern (String c text)) as [m'|] eqn:Em.
    + injection Hm as <-.
      destruct (match_here_spec _ _ _ Em) as (? & [post Hp] & ?).
      split; [assumption|]. split; [|assumption]. exists "", post. exact Hp.
    + destruct (IH Hm) as (? & [pre [post ->]] & ?).
      split; [assumption|]. split; [|assumption].
      exists (String c pre), post. now rewrite string_app_cons.
Qed.

Lemma re_search_finds (pattern : list atom) (pre d post : string) :
  match_here pattern d = Some d ->
  exists m, re_search pattern (pre +:+ d +:+ post) = Some m.
Proof.
  intros Hd. induction pre as [|c pre IH].
  - change ("" +:+ d +:+ post) with (d +:+ post).
    exists d. destruct (d +:+ post) eqn:E; cbn [re_search];
      rewrite <- E, (match_here_app pattern d post Hd); reflexivity.
  - rewrite string_app_cons. cbn [re_search].
    destruct (match_here pattern (String c (pre +:+ d +:+ post))) as [m|];
      [now exists m|exact IH].
Qed.

(** X25. When the receipt reader puts a receipt under Food, the keyword
    categoriser puts the same text under Food too. *)
Theorem receipt_food_is_keyword_food (text : string) :
  receipt_category text = Some "Food" ->
  advanced_categorize_expense text = "Food".
Proof.
  unfold receipt_category. destruct (Py.blank text) eqn:Eb; [discriminate|].
  destruct (Py.any _ ["restaurant"; "cafe"; "lunch"; "dinner"; "meal"]) eqn:Ef.
  - intros _. apply any_contains_iff in Ef as (k & Hk & Hocc).
    unfold advanced_categorize_expense.
    destruct text as [|c text]; [discriminate|].
    apply (categorize_loop_first CATEGORY_KEYWORDS _ 0 "Food"
             ["restaurant"; "dinner"; "lunch"; "cafe"; "meal"; "snack"; "food";
              "breakfast"]).
    + reflexivity.
    + exists k. split; [|exact Hocc]. cbn [In] in *. tauto.
    + intros j c' kws' Hj. lia.
  - destruct (Py.any _ ["grocery"; "supermarket"; "mart"]); [discriminate|].
    destruct (Py.any _ ["uber"; "taxi"; "bus"; "train"; "transport"]); discriminate.
Qed.

Lemma receipt_food_is_keyword_food_witness :
  advanced_categorize_expense "Corner CAFE, Total 12.50" = "Food".
Proof.
  apply (receipt_food_is_keyword_food "Corner CAFE, Total 12.50"). reflexivity.
Defined.

(** X26. A date the receipt reader returns is ten characters of the text,
    of the shape four digits, two digits, two digits or two digits, two
    digits, four digits, hyphens between them. *)
Theorem receipt_date_found (text d : string) :
  receipt_date text = Some d ->
  occurs d text
  /\ String.length d = 10%nat
  /\ (match_here date_pattern d = Some d
      \/ match_here date_pattern_alt d = Some d).
Proof.
  unfold receipt_date.
  destruct (re_search date_pattern text) as [m|] eqn:Eiso; intros Hd.
  - injection Hd as <-.
    destruct (re_search_spec _ _ _ Eiso) as (Hfull & Hocc & Hlen).
    split; [exact Hocc|]. split; [exact Hlen|now left].
  - destruct (re_search_spec _ _ _ Hd) as (Hfull & Hocc & Hlen).
    split; [exact Hocc|]. split; [exact Hlen|now right].
Qed.

Lemma receipt_date_found_witness :
  occurs "15-01-2023" "Paid on 15-01-2023, thank you"
  /\ String.length "15-01-2023" = 10%nat
  /\ (match_here date_pattern "15-01-2023" = Some "15-01-2023"
      \/ match_here date_pattern_alt "15-01-2023" = Some "15-01-2023").
Proof.
  apply (receipt_date_found "Paid on 15-01-2023, thank you" "15-01-2023").
  reflexivity.
Defined.

(** X27. A text that holds a date written year first gives a date written
    year first, also when a date written day first comes earlier in the
    text. *)
Theorem receipt_date_prefers_year_first (pre d post : string) :
  match_here date_pattern d = Some d ->
  exists found,
    receipt_date (pre +:+ d +:+ post) = Some found
    /\ match_here date_pattern found = Some found.
Proof.
  intros Hd. destruct (re_search_finds date_pattern pre d post Hd) as [m Hm].
  exists m. unfold receipt_date. rewrite Hm. split; [reflexivity|].
  now destruct (re_search_spec _ _ _ Hm).
Qed.

Lemma receipt_date_prefers_year_first_witness :
  exists found,
    receipt_date ("Issued 05-01-2023, due " +:+ "2023-02-01" +:+ " at noon")
    = Some found
    /\ match_here date_pattern found = Some found.
Proof.
  apply (receipt_date_prefers_year_first
           "Issued 05-01-2023, due " "2023-02-01" " at noon").
  reflexivity.
Defined.
